(** * wa_prod: connection lifecycle, send pipeline, scheduler and delivery ledger

    A shallow embedding of the WhatsApp messaging backend's core:

    - [Js]            the few JavaScript string primitives the controllers use;
    - [Store]         the relational tables ([media_messages], [report_time],
                      [phoneList], [subscription]), the process-wide
                      [instances] registry, the clock, timers and the effect
                      trace, gathered in one [World];
    - [UpdateStatus]  src/controllers/updateStatus.js (receipt reconciliation);
    - [Err]           exceptions, as a state-and-error monad over [World];
    - [Messages]      src/controllers/messages.js (send pipeline, quota gate);
    - [MessagesLegacy] the earlier messages.js;
    - [Timeline]      the guarded timeline upsert of the later updateStatus.js;
    - [Schedule]      src/controllers/schedule.js (scheduler sweep);
    - [QrCode]        src/controllers/qrcode.js (connection supervisor);
    - [UpdateStatusSpec], [MessagesSpec], [ScheduleSpec], [QrCodeSpec]
                      the vocabulary of the statements and the example worlds;
    - [LegacyPipeline], [LegacySchedule]
                      the send loop and the sweep of the earlier messages.js
                      and schedule.js;
    - [ScheduleEntry] the two functions of schedule.js that store a message
                      for later;
    - [Endpoints]     the QR and reset handlers of qrcode.js;
    - [LedgerSpec], [SendSpec], [TimelineSpec], [SweepSpec],
      [ScheduleEntrySpec], [EndpointsSpec], [IsolationSpec], [QuotaSpec]
                      more vocabulary and example worlds;
    - [RegistryProps], [UpdateStatusProps], [MessagesProps], [ScheduleProps],
      [QrCodeProps], [PipelineLedgerProps], [TimelineProps], [ChargeProps],
      [TrackingProps],
      [LegacyPipelineProps], [SweepLedgerProps], [LegacySweepProps],
      [ScheduleEntryProps], [EndpointsProps], [SupervisorProps],
      [IsolationProps], [QuotaProps]
                      the properties.

    Conventions.  Asynchronous functions are run to completion one after the
    other (the host runtime is single-threaded); every [await]ed call is a
    state transformer on [World].  The relational store is taken to be
    reachable: [connectDB] and the queries themselves do not throw, so the
    only exceptions are the ones the controllers raise or the transport
    reports.  [logger.warn] and [logger.error] calls are recorded in the
    world's [log]; [logger.info] and [logger.debug] calls are not. *)

From Stdlib Require Import ZArith Bool Ascii String List Lia.
From stdpp Require Import base option list strings gmap sorting.

Local Open Scope Z_scope.
Local Open Scope string_scope.

(* ===================================================================== *)
(** ** JavaScript string primitives *)
(* ===================================================================== *)

Module Js.

(** [Array.prototype.includes] on an array of strings. *)
Definition includes (x : string) (xs : list string) : bool :=
  existsb (String.eqb x) xs.

(** Truthiness of a string-or-null value: [null], [undefined] and the empty
    string are falsy. *)
Definition truthy (v : option string) : bool :=
  match v with
  | Some s => negb (String.eqb s "")
  | None => false
  end.

(** [v || null] on a string-or-null value. *)
Definition orNull (v : option string) : option string :=
  if truthy v then v else None.

Definition lowerAscii (c : ascii) : ascii :=
  let n := nat_of_ascii c in
  if (Nat.leb 65 n && Nat.leb n 90)%bool then ascii_of_nat (n + 32) else c.

(** [String.prototype.toLowerCase], on the ASCII range. *)
Fixpoint toLowerCase (s : string) : string :=
  match s with
  | EmptyString => EmptyString
  | String c t => String (lowerAscii c) (toLowerCase t)
  end.

(** The white space [\s] and [trim] recognise, on the ASCII range. *)
Definition isSpace (c : ascii) : bool :=
  let n := nat_of_ascii c in
  ((Nat.leb 9 n && Nat.leb n 13) || Nat.eqb n 32)%bool.

Fixpoint trimStart (s : string) : string :=
  match s with
  | EmptyString => EmptyString
  | String c t => if isSpace c then trimStart t else s
  end.

(** Drops trailing white space: a character is kept when something that is
    not white space follows it or it is not white space itself. *)
Fixpoint trimEnd (s : string) : string :=
  match s with
  | EmptyString => EmptyString
  | String c t =>
      match trimEnd t with
      | EmptyString => if isSpace c then EmptyString else String c EmptyString
      | t' => String c t'
      end
  end.

(** [String.prototype.trim]. *)
Definition trim (s : string) : string := trimEnd (trimStart s).

(** [s.split(',')]: always at least one piece. *)
Fixpoint split (sep : ascii) (s : string) : list string :=
  match s with
  | EmptyString => [EmptyString]
  | String c t =>
      if Ascii.eqb c sep then EmptyString :: split sep t
      else match split sep t with
           | [] => [String c EmptyString]
           | p :: ps => String c p :: ps
           end
  end.

(** [s.replace(/^\+/, '')]. *)
Definition stripLeadingPlus (s : string) : string :=
  match s with
  | String c t => if Ascii.eqb c "+"%char then t else s
  | EmptyString => EmptyString
  end.

(** [s.replace(/[+\s-]/g, '')]. *)
Fixpoint stripPhonePunctuation (s : string) : string :=
  match s with
  | EmptyString => EmptyString
  | String c t =>
      if (Ascii.eqb c "+"%char || isSpace c || Ascii.eqb c "-"%char)%bool
      then stripPhonePunctuation t
      else String c (stripPhonePunctuation t)
  end.

(** [\w]: letters, digits and the underscore. *)
Definition isWord (c : ascii) : bool :=
  let n := nat_of_ascii c in
  ((Nat.leb 48 n && Nat.leb n 57) || (Nat.leb 65 n && Nat.leb n 90)
   || (Nat.leb 97 n && Nat.leb n 122) || Nat.eqb n 95)%bool.

(** The property names a plain object ([{}]) inherits from
    [Object.prototype]. For such a name [k] and an object [o] with no
    property of its own under it, [o[k]] is not [undefined] but the
    inherited member: a function, or the prototype itself for
    [__proto__]. *)
Definition objectPrototypeNames : list string :=
  ["constructor"; "hasOwnProperty"; "isPrototypeOf"; "propertyIsEnumerable";
   "toLocaleString"; "toString"; "valueOf"; "__defineGetter__";
   "__defineSetter__"; "__lookupGetter__"; "__lookupSetter__"; "__proto__"].

Definition inheritedName (k : string) : bool := includes k objectPrototypeNames.

End Js.

(* ===================================================================== *)
(** ** Tables, registry and world *)
(* ===================================================================== *)

Module Store.

(** The [message_status] ENUM, as the strings the controllers pass around. *)
Definition PENDING : string := "pending".
Definition SENT : string := "sent".
Definition DELIVERED : string := "delivered".
Definition READ : string := "read".
Definition FAILED : string := "failed".

(** A row of [media_messages]. Times are milliseconds since the epoch. *)
Record MediaMessage : Type := mkMediaMessage {
  mm_id : Z;
  mm_instance_id : option string;
  mm_recipient : string;
  mm_message : option string;
  mm_media : option string;
  mm_caption : option string;
  mm_schedule_time : option Z;
  mm_message_status : string;
  mm_whatsapp_message_id : option string;
  mm_created_at : option Z
}.

Definition with_status (st : string) (r : MediaMessage) : MediaMessage :=
  mkMediaMessage (mm_id r) (mm_instance_id r) (mm_recipient r) (mm_message r)
    (mm_media r) (mm_caption r) (mm_schedule_time r) st
    (mm_whatsapp_message_id r) (mm_created_at r).

Definition with_status_and_wa (st : string) (wa : option string)
    (r : MediaMessage) : MediaMessage :=
  mkMediaMessage (mm_id r) (mm_instance_id r) (mm_recipient r) (mm_message r)
    (mm_media r) (mm_caption r) (mm_schedule_time r) st wa (mm_created_at r).

(** The timestamp columns of [report_time]. *)
Inductive TimeField : Type :=
  | initiated_time | sent_time | delivered_time | read_time | failed_time.

#[global] Instance TimeField_eq_dec : EqDecision TimeField.
Proof. solve_decision. Defined.

(** A row of [report_time]; [whatsapp_message_id] is its UNIQUE key. The
    bookkeeping columns [id], [created_at] and [updated_at] are left out. *)
Record ReportTime : Type := mkReportTime {
  rt_instance_id : string;
  rt_recipient : string;
  rt_whatsapp_message_id : string;
  rt_initiated_time : option Z;
  rt_sent_time : option Z;
  rt_delivered_time : option Z;
  rt_read_time : option Z;
  rt_failed_time : option Z
}.

Definition get_time (f : TimeField) (r : ReportTime) : option Z :=
  match f with
  | initiated_time => rt_initiated_time r
  | sent_time => rt_sent_time r
  | delivered_time => rt_delivered_time r
  | read_time => rt_read_time r
  | failed_time => rt_failed_time r
  end.

Definition set_time (f : TimeField) (v : option Z) (r : ReportTime) : ReportTime :=
  mkReportTime (rt_instance_id r) (rt_recipient r) (rt_whatsapp_message_id r)
    (if decide (f = initiated_time) then v else rt_initiated_time r)
    (if decide (f = sent_time) then v else rt_sent_time r)
    (if decide (f = delivered_time) then v else rt_delivered_time r)
    (if decide (f = read_time) then v else rt_read_time r)
    (if decide (f = failed_time) then v else rt_failed_time r).

(** A row of [phoneList]: the columns by name, [None] for SQL NULL. *)
Record PhoneRow : Type := mkPhoneRow {
  pl_phone_numbers : string;
  pl_instance_id : string;
  pl_columns : list (string * option string)
}.

(** A row of [subscription]. *)
Record Subscription : Type := mkSubscription {
  sub_id : Z;
  sub_instance_id : string;
  sub_num_messages : Z;
  sub_date_purchased : Z;
  sub_date_expiry : option Z;
  sub_created_at : Z
}.

(** The transport's session handle. [sock_handle] is the object's identity:
    [===] on two handles compares it. *)
Record User : Type := mkUser { user_id : option string }.
Record Sock : Type := mkSock { sock_handle : nat; sock_user : option User }.


(** An entry of the [instances] registry. Every property may be missing:
    the close handler builds an entry by spreading a possibly absent one. *)
Record Instance : Type := mkInstance {
  inst_sock : option Sock;
  inst_qrCode : option string;
  inst_status : option string;
  inst_lastUpdate : option Z
}.

(** An object with none of the properties of an entry: what the handlers
    see of a member of [Object.prototype] when they read [sock], [status],
    [qrCode] or [lastUpdate] off it. *)
Definition noProperties : Instance := mkInstance None None None None.

(** [instances[id]], the registry being a plain object: the entry stored
    under [id]; with nothing stored there, the member of [Object.prototype]
    that [id] names, which is truthy and has none of an entry's properties;
    [undefined] otherwise.  The prototype of the registry is taken to be
    [Object.prototype] throughout: an assignment to [instances['__proto__']]
    would replace it instead of storing an entry and a [delete] of that key
    removes nothing, so what writes or deletes an entry follows the code
    for every tenant id but [__proto__].  Where the code reads [sock] off
    the result behind [?.], behind [|| {}] or through a spread, an
    inherited member behaves as a missing entry does, and the definitions
    read the map directly. *)
Definition registryLookup (id : string) (registry : gmap string Instance)
    : option Instance :=
  match registry !! id with
  | Some entry => Some entry
  | None => if Js.inheritedName id then Some noProperties else None
  end.

Inductive Level : Type := Warn | Error.

(** What a message sent through the transport carries. *)
Record MediaPayload : Type := mkMediaPayload {
  mp_kind : string;
  mp_mimetype : string;
  mp_fileName : option string;
  mp_caption : string
}.

Inductive Content : Type :=
  | CText (text : option string)
  | CMedia (payload : MediaPayload).

(** The deferred callback the close handler registers with [setTimeout]:
    reconnect the instance, on behalf of the socket that closed. *)
Inductive TimerAction : Type :=
  | Reconnect (instanceId : string) (sock : Sock).

(** Observable effects, oldest first. [EvDue] is a ghost marker: the
    scheduler emits it when it takes a due message up, just before the call
    of its [sendMessage]. *)
Inductive Event : Type :=
  | EvSend (jid : string) (content : Content)
  | EvSleep (ms : Z)
  | EvDue (messageId : Z)
  | EvSaveCreds (instanceId : string)
  | EvInitializeSock (instanceId : string)
  | EvClearTimeout.

Record World : Type := mkWorld {
  media_messages : list MediaMessage;
  next_insert_id : Z;
  report_time : list ReportTime;
  phoneList : list PhoneRow;
  subscription : list Subscription;
  instances : gmap string Instance;
  timers : list (Z * TimerAction);
  clock : Z;
  sends : nat;
  trace : list Event;
  log : list (Level * string)
}.

Definition set_media_messages (v : list MediaMessage) (w : World) : World :=
  mkWorld v (next_insert_id w) (report_time w) (phoneList w) (subscription w)
    (instances w) (timers w) (clock w) (sends w) (trace w) (log w).

Definition set_next_insert_id (v : Z) (w : World) : World :=
  mkWorld (media_messages w) v (report_time w) (phoneList w) (subscription w)
    (instances w) (timers w) (clock w) (sends w) (trace w) (log w).

Definition set_report_time (v : list ReportTime) (w : World) : World :=
  mkWorld (media_messages w) (next_insert_id w) v (phoneList w) (subscription w)
    (instances w) (timers w) (clock w) (sends w) (trace w) (log w).

Definition set_instances (v : gmap string Instance) (w : World) : World :=
  mkWorld (media_messages w) (next_insert_id w) (report_time w) (phoneList w)
    (subscription w) v (timers w) (clock w) (sends w) (trace w) (log w).


(** [logger.warn] / [logger.error]. *)
Definition logw (lvl : Level) (msg : string) (w : World) : World :=
  mkWorld (media_messages w) (next_insert_id w) (report_time w) (phoneList w)
    (subscription w) (instances w) (timers w) (clock w) (sends w) (trace w)
    (log w ++ [(lvl, msg)]).

Definition emit (e : Event) (w : World) : World :=
  mkWorld (media_messages w) (next_insert_id w) (report_time w) (phoneList w)
    (subscription w) (instances w) (timers w) (clock w) (sends w)
    (trace w ++ [e]) (log w).

(** [await sleep(ms)]: the clock moves on. *)
Definition sleep (ms : Z) (w : World) : World :=
  mkWorld (media_messages w) (next_insert_id w) (report_time w) (phoneList w)
    (subscription w) (instances w) (timers w) (clock w + ms) (sends w)
    (trace w ++ [EvSleep ms]) (log w).

(** The durable part of a world: what the relational store holds. *)
Definition durable (w : World) : list MediaMessage * list ReportTime :=
  (media_messages w, report_time w).

(** The stored status of the message with ledger id [id]. *)
Definition status_of (id : Z) (w : World) : option string :=
  mm_message_status <$> List.find (fun r => Z.eqb (mm_id r) id) (media_messages w).

(** [UPDATE media_messages SET message_status = ? WHERE id = ?]; the driver
    reports the number of rows the WHERE clause matched. *)
Definition update_status (id : Z) (st : string) (rows : list MediaMessage)
    : list MediaMessage :=
  map (fun r => if Z.eqb (mm_id r) id then with_status st r else r) rows.

Definition matched (id : Z) (rows : list MediaMessage) : nat :=
  length (filter (fun r => mm_id r = id) rows).

(** The ledger row with id [id]. *)
Definition row_of (id : Z) (w : World) : option MediaMessage :=
  List.find (fun r => Z.eqb (mm_id r) id) (media_messages w).

(** The timeline row of a transport message id. *)
Definition timeline_of (wa : string) (w : World) : option ReportTime :=
  List.find (fun r => String.eqb (rt_whatsapp_message_id r) wa) (report_time w).

(** A timestamp of the timeline row of [wa]: [None] when there is no row,
    [Some None] when the column is NULL. *)
Definition stamp_of (wa : string) (f : TimeField) (w : World) : option (option Z) :=
  get_time f <$> timeline_of wa w.

End Store.

(* ===================================================================== *)
(** ** src/controllers/updateStatus.js: receipt reconciliation *)
(* ===================================================================== *)

Module UpdateStatus.
Import Store.

(** [Object.values(MESSAGE_STATUS)]. *)
Definition MESSAGE_STATUS_values : list string :=
  [PENDING; SENT; DELIVERED; READ; FAILED].

(** The status code the transport reports: a number, a string, or any other
    value (all of which the [switch] sends to its default). *)
Inductive RawStatus : Type :=
  | RNum (n : Z)
  | RStr (s : string)
  | ROther.

Record Key : Type := mkKey { key_id : option string; key_remoteJid : option string }.

(** An element of a [messages.update] batch. [upd_update] is the [update]
    property; inside it, [None] is a [status] that is [undefined]. *)
Record Update : Type := mkUpdate {
  upd_key : option Key;
  upd_update : option (option RawStatus)
}.

(** An element of a [receipt.update] batch; [rcp_receipt] is the receipt's
    [type] when there is a receipt. *)
Record ReceiptUpdate : Type := mkReceiptUpdate {
  rcp_key : option Key;
  rcp_receipt : option (option string)
}.

(** [SELECT id FROM media_messages WHERE instance_id = ? AND
    whatsapp_message_id = ?]: a NULL column or a missing id matches nothing. *)
Definition getDatabaseId (instanceId : string) (messageId : option string)
    (w : World) : bool * option Z :=
  let rows :=
    filter (fun r => mm_instance_id r = Some instanceId
                     /\ is_Some messageId
                     /\ mm_whatsapp_message_id r = messageId)
           (media_messages w) in
  match rows with
  | r :: _ => (true, Some (mm_id r))
  | [] => (false, None)
  end.

Definition updateMessageStatusInDB (messageId : Z) (newStatus : string)
    (w : World) : World :=
  let valid := Js.includes newStatus MESSAGE_STATUS_values in
  let w := if valid then w else logw Warn "Invalid message status, defaulting to 'sent'" w in
  let newStatus := if valid then newStatus else SENT in
  let affectedRows := matched messageId (media_messages w) in
  let w := set_media_messages (update_status messageId newStatus (media_messages w)) w in
  if Nat.ltb 0 affectedRows then w
  else logw Warn "No message found with ID" w.

(** The [switch] of the [messages.update] handler. *)
Definition canonicalStatus (code : RawStatus) : string :=
  match code with
  | RStr s => if String.eqb s "PENDING" then PENDING else SENT
  | RNum 1 => PENDING
  | RNum 3 => DELIVERED
  | RNum 4 => READ
  | RNum (-1) => FAILED
  | _ => SENT
  end.

(** One iteration of the [messages.update] loop. *)
Definition onMessageUpdate (instanceId : string) (u : Update) (w : World) : World :=
  match upd_key u, upd_update u with
  | Some key, Some (Some code) =>
      match getDatabaseId instanceId (key_id key) w with
      | (true, Some dbId) => updateMessageStatusInDB dbId (canonicalStatus code) w
      | _ => logw Warn "Message not found in database:" w
      end
  | _, _ => w
  end.

Definition onMessagesUpdate (instanceId : string) (updates : list Update)
    (w : World) : World :=
  fold_left (fun w u => onMessageUpdate instanceId u w) updates w.

(** One iteration of the [receipt.update] loop. *)
Definition onReceipt (instanceId : string) (u : ReceiptUpdate) (w : World) : World :=
  match rcp_key u with
  | None => w
  | Some key =>
      match getDatabaseId instanceId (key_id key) w with
      | (true, Some dbId) =>
          match rcp_receipt u with
          | Some type =>
              let newStatus :=
                if bool_decide (type = Some "read") then READ else DELIVERED in
              updateMessageStatusInDB dbId newStatus w
          | None => w
          end
      | _ => logw Warn "Message not found for receipt update:" w
      end
  end.

Definition onReceiptUpdate (instanceId : string) (updates : list ReceiptUpdate)
    (w : World) : World :=
  fold_left (fun w u => onReceipt instanceId u w) updates w.

(** The two listeners [setupMessageStatusTracking] registers. *)
Record Listeners : Type := mkListeners {
  messages_update : list Update -> World -> World;
  receipt_update : list ReceiptUpdate -> World -> World
}.

Definition setupMessageStatusTracking (sock : option Sock) (instanceId : string)
    (w : World) : option Listeners * World :=
  match sock with
  | Some _ =>
      if String.eqb instanceId "" then
        (None, logw Error "Invalid socket or instanceId provided for status tracking" w)
      else (Some (mkListeners (onMessagesUpdate instanceId) (onReceiptUpdate instanceId)), w)
  | None =>
      (None, logw Error "Invalid socket or instanceId provided for status tracking" w)
  end.

(** A status code that the handler maps to [pending]. *)
Definition pendingCode (code : RawStatus) : bool :=
  match code with
  | RNum 1 => true
  | RStr s => String.eqb s "PENDING"
  | _ => false
  end.

(** The status code an update carries, if any. *)
Definition codeOf (u : Update) : option RawStatus :=
  match upd_update u with
  | Some (Some code) => Some code
  | _ => None
  end.

End UpdateStatus.

(* ===================================================================== *)
(** ** Exceptions: a state-and-error monad over [World] *)
(* ===================================================================== *)

Module Err.
Import Store.

(** The outcome of an asynchronous call: a value, or a thrown [Error] with
    its [message]. *)
Inductive Res (A : Type) : Type :=
  | Ok (a : A)
  | Throw (e : string).
Arguments Ok {A} a.
Arguments Throw {A} e.

Definition M (A : Type) : Type := World -> Res A * World.

Definition ret {A} (a : A) : M A := fun w => (Ok a, w).

Definition throw {A} (e : string) : M A := fun w => (Throw e, w).

Definition bind {A B} (m : M A) (k : A -> M B) : M B :=
  fun w =>
    match m w with
    | (Ok a, w') => k a w'
    | (Throw e, w') => (Throw e, w')
    end.

(** [try { m } catch (e) { h e }]. *)
Definition catch {A} (m : M A) (h : string -> M A) : M A :=
  fun w =>
    match m w with
    | (Ok a, w') => (Ok a, w')
    | (Throw e, w') => h e w'
    end.

(** A step that cannot throw. *)
Definition lift (f : World -> World) : M unit := fun w => (Ok tt, f w).

Definition liftv {A} (f : World -> A * World) : M A :=
  fun w => let '(a, w') := f w in (Ok a, w').

Definition isOk {A} (r : Res A) : bool :=
  match r with Ok _ => true | Throw _ => false end.

Declare Scope js_scope.
Delimit Scope js_scope with js.
Notation "x <- m ;; k" := (bind m (fun x => k))
  (at level 100, m at next level, right associativity) : js_scope.
Notation "m ;;; k" := (bind m (fun _ => k))
  (at level 100, right associativity) : js_scope.

End Err.

(* ===================================================================== *)
(** ** src/controllers/messages.js: the send pipeline *)
(* ===================================================================== *)

Module Messages.
Import Store Err.
Local Open Scope js_scope.

Definition validMessageStatus : list string :=
  [SENT; DELIVERED; READ; FAILED; PENDING].

(** A [scheduleTime] as the request carries it: missing (any falsy value),
    not a date, or a date. *)
Inductive DateArg : Type :=
  | NoDate
  | InvalidDate
  | DateAt (ms : Z).

(** [formatScheduledAt]: the date cut to the minute
    ([YYYY-MM-DDTHH:MM]), or [null]. *)
Definition formatScheduledAt (scheduledAt : DateArg) (w : World) : option Z * World :=
  match scheduledAt with
  | NoDate => (None, w)
  | InvalidDate => (None, logw Error "Invalid date provided:" w)
  | DateAt ms => (Some (ms / 60000 * 60000), w)
  end.

(** *** replacePlaceholders *)

(** The longest prefix of word characters, and what follows it. *)
Fixpoint takeWord (s : string) : string * string :=
  match s with
  | String c t =>
      if Js.isWord c then let '(w, rest) := takeWord t in (String c w, rest)
      else (EmptyString, s)
  | EmptyString => (EmptyString, EmptyString)
  end.

(** A match of [/\{\{(\w+)\}\}/] at the head of [s]: the captured field and
    the length of the match. *)
Definition matchPlaceholder (s : string) : option (string * nat) :=
  match s with
  | String "{" (String "{" t) =>
      let '(field, rest) := takeWord t in
      match field, rest with
      | String _ _, String "}" (String "}" _) =>
          Some (field, (String.length field + 4)%nat)
      | _, _ => None
      end
  | _ => None
  end.

(** [text.replace(/\{\{(\w+)\}\}/g, f)]: matches are found left to right and
    do not overlap; [skip] counts the characters of a match still to pass. *)
Fixpoint replaceAll (f : string -> string) (skip : nat) (s : string) : string :=
  match s with
  | EmptyString => EmptyString
  | String c t =>
      match skip with
      | S k => replaceAll f k t
      | O =>
          match matchPlaceholder s with
          | Some (field, len) => f field ++ replaceAll f (len - 1) t
          | None => String c (replaceAll f 0 t)
          end
      end
  end.

(** [rows[0][field]]: the row's own columns ([undefined] is [None]; a NULL
    column prints as [null]). Properties a row inherits from its prototype
    are not modelled. *)
Definition column (row : PhoneRow) (field : string) : option string :=
  if String.eqb field "phone_numbers" then Some (pl_phone_numbers row)
  else if String.eqb field "instance_id" then Some (pl_instance_id row)
  else match List.find (fun kv => String.eqb (fst kv) field) (pl_columns row) with
       | Some (_, Some v) => Some v
       | Some (_, None) => Some "null"
       | None => None
       end.

Definition replacePlaceholders (text : option string) (phoneNumber : string)
    (instanceId : option string) (w : World) : option string * World :=
  match text, instanceId with
  | Some txt, Some inst =>
      if (Js.truthy text && Js.truthy (Some phoneNumber) && Js.truthy instanceId)%bool
      then
        let cleanPhoneNumber := Js.trim (Js.stripLeadingPlus phoneNumber) in
        let rows := filter (fun r => pl_phone_numbers r = cleanPhoneNumber
                                     /\ pl_instance_id r = inst) (phoneList w) in
        match rows with
        | [] => (text, logw Warn "No data found for phone number" w)
        | row :: _ =>
            (Some (replaceAll
                     (fun field =>
                        match column row field with
                        | Some v => v
                        | None => "{{" ++ field ++ "}}"
                        end) 0 txt), w)
        end
      else (text, w)
  | _, _ => (text, w)
  end.

(** *** logMediaMessageToDB *)

(** The [phoneNumbers] argument: an array, or a single number. *)
Inductive PhoneArg : Type :=
  | Many (numbers : list string)
  | One (number : string).

(** What [logMediaMessageToDB] returns: the insert id when one row was
    written, the array of insert ids otherwise. *)
Inductive InsertResult : Type :=
  | OneId (id : Z)
  | ManyIds (ids : list Z).

(** [INSERT INTO media_messages (...) VALUES (..., NOW())]. *)
Definition insert_message (instanceId : option string) (recipient : string)
    (message media caption : option string) (schedule : option Z)
    (status : string) (wa : option string) (w : World) : Z * World :=
  let id := next_insert_id w in
  let row := mkMediaMessage id instanceId recipient message media caption
               schedule status wa (Some (clock w)) in
  (id, set_next_insert_id (id + 1)
         (set_media_messages (media_messages w ++ [row])%list w)).

Definition processOne (instanceId : option string) (message caption : option string)
    (acc : list (string * option string * option string) * World)
    (phoneNumber : string)
    : list (string * option string * option string) * World :=
  let '(done, w) := acc in
  let '(processedMessage, w) := replacePlaceholders message phoneNumber instanceId w in
  let '(processedCaption, w) :=
    if Js.truthy caption then replacePlaceholders caption phoneNumber instanceId w
    else (None, w) in
  ((done ++ [(phoneNumber, processedMessage, processedCaption)])%list, w).

Definition insertOne (instanceId media : option string) (scheduleTime : DateArg)
    (status : string) (wa : option string)
    (acc : list Z * World) (p : string * option string * option string)
    : list Z * World :=
  let '(ids, w) := acc in
  let '(phoneNumber, processedMessage, processedCaption) := p in
  let '(schedule, w) := formatScheduledAt scheduleTime w in
  let '(id, w) :=
    insert_message (Js.orNull instanceId) phoneNumber (Js.orNull processedMessage)
      (Js.orNull media) (Js.orNull processedCaption) schedule status
      (Js.orNull wa) w in
  ((ids ++ [id])%list, w).

Definition logMediaMessageToDB (instanceId : option string) (phoneNumbers : PhoneArg)
    (message media caption : option string) (scheduleTime : DateArg)
    (messageStatus : option string) (whatsappMessageId : option string)
    : M InsertResult :=
  fun w =>
    let messageStatusValidated :=
      match messageStatus with
      | Some s => if Js.includes s validMessageStatus then s else SENT
      | None => SENT
      end in
    let numbers := match phoneNumbers with Many l => l | One n => [n] end in
    let '(processedMessages, w) :=
      fold_left (processOne instanceId message caption) numbers ([], w) in
    let '(results, w) :=
      fold_left (insertOne instanceId media scheduleTime messageStatusValidated
                   whatsappMessageId) processedMessages ([], w) in
    match results with
    | [id] => (Ok (OneId id), w)
    | _ => (Ok (ManyIds results), w)
    end.

(** *** The delivery timeline *)

(** The column a status selects, in [updateMessageStatusInDB]: none for
    ['pending']. *)
Definition statusField (status : string) : option TimeField :=
  let s := Js.toLowerCase status in
  if String.eqb s "sent" then Some sent_time
  else if String.eqb s "delivered" then Some delivered_time
  else if String.eqb s "read" then Some read_time
  else if String.eqb s "failed" then Some failed_time
  else None.

(** The same [switch] in [migrateMessageToReportTime], whose default is
    [initiated_time]. *)
Definition migrateField (status : string) : TimeField :=
  match statusField status with
  | Some f => f
  | None => initiated_time
  end.

(** [INSERT INTO report_time (instance_id, recipient, whatsapp_message_id,
    initiated_time, <field>, created_at) VALUES (...) ON DUPLICATE KEY UPDATE
    initiated_time = VALUES(initiated_time), <field> = VALUES(<field>)]. *)
Definition upsert_report (instanceId recipient wa : string) (field : TimeField)
    (v : Z) (rows : list ReportTime) : list ReportTime :=
  if existsb (fun r => String.eqb (rt_whatsapp_message_id r) wa) rows
  then map (fun r =>
              if String.eqb (rt_whatsapp_message_id r) wa
              then set_time field (Some v) (set_time initiated_time (Some v) r)
              else r) rows
  else (rows ++ [set_time field (Some v)
                   (mkReportTime instanceId recipient wa (Some v) None None None None)])%list.

Definition migrateMessageToReportTime (instanceId : option string) (recipient : string)
    (whatsappMessageId : option string) (messageStatus : string)
    (createdAt : option Z) (w : World) : World :=
  match instanceId, whatsappMessageId with
  | Some inst, Some wa =>
      if (Js.truthy instanceId && Js.truthy (Some recipient)
          && Js.truthy whatsappMessageId)%bool
      then
        let field := migrateField messageStatus in
        let recipients :=
          filter (fun r => r <> "") (map Js.trim (Js.split "," recipient)) in
        match recipients with
        | [] => w
        | _ :: _ =>
            if decide (field = initiated_time)
            then (* the column list names initiated_time twice: the statement
                    is refused and the catch block logs it *)
              logw Error "Failed to migrate message to report_time:" w
            else
              let v := default (clock w) createdAt in
              set_report_time
                (fold_left (fun rows r => upsert_report inst r wa field v rows)
                   recipients (report_time w)) w
        end
      else logw Warn "Missing required parameters for migrateMessageToReportTime" w
  | _, _ => logw Warn "Missing required parameters for migrateMessageToReportTime" w
  end.

(** [UPDATE report_time SET <field> = NOW() WHERE whatsapp_message_id = ?]. *)
Definition stamp_report (wa : string) (field : TimeField) (now : Z)
    (rows : list ReportTime) : list ReportTime :=
  map (fun r => if String.eqb (rt_whatsapp_message_id r) wa
                then set_time field (Some now) r else r) rows.

Definition updateMessageStatusInDB (messageId : Z) (newStatus : string) : M unit :=
  fun w =>
    if negb (Js.includes newStatus validMessageStatus) then
      (Throw "Invalid message status",
       logw Error "Failed to update message status in DB:" w)
    else
      match filter (fun r => mm_id r = messageId) (media_messages w) with
      | [] => (Ok tt, logw Warn "No message found with ID" w)
      | row :: _ =>
          let affectedRows := matched messageId (media_messages w) in
          let w := set_media_messages
                     (update_status messageId newStatus (media_messages w)) w in
          if Nat.ltb 0 affectedRows then
            match mm_whatsapp_message_id row, statusField newStatus with
            | Some wa, Some field =>
                if Js.truthy (Some wa) then
                  if existsb (fun r => String.eqb (rt_whatsapp_message_id r) wa)
                       (report_time w)
                  then (Ok tt, set_report_time
                                 (stamp_report wa field (clock w) (report_time w)) w)
                  else
                    let w := logw Warn "No report_time entry found for message ID" w in
                    (Ok tt, migrateMessageToReportTime (mm_instance_id row)
                              (mm_recipient row) (Some wa) newStatus
                              (mm_created_at row) w)
                else (Ok tt, w)
            | _, _ => (Ok tt, w)
            end
          else (Ok tt, logw Warn "No rows updated for message ID" w)
      end.

(** [updateMessageWithWhatsAppId]: [None] is the [undefined] of its early
    returns. *)
Definition updateMessageWithWhatsAppId (dbId : Z) (whatsappMessageId : option string)
    (w : World) : option bool * World :=
  if (Z.eqb dbId 0 || negb (Js.truthy whatsappMessageId))%bool then
    (None, logw Error "Missing required parameters for updateMessageWithWhatsAppId" w)
  else
    match filter (fun r => mm_id r = dbId) (media_messages w) with
    | [] => (None, logw Error "No message found with ID" w)
    | row :: _ =>
        let affectedRows := matched dbId (media_messages w) in
        let w := set_media_messages
                   (map (fun r => if Z.eqb (mm_id r) dbId
                                  then with_status_and_wa SENT whatsappMessageId r
                                  else r) (media_messages w)) w in
        if Nat.ltb 0 affectedRows then
          (Some true, migrateMessageToReportTime (mm_instance_id row)
                        (mm_recipient row) whatsappMessageId SENT
                        (mm_created_at row) w)
        else (Some false, logw Warn "No message updated with ID" w)
    end.

(** *** The transport *)

(** What a call of [sock.sendMessage] comes to: it resolves with a message
    whose [key.id] is [keyId] ([None] when the resolved value has no key, so
    that reading [result.key.id] throws), or it rejects with an [Error]. *)
Inductive SendOutcome : Type :=
  | Resolved (keyId : option string)
  | Rejected (message : string).

(** An element of the [messages] array of a request. *)
Record Message : Type := mkMessage {
  number : string;
  text : option string;
  caption : option string
}.

Definition MAX_RETRIES : nat := 3.
Definition RETRY_DELAY : Z := 3000.

Definition count_send (w : World) : World :=
  mkWorld (media_messages w) (next_insert_id w) (report_time w) (phoneList w)
    (subscription w) (instances w) (timers w) (clock w) (S (sends w)) (trace w)
    (log w).

(** [sock && sock.user && sock.user.id]. *)
Definition connected (sock : option Sock) : bool :=
  match sock with
  | Some s => match sock_user s with
              | Some u => Js.truthy (user_id u)
              | None => false
              end
  | None => false
  end.

Section Pipeline.

(** The transport's answer to the [n]-th call of [sock.sendMessage], and the
    [n]-th value of [Math.floor(Math.random() * (2500 - 2000))]. *)
Variable transport : nat -> string -> Content -> SendOutcome.
Variable jitter : nat -> Z.

Definition sock_sendMessage (jid : string) (content : Content) : M (option string) :=
  fun w =>
    let w' := count_send (emit (EvSend jid content) w) in
    match transport (sends w) jid content with
    | Resolved keyId => (Ok keyId, w')
    | Rejected e => (Throw e, w')
    end.

(** [sendWithRetry], by the number of retries left:
    [left = MAX_RETRIES - retryCount], so [retryCount < MAX_RETRIES] reads
    [left = S _]. *)
Fixpoint sendWithRetry_left (left : nat) (jid : string) (content : Content)
    {struct left} : M (option string) :=
  catch (sock_sendMessage jid content)
    (fun e =>
       match left with
       | S left' =>
           if String.eqb e "Timed Out"
           then lift (sleep RETRY_DELAY) ;;; sendWithRetry_left left' jid content
           else throw e
       | O => throw e
       end).

Definition sendWithRetry (jid : string) (content : Content) (retryCount : nat)
    : M (option string) :=
  sendWithRetry_left (MAX_RETRIES - retryCount) jid content.

(** [result.key.id]. *)
Definition keyIdOf (result : option string) : M (option string) :=
  match result with
  | Some id => ret (Some id)
  | None => throw "Cannot read properties of undefined (reading 'key')"
  end.

(** One of the two guarded sends of the loop body: on any error the ledger
    row is marked failed and the error is thrown again. *)
Definition guardedSend (jid : string) (content : Content) (dbMessageId : Z)
    (what : string) : M (option string) :=
  catch (result <- sendWithRetry jid content 0 ;; keyIdOf result)
    (fun e =>
       lift (logw Error what) ;;;
       updateMessageStatusInDB dbMessageId FAILED ;;;
       throw e).

Definition getRandomDelay (w : World) : Z := jitter (length (trace w)) + 2000.

Definition insertedId (r : InsertResult) : Z :=
  match r with
  | OneId id => id
  | ManyIds _ => 0
  end.

(** The [try] block of the loop of [sendMessagesOneAtATime]; it yields the
    final value of the local [whatsappMessageId]. *)
Definition processMessage (message : Message) (mediaPayload : option MediaPayload)
    (instanceId filePath : option string) (scheduleTime : DateArg)
    : M (option string) :=
  let jid := number message ++ "@s.whatsapp.net" in
  processedText <-
    liftv (replacePlaceholders (text message) (number message) instanceId) ;;
  processedCaption <-
    liftv (replacePlaceholders (caption message) (number message) instanceId) ;;
  inserted <-
    logMediaMessageToDB instanceId (Many [number message])
      (Js.orNull (text message))
      (match mediaPayload with Some _ => filePath | None => None end)
      (Js.orNull (caption message)) scheduleTime (Some PENDING) None ;;
  let dbMessageId := insertedId inserted in
  afterMedia <-
    match mediaPayload with
    | Some payload =>
        let processedMediaPayload :=
          match processedCaption with
          | Some c =>
              if Js.truthy processedCaption
              then mkMediaPayload (mp_kind payload) (mp_mimetype payload)
                     (mp_fileName payload) c
              else payload
          | None => payload
          end in
        guardedSend jid (CMedia processedMediaPayload) dbMessageId
          "Failed to send media"
    | None => ret None
    end ;;
  whatsappMessageId <-
    (if Js.truthy processedText
     then guardedSend jid (CText processedText) dbMessageId "Failed to send text"
     else ret afterMedia) ;;
  randomDelay <- (fun w => (Ok (getRandomDelay w), w)) ;;
  lift (sleep randomDelay) ;;;
  liftv (updateMessageWithWhatsAppId dbMessageId whatsappMessageId) ;;;
  ret whatsappMessageId.

(** One iteration of the loop: the counter goes up when the [try] block
    runs to its end; a thrown error is logged and the loop goes on. *)
Definition sendOne (mediaPayload : option MediaPayload)
    (instanceId filePath : option string) (scheduleTime : DateArg)
    (acc : Z * World) (message : Message) : Z * World :=
  let '(totalMessagesSent, w) := acc in
  match processMessage message mediaPayload instanceId filePath scheduleTime w with
  | (Ok _, w') => (totalMessagesSent + 1, w')
  | (Throw _, w') => (totalMessagesSent, logw Error "Error sending message" w')
  end.

Definition sendMessagesOneAtATime (messages : list Message)
    (mediaPayload : option MediaPayload) (sock : option Sock)
    (instanceId filePath : option string) (scheduleTime : DateArg) : M Z :=
  fun w =>
    if connected sock then
      let '(totalMessagesSent, w') :=
        fold_left (sendOne mediaPayload instanceId filePath scheduleTime)
          messages (0, w) in
      (Ok totalMessagesSent, w')
    else (Throw "WhatsApp connection not ready",
          logw Error "WhatsApp connection not ready" w).

(** *** sendMedia: the quota gate *)

Definition day : Z := 86400000.

(** [CURDATE()]. *)
Definition curdate (w : World) : Z := clock w / day * day.

(** [ORDER BY created_at DESC, id DESC]: whether [a] comes before [b]. *)
Definition newer (a b : Subscription) : bool :=
  (Z.ltb (sub_created_at b) (sub_created_at a)
   || (Z.eqb (sub_created_at a) (sub_created_at b) && Z.ltb (sub_id b) (sub_id a)))%bool.

(** [SELECT s.* FROM subscription s WHERE s.instance_id = ? AND
    s.date_expiry >= CURDATE() ORDER BY s.created_at DESC, s.id DESC LIMIT 1]. *)
Definition activeSubscription (instanceId : string) (w : World) : option Subscription :=
  fold_left
    (fun best s =>
       match best with
       | Some b => if newer s b then Some s else best
       | None => Some s
       end)
    (List.filter
       (fun s => (String.eqb (sub_instance_id s) instanceId
                  && match sub_date_expiry s with
                     | Some e => Z.leb (curdate w) e
                     | None => false
                     end)%bool)
       (subscription w))
    None.

(** [SELECT COUNT FROM media_messages WHERE instance_id = ? AND
    created_at >= ? AND created_at <= COALESCE(?, NOW()) AND created_at >=
    (SELECT created_at FROM subscription WHERE instance_id = ? AND id = ?)]. *)
Definition messagesInWindow (instanceId : string) (s : Subscription) (w : World) : Z :=
  Z.of_nat (length (List.filter
    (fun r => (bool_decide (mm_instance_id r = Some instanceId)
               && match mm_created_at r with
                  | Some c => Z.leb (sub_date_purchased s) c
                              && Z.leb c (default (clock w) (sub_date_expiry s))
                              && Z.leb (sub_created_at s) c
                  | None => false
                  end)%bool)
    (media_messages w))).

Definition messagesRemaining (instanceId : string) (s : Subscription) (w : World) : Z :=
  sub_num_messages s - messagesInWindow instanceId s w.

(** The [message] of a response. *)
Inductive ResponseText : Type :=
  | MessagesRequired
  | NoActiveSubscription
  | LimitReached
  | CanOnlySend (remaining : Z)
  | InstanceNotConnected
  | MediaRejected (why : string)
  | Processed (total : Z)
  | FailedToSend (error : string).

Record Response : Type := mkResponse {
  http_status : Z;
  success : bool;
  message : ResponseText;
  totalMessages : option Z
}.

Definition reject (text : ResponseText) : Response := mkResponse 400 false text None.

(** What reading and classifying the media file comes to: a payload, or the
    text of the 400 response. *)
Inductive MediaOutcome : Type :=
  | MediaReady (payload : MediaPayload)
  | MediaRefused (why : string).

(** The file system: the outcome of the media block of [sendMedia] for a
    path and the first message's caption. *)
Variable readMedia : string -> option string -> MediaOutcome.

Definition sendMedia (instanceId : string) (sock : option Sock)
    (messages : option (list Message)) (filePath : option string)
    (scheduleTime : DateArg) (w : World) : Response * World :=
  match messages with
  | None | Some [] => (reject MessagesRequired, w)
  | Some ((first :: _) as batch) =>
      match activeSubscription instanceId w with
      | None => (reject NoActiveSubscription, w)
      | Some subscription =>
          let remaining := messagesRemaining instanceId subscription w in
          if Z.leb remaining 0 then (reject LimitReached, w)
          else if Z.ltb remaining (Z.of_nat (length batch))
          then (reject (CanOnlySend remaining), w)
          else
            match sock with
            | None => (reject InstanceNotConnected, w)
            | Some _ =>
                let media :=
                  match filePath with
                  | Some path =>
                      if Js.truthy filePath then
                        match readMedia path (caption first) with
                        | MediaReady p => inr (Some p)
                        | MediaRefused why => inl why
                        end
                      else inr None
                  | None => inr None
                  end in
                match media with
                | inl why => (reject (MediaRejected why), w)
                | inr mediaPayload =>
                    match sendMessagesOneAtATime batch mediaPayload sock
                            (Some instanceId) filePath scheduleTime w with
                    | (Ok totalSent, w') =>
                        (mkResponse 200 true (Processed totalSent) (Some totalSent), w')
                    | (Throw e, w') =>
                        let w' := logw Error "Error in sendMedia:" w' in
                        let w' :=
                          if Js.truthy (Some instanceId) then
                            snd (logMediaMessageToDB (Some instanceId)
                                   (Many (map number batch)) (text first) filePath
                                   (caption first) scheduleTime (Some FAILED) None w')
                          else w' in
                        (mkResponse 500 false (FailedToSend e) None, w')
                    end
                end
            end
      end
  end.

End Pipeline.

End Messages.

(* ===================================================================== *)
(** ** The earlier src/controllers/messages.js *)
(* ===================================================================== *)

Module MessagesLegacy.
Import Store Err.

(** [logMediaMessageToDB] before placeholders were introduced: one row for
    the whole array of numbers, joined by commas ([''] when the argument is
    not an array). *)
Definition logMediaMessageToDB (instanceId : option string)
    (phoneNumbers : Messages.PhoneArg) (message media caption : option string)
    (scheduleTime : Messages.DateArg) (messageStatus : option string)
    (whatsappMessageId : option string) : M Z :=
  fun w =>
    let messageStatusValidated :=
      match messageStatus with
      | Some s => if Js.includes s Messages.validMessageStatus then s else SENT
      | None => SENT
      end in
    let recipient :=
      match phoneNumbers with
      | Messages.Many l => String.concat "," l
      | Messages.One _ => ""
      end in
    let '(schedule, w) := Messages.formatScheduledAt scheduleTime w in
    let '(id, w) :=
      Messages.insert_message (Js.orNull instanceId) recipient (Js.orNull message)
        (Js.orNull media) (Js.orNull caption) schedule messageStatusValidated
        (Js.orNull whatsappMessageId) w in
    (Ok id, w).

End MessagesLegacy.

(* ===================================================================== *)
(** ** The later src/controllers/updateStatus.js: the guarded timeline *)
(* ===================================================================== *)

Module Timeline.
Import Store Err.

(** [CASE WHEN ? = '<status>' AND <field> IS NULL THEN CURRENT_TIMESTAMP()
    ELSE <field> END]. *)
Definition fillOnce (field : TimeField) (status newStatus : string) (now : Z)
    (r : ReportTime) : ReportTime :=
  if (String.eqb newStatus status && negb (bool_decide (is_Some (get_time field r))))%bool
  then set_time field (Some now) r
  else r.

(** [INSERT INTO report_time (...) VALUES (...) ON DUPLICATE KEY UPDATE] with
    the four guarded assignments; [initiated_time] is set on insertion
    only. *)
Definition upsert_report (instanceId recipient wa : string) (createdAt : option Z)
    (newStatus : string) (now : Z) (rows : list ReportTime) : list ReportTime :=
  if existsb (fun r => String.eqb (rt_whatsapp_message_id r) wa) rows
  then map (fun r =>
              if String.eqb (rt_whatsapp_message_id r) wa
              then fillOnce failed_time FAILED newStatus now
                     (fillOnce read_time READ newStatus now
                        (fillOnce delivered_time DELIVERED newStatus now
                           (fillOnce sent_time SENT newStatus now r)))
              else r) rows
  else (rows ++ [mkReportTime instanceId recipient wa createdAt
                   (if String.eqb newStatus SENT then createdAt else None)
                   (if String.eqb newStatus DELIVERED then Some now else None)
                   (if String.eqb newStatus READ then Some now else None)
                   (if String.eqb newStatus FAILED then Some now else None)])%list.

(** [updateMessageStatusInDB] inside its transaction: an error rolls the
    status update back. *)
Definition updateMessageStatusInDB (messageId : Z) (newStatus : string) : M unit :=
  fun w =>
    let valid := Js.includes newStatus UpdateStatus.MESSAGE_STATUS_values in
    let w := if valid then w
             else logw Warn "Invalid message status, defaulting to 'sent'" w in
    let newStatus := if valid then newStatus else SENT in
    match filter (fun r => mm_id r = messageId) (media_messages w) with
    | [] => (Ok tt, logw Warn "No message found with ID" w)
    | row :: _ =>
        let affectedRows := matched messageId (media_messages w) in
        let updated := set_media_messages
                         (update_status messageId newStatus (media_messages w)) w in
        match mm_whatsapp_message_id row with
        | Some wa =>
            if (Js.truthy (Some wa) && Nat.ltb 0 affectedRows)%bool then
              match mm_instance_id row with
              | Some inst =>
                  (Ok tt, set_report_time
                            (upsert_report inst (mm_recipient row) wa
                               (mm_created_at row) newStatus (clock w)
                               (report_time w)) updated)
              | None =>
                  (Throw "Column 'instance_id' cannot be null",
                   logw Error "Failed to update message status in DB:" w)
              end
            else (Ok tt, logw Warn "No message found or no WhatsApp message ID" updated)
        | None => (Ok tt, logw Warn "No message found or no WhatsApp message ID" updated)
        end
    end.

End Timeline.

(* ===================================================================== *)
(** ** src/controllers/schedule.js: the scheduler sweep *)
(* ===================================================================== *)

Module Schedule.
Import Store Err.

(** [WHERE message_status = 'pending' AND schedule_time <= NOW()]; a NULL
    [schedule_time] satisfies no comparison. *)
Definition due (now : Z) (r : MediaMessage) : bool :=
  (String.eqb (mm_message_status r) PENDING
   && match mm_schedule_time r with
      | Some t => Z.leb t now
      | None => false
      end)%bool.

(** The sort key of [ORDER BY schedule_time ASC]. *)
Definition scheduled (r : MediaMessage) : Z := default 0 (mm_schedule_time r).

Definition earlier (a b : MediaMessage) : Prop := scheduled a <= scheduled b.

#[global] Instance earlier_dec a b : Decision (earlier a b).
Proof. unfold earlier. apply _. Defined.

(** [SELECT ... FROM media_messages WHERE message_status = 'pending' AND
    schedule_time <= NOW() ORDER BY schedule_time ASC LIMIT limit]. Rows with
    the same [schedule_time] come in the order the sort leaves them in. *)
Definition selectDue (limit : nat) (w : World) : list MediaMessage :=
  take limit (merge_sort earlier (List.filter (due (clock w)) (media_messages w))).

(** The current schedule.js reads pages of 50, the earlier one pages of 10
    (its [schedule_time IS NOT NULL] is implied by the comparison). *)
Definition getPendingScheduledMessages (w : World) : list MediaMessage := selectDue 50 w.
Definition getPendingScheduledMessages_legacy (w : World) : list MediaMessage :=
  selectDue 10 w.

(** *** Grouping by tenant *)

(** The property key a row's [instance_id] becomes. *)
Definition keyOf (r : MediaMessage) : string := default "null" (mm_instance_id r).

(** [messagesByInstance[k].push(m)], creating the array on first use; the
    list keeps the keys in the order they were created. *)
Fixpoint group_push (k : string) (m : MediaMessage)
    (groups : list (string * list MediaMessage)) : list (string * list MediaMessage) :=
  match groups with
  | [] => [(k, [m])]
  | (k', ms) :: rest =>
      if String.eqb k k' then (k', (ms ++ [m])%list) :: rest
      else (k', ms) :: group_push k m rest
  end.

Definition groupByInstance (page : list MediaMessage) : list (string * list MediaMessage) :=
  fold_left (fun groups m => group_push (keyOf m) m groups) page [].

(** The loop that fills [messagesByInstance], a plain object. For a key
    that names a member of [Object.prototype], [messagesByInstance[k]] is
    that member: it is truthy, so no array is created, and it has no
    [push], so the call throws a [TypeError] and the grouping ends there. *)
Definition groupPage (page : list MediaMessage)
    : Err.Res (list (string * list MediaMessage)) :=
  if forallb (fun m => negb (Js.inheritedName (keyOf m))) page
  then Err.Ok (groupByInstance page)
  else Err.Throw "messagesByInstance[message.instance_id].push is not a function".

Definition digit (c : ascii) : option N :=
  let n := N_of_ascii c in
  if (N.leb 48 n && N.leb n 57)%bool then Some (n - 48)%N else None.

Fixpoint parseDigits (acc : N) (s : string) : option N :=
  match s with
  | EmptyString => Some acc
  | String c t =>
      match digit c with
      | Some d => parseDigits (10 * acc + d)%N t
      | None => None
      end
  end.

(** A property key that is an array index: a canonical decimal numeral
    below 2^32 - 1. *)
Definition arrayIndex (k : string) : option N :=
  match k with
  | EmptyString => None
  | String c t =>
      if (Ascii.eqb c "0"%char && negb (String.eqb t ""))%bool then None
      else match parseDigits 0 k with
           | Some n => if N.ltb n 4294967295 then Some n else None
           | None => None
           end
  end.

Definition indexOrder (a b : string * list MediaMessage) : Prop :=
  (default 0 (arrayIndex (fst a)) <= default 0 (arrayIndex (fst b)))%N.

#[global] Instance indexOrder_dec a b : Decision (indexOrder a b).
Proof. unfold indexOrder. apply _. Defined.

(** [Object.entries]: array-index keys first, in ascending numeric order,
    then the other keys in creation order. *)
Definition Object_entries (groups : list (string * list MediaMessage))
    : list (string * list MediaMessage) :=
  (merge_sort indexOrder
     (List.filter (fun g => bool_decide (is_Some (arrayIndex (fst g)))) groups)
   ++ List.filter (fun g => negb (bool_decide (is_Some (arrayIndex (fst g))))) groups)%list.

(** *** Sending one due message *)

Definition updateScheduledMessageStatus (messageId : Z) (message_status : string)
    (whatsapp_message_id : option string) (w : World) : World :=
  if Js.truthy whatsapp_message_id then
    set_media_messages
      (map (fun r => if Z.eqb (mm_id r) messageId
                     then with_status_and_wa message_status whatsapp_message_id r
                     else r) (media_messages w)) w
  else set_media_messages (update_status messageId message_status (media_messages w)) w.

(** [!instance?.sock || instance.status !== 'connected'], negated: the
    socket of a usable entry. *)
Definition usable (entry : option Instance) : option Sock :=
  match entry with
  | Some i =>
      match inst_sock i with
      | Some s => if bool_decide (inst_status i = Some "connected") then Some s else None
      | None => None
      end
  | None => None
  end.

Section Sweep.

Variable transport : nat -> string -> Content -> Messages.SendOutcome.

(** What a call of [initializeSock] from the scheduler comes to: an outcome
    and the registry it leaves. *)
Variable connect : string -> gmap string Instance -> Res unit * gmap string Instance.

Definition initializeSock (instanceId : string) : M unit :=
  fun w =>
    let '(r, registry) := connect instanceId (instances w) in
    (r, emit (EvInitializeSock instanceId) (set_instances registry w)).

(** The body of the [try] of one attempt of [sendMessage]. *)
Definition attempt (sock : Sock) (jid : string) (message : option string) : M string :=
  fun w =>
    if Messages.connected (Some sock) then
      match Messages.sock_sendMessage transport jid (CText message) w with
      | (Ok keyId, w') =>
          match keyId with
          | Some id =>
              if Js.truthy keyId then (Ok id, w')
              else (Throw "Failed to get message ID from WhatsApp", w')
          | None => (Throw "Failed to get message ID from WhatsApp", w')
          end
      | (Throw e, w') => (Throw e, w')
      end
    else (Throw "Socket not properly authenticated", w).

(** [sendMessage(sock, jid, message, retries)]: the loop from attempt [i]
    with [remaining = retries - i] attempts to go; any error is retried,
    after [min(1000 * 2^i, 5000)] ms, except after the last attempt. *)
Fixpoint sendMessage_from (remaining i : nat) (sock : Sock) (jid : string)
    (message : option string) (w : World) : (bool * option string) * World :=
  match remaining with
  | O => ((false, None), logw Error "All retry attempts failed:" w)
  | S remaining' =>
      match attempt sock jid message w with
      | (Ok id, w') => ((true, Some id), w')
      | (Throw _, w') =>
          let w' := logw Warn "Send attempt failed:" w' in
          match remaining' with
          | O => sendMessage_from remaining' (S i) sock jid message w'
          | S _ =>
              sendMessage_from remaining' (S i) sock jid message
                (sleep (Z.min (1000 * 2 ^ Z.of_nat i) 5000) w')
          end
      end
  end.

Definition sendMessage (sock : Sock) (jid : string) (message : option string)
    (retries : nat) (w : World) : (bool * option string) * World :=
  sendMessage_from retries 0 sock jid message w.

(** The body of the loop over a tenant's messages. The ghost event [EvDue]
    marks the dispatch of the message's send attempt. The [catch] of the
    loop is not reached: nothing in its [try] throws. *)
Definition processDue (sock : Sock) (w : World) (m : MediaMessage) : World :=
  let formattedNumber := Js.stripPhonePunctuation (mm_recipient m) in
  let jid := formattedNumber ++ "@s.whatsapp.net" in
  let w := emit (EvDue (mm_id m)) w in
  let '((success, whatsapp_message_id), w) := sendMessage sock jid (mm_message m) 3 w in
  let w := updateScheduledMessageStatus (mm_id m) (if success then SENT else FAILED)
             whatsapp_message_id w in
  sleep 500 w.

(** The body of the loop over the tenants. *)
Definition processGroup (w : World) (entry : string * list MediaMessage) : World :=
  let '(instanceId, messages) := entry in
  if String.eqb instanceId "" then w
  else
    match usable (instances w !! instanceId) with
    | Some sock => fold_left (processDue sock) messages w
    | None =>
        match initializeSock instanceId w with
        | (Ok _, w1) =>
            match usable (instances w1 !! instanceId) with
            | Some sock => fold_left (processDue sock) messages w1
            | None => w1
            end
        | (Throw _, w1) => logw Error "Error initializing WhatsApp instance" w1
        end
    end.

(** One tick of the scheduler. An error of the grouping is caught by the
    [try] around the tick, which logs it and dispatches nothing. *)
Definition sweep (w : World) : World :=
  match getPendingScheduledMessages w with
  | [] => w
  | pendingMessages =>
      match groupPage pendingMessages with
      | Ok groups => fold_left processGroup (Object_entries groups) w
      | Throw _ => logw Error "Error in scheduler:" w
      end
  end.

End Sweep.

(** The ledger ids in the order their send attempts were dispatched. *)
Fixpoint dispatch_order (events : list Event) : list Z :=
  match events with
  | [] => []
  | EvDue id :: rest => id :: dispatch_order rest
  | _ :: rest => dispatch_order rest
  end.

End Schedule.

(* ===================================================================== *)
(** ** src/controllers/qrcode.js: the connection supervisor *)
(* ===================================================================== *)

Module QrCode.
Import Store Err.




Inductive ConnectResult : Type :=
  | GotQrCode (url : string)
  | NowConnected.









Section Supervisor.

(** [qrcode.toDataURL]. *)
Variable toDataURL : string -> Res string.





End Supervisor.



(** *** getConnectionStatus *)

(** The [connected] property of a status response: the literal [false], or
    the value of [instance.sock && instance.sock.user], which is the user
    object or nothing ([undefined] or [null]). *)
Inductive ConnectedValue : Type :=
  | LiteralFalse
  | LiteralTrue
  | UserObject (u : User)
  | Nothing.

Definition truthyValue (v : ConnectedValue) : bool :=
  match v with
  | LiteralTrue | UserObject _ => true
  | LiteralFalse | Nothing => false
  end.

Record StatusResponse : Type := mkStatusResponse {
  sr_code : Z;
  sr_success : bool;
  sr_connected : ConnectedValue;
  sr_status : option string;
  sr_message : string;
  sr_lastUpdate : option Z
}.

Definition getConnectionStatus (instanceId : string) (w : World) : StatusResponse :=
  match registryLookup instanceId (instances w) with
  | None => mkStatusResponse 404 false LiteralFalse (Some "not_found")
              "Instance not found" None
  | Some instance =>
      let isConnected :=
        match inst_sock instance with
        | Some sock => match sock_user sock with
                       | Some u => UserObject u
                       | None => Nothing
                       end
        | None => Nothing
        end in
      if truthyValue isConnected then
        mkStatusResponse 200 true isConnected (Some "connected")
          "WhatsApp is connected" (inst_lastUpdate instance)
      else if bool_decide (inst_status instance = Some "reconnecting") then
        mkStatusResponse 200 true isConnected (inst_status instance)
          "WhatsApp is reconnecting..." (inst_lastUpdate instance)
      else
        mkStatusResponse 200 true isConnected (Some "disconnected")
          "WhatsApp is not connected" (inst_lastUpdate instance)
  end.

End QrCode.

(* ===================================================================== *)
(** ** Vocabulary and example worlds for the properties of the receipt handler *)
(* ===================================================================== *)

Module UpdateStatusSpec.
Import Store UpdateStatus.

(** The message [id] is in the ledger with a status other than pending. *)
Definition notPending (id : Z) (w : World) : Prop :=
  exists st, status_of id w = Some st /\ st <> PENDING.

(** Worlds for the examples: one tracked message of tenant ["t1"], with
    transport id ["WA1"], in the given status. *)
Definition one_message (st : string) : World :=
  mkWorld
    [mkMediaMessage 1 (Some "t1") "911" (Some "hello") None None None st
       (Some "WA1") (Some 1000)]
    2 [] [] [] ∅ [] 5000 0 [] [].

(** A [messages.update] element for transport id [wa] with status [code]. *)
Definition event (wa : string) (code : RawStatus) : Update :=
  mkUpdate (Some (mkKey (Some wa) None)) (Some (Some code)).

End UpdateStatusSpec.

(* ===================================================================== *)
(** ** Vocabulary and example worlds for the properties of the send pipeline *)
(* ===================================================================== *)

Module MessagesSpec.
Import Store Err Messages.
Local Open Scope list_scope.

(** [w'] is [w] with more log entries and nothing else changed. *)
Definition add_logs (entries : list (Level * string)) (w : World) : World :=
  mkWorld (media_messages w) (next_insert_id w) (report_time w) (phoneList w)
    (subscription w) (instances w) (timers w) (clock w) (sends w) (trace w)
    (log w ++ entries).

Definition only_logs (w w' : World) : Prop := exists entries, w' = add_logs entries w.

(** The ledger of [w'] is that of [w] followed by [n] new rows, all with
    status [st]. *)
Definition appended (n : nat) (st : string) (w w' : World) : Prop :=
  exists added,
    media_messages w' = (media_messages w ++ added)%list
    /\ length added = n
    /\ Forall (fun r => mm_message_status r = st) added.

(** The status [logMediaMessageToDB] writes for a [messageStatus]. *)
Definition validated (messageStatus : option string) : string :=
  match messageStatus with
  | Some s => if Js.includes s validMessageStatus then s else SENT
  | None => SENT
  end.

(** [Array.isArray(phoneNumbers) ? phoneNumbers : [phoneNumbers]]. *)
Definition numbersOf (p : PhoneArg) : list string :=
  match p with Many l => l | One n => [n] end.

(** A store with nothing in it, at time 5000, whose next insert id is 1. *)
Definition empty_world : World := mkWorld [] 1 [] [] [] ∅ [] 5000 0 [] [].

(** A delivered message with its timeline row: [sent_time] was stamped at
    1000, [delivered_time] at 2000, and the clock now reads 5000. *)
Definition replay_world : World :=
  mkWorld
    [mkMediaMessage 1 (Some "t1") "911" (Some "hello") None None None DELIVERED
       (Some "WA1") (Some 1000)]
    2
    [mkReportTime "t1" "911" "WA1" (Some 1000) (Some 1000) (Some 2000) None None]
    [] [] ∅ [] 5000 0 [] [].

(** A pending message, created at 1000, whose transport id is not recorded
    yet while the timeline already has a row for that id, with a
    [sent_time] of 5000. *)
Definition stamped_world : World :=
  mkWorld
    [mkMediaMessage 1 (Some "t1") "911" (Some "hello") None None None PENDING
       None (Some 1000)]
    2
    [mkReportTime "t1" "911" "WA1" (Some 1000) (Some 5000) None None None]
    [] [] ∅ [] 9000 0 [] [].

(** Tenant ["t1"] knows the recipient 911 by the name Bob. *)
Definition address_book : World :=
  mkWorld [] 1 []
    [mkPhoneRow "911" "t1" [("name", Some "Bob"); ("city", None)]]
    [] ∅ [] 5000 0 [] [].

(** Tenant ["t1"] bought 2 messages at time 1000, valid until day 10, and
    has already used both. *)
Definition spent_world : World :=
  mkWorld
    [mkMediaMessage 1 (Some "t1") "911" (Some "a") None None None SENT None (Some 2000);
     mkMediaMessage 2 (Some "t1") "912" (Some "b") None None None SENT None (Some 3000)]
    3 [] []
    [mkSubscription 1 "t1" 2 1000 (Some 864000000) 1000]
    ∅ [] 5000 0 [] [].

(** The subscription row of [spent_world]. *)
Definition the_subscription : Subscription :=
  mkSubscription 1 "t1" 2 1000 (Some 864000000) 1000.

(** The transport's answer as the result of [await sock.sendMessage(...)]. *)
Definition outcome_result (o : SendOutcome) : Res (option string) :=
  match o with
  | Resolved keyId => Ok keyId
  | Rejected e => Throw e
  end.

(** The effects of a send that is retried [k] times: [k + 1] calls of
    [sock.sendMessage], a sleep of [RETRY_DELAY] before each retry. *)
Fixpoint retry_trace (k : nat) (jid : string) (c : Content) : list Event :=
  match k with
  | O => [EvSend jid c]
  | S k' => EvSend jid c :: EvSleep RETRY_DELAY :: retry_trace k' jid c
  end.

(** The world after a send retried [k] times: the clock is [k] delays on,
    [k + 1] calls were made, the tables and the log are as before. *)
Definition after_attempts (k : nat) (jid : string) (c : Content) (w : World) : World :=
  mkWorld (media_messages w) (next_insert_id w) (report_time w) (phoneList w)
    (subscription w) (instances w) (timers w)
    (clock w + RETRY_DELAY * Z.of_nat k) (sends w + k + 1)%nat
    (trace w ++ retry_trace k jid c) (log w).

(** The tables and the id counter are the same in both worlds. *)
Definition same_store (w w' : World) : Prop :=
  media_messages w' = media_messages w /\ next_insert_id w' = next_insert_id w
  /\ report_time w' = report_time w /\ phoneList w' = phoneList w.

(** An authenticated socket. *)
Definition me : option Sock := Some (mkSock 1 (Some (mkUser (Some "me@s.whatsapp.net")))).

(** A transport that times out twice and then delivers. *)
Definition flaky : nat -> string -> Content -> SendOutcome :=
  fun n _ _ => if Nat.ltb n 2 then Rejected "Timed Out" else Resolved (Some "WA7").

(** A transport that answers every call with [o]. *)
Definition always (o : SendOutcome) : nat -> string -> Content -> SendOutcome :=
  fun _ _ _ => o.

(** [Math.random] returning 0 every time. *)
Definition no_jitter : nat -> Z := fun _ => 0.

End MessagesSpec.

(* ===================================================================== *)
(** ** Vocabulary and example worlds for the properties of the scheduler *)
(* ===================================================================== *)

Module ScheduleSpec.
Import Store Err Schedule.
Local Open Scope list_scope.

(** Every group holds, in page order, the messages of the page with the
    group's key; keys are not repeated and none is missing. *)
Definition grouped (page : list MediaMessage)
    (groups : list (string * list MediaMessage)) : Prop :=
  NoDup (fst <$> groups)
  /\ (forall m, m ∈ page -> keyOf m ∈ (fst <$> groups))
  /\ forall k ms, (k, ms) ∈ groups -> ms = filter (fun m => keyOf m = k) page.

(** The ids dispatched between two worlds. *)
Definition dispatched_by (w w' : World) : list Z :=
  drop (length (dispatch_order (trace w))) (dispatch_order (trace w')).

(** Tenant ["t1"] is connected and has two due messages, the one with the
    larger id scheduled first. *)
Definition two_due : World :=
  mkWorld
    [mkMediaMessage 1 (Some "t1") "+91 1" (Some "late") None None (Some 4000) PENDING
       None (Some 1000);
     mkMediaMessage 2 (Some "t1") "+91 2" (Some "early") None None (Some 3000) PENDING
       None (Some 1000)]
    3 [] [] []
    {[ "t1" := mkInstance (Some (mkSock 1 (Some (mkUser (Some "me")))))
                 None (Some "connected") (Some 0) ]}
    [] 5000 0 [] [].

(** A transport that delivers every message. *)
Definition delivers : nat -> string -> Content -> Messages.SendOutcome :=
  fun _ _ _ => Messages.Resolved (Some "WA").

(** A supervisor whose every connection attempt times out. *)
Definition never_connects : string -> gmap string Instance -> Res unit * gmap string Instance :=
  fun _ registry => (Throw "Connection timeout", registry).

(** Tenant ["t1"] has a due message and no registry entry. *)
Definition due_offline : World :=
  mkWorld
    [mkMediaMessage 1 (Some "t1") "+91 1" (Some "hello") None None (Some 4000) PENDING
       None (Some 1000)]
    2 [] [] [] ∅ [] 5000 0 [] [].

End ScheduleSpec.

(* ===================================================================== *)
(** ** Vocabulary and example worlds for the properties of the connection supervisor *)
(* ===================================================================== *)

Module QrCodeSpec.
Import Store Err QrCode.
Local Open Scope list_scope.






End QrCodeSpec.

(* ===================================================================== *)
(** ** The earlier src/controllers/messages.js: the send loop *)
(* ===================================================================== *)

Module LegacyPipeline.
Import Store Err.
Local Open Scope js_scope.

(** [updateMessageStatusInDB] of the earlier file: the ledger only, no
    timeline. *)
Definition updateMessageStatusInDB (messageId : Z) (newStatus : string) : M unit :=
  fun w =>
    if negb (Js.includes newStatus Messages.validMessageStatus) then
      (Throw "Invalid message status",
       logw Error "Failed to update message status in DB:" w)
    else
      let affectedRows := matched messageId (media_messages w) in
      let w := set_media_messages
                 (update_status messageId newStatus (media_messages w)) w in
      if Nat.ltb 0 affectedRows then (Ok tt, w)
      else (Ok tt, logw Warn "No rows updated for message ID" w).

(** [UPDATE media_messages SET whatsapp_message_id = ?, message_status =
    'sent' WHERE id = ?]: neither argument is checked. *)
Definition updateMessageWithWhatsAppId (dbId : Z) (whatsappMessageId : option string)
    (w : World) : World :=
  set_media_messages
    (map (fun r => if Z.eqb (mm_id r) dbId
                   then with_status_and_wa SENT whatsappMessageId r
                   else r) (media_messages w)) w.

Section Pipeline.

(** The transport's answer to the [n]-th call of [sock.sendMessage], and the
    [n]-th value of [Math.floor(Math.random() * (6500 - 2000))]. *)
Variable transport : nat -> string -> Content -> Messages.SendOutcome.
Variable jitter : nat -> Z.

Definition guardedSend (jid : string) (content : Content) (dbMessageId : Z)
    (what : string) : M (option string) :=
  catch (result <- Messages.sendWithRetry transport jid content 0 ;;
         Messages.keyIdOf result)
    (fun e =>
       lift (logw Error what) ;;;
       updateMessageStatusInDB dbMessageId FAILED ;;;
       throw e).

(** The [try] block of the loop; it yields the final value of the local
    [whatsappMessageId]. *)
Definition processMessage (message : Messages.Message)
    (mediaPayload : option MediaPayload) (instanceId filePath : option string)
    (scheduleTime : Messages.DateArg) : M (option string) :=
  let jid := Messages.number message ++ "@s.whatsapp.net" in
  dbMessageId <-
    MessagesLegacy.logMediaMessageToDB instanceId
      (Messages.Many [Messages.number message])
      (Js.orNull (Messages.text message))
      (match mediaPayload with Some _ => filePath | None => None end)
      (match mediaPayload with Some _ => Messages.caption message | None => None end)
      scheduleTime (Some PENDING) None ;;
  afterMedia <-
    match mediaPayload with
    | Some payload =>
        guardedSend jid
          (CMedia (mkMediaPayload (mp_kind payload) (mp_mimetype payload)
                     (mp_fileName payload)
                     (default "" (Js.orNull (Messages.caption message)))))
          dbMessageId "Failed to send media"
    | None => ret None
    end ;;
  whatsappMessageId <-
    (if Js.truthy (Messages.text message)
     then guardedSend jid (CText (Messages.text message)) dbMessageId
            "Failed to send text"
     else ret afterMedia) ;;
  randomDelay <- (fun w => (Ok (Messages.getRandomDelay jitter w), w)) ;;
  lift (sleep randomDelay) ;;;
  lift (updateMessageWithWhatsAppId dbMessageId whatsappMessageId) ;;;
  ret whatsappMessageId.

Definition sendOne (mediaPayload : option MediaPayload)
    (instanceId filePath : option string) (scheduleTime : Messages.DateArg)
    (acc : Z * World) (message : Messages.Message) : Z * World :=
  let '(totalMessagesSent, w) := acc in
  match processMessage message mediaPayload instanceId filePath scheduleTime w with
  | (Ok _, w') => (totalMessagesSent + 1, w')
  | (Throw _, w') => (totalMessagesSent, logw Error "Failed to send message" w')
  end.

Definition sendMessagesOneAtATime (messages : list Messages.Message)
    (mediaPayload : option MediaPayload) (sock : option Sock)
    (instanceId filePath : option string) (scheduleTime : Messages.DateArg) : M Z :=
  fun w =>
    if Messages.connected sock then
      let '(totalMessagesSent, w') :=
        fold_left (sendOne mediaPayload instanceId filePath scheduleTime)
          messages (0, w) in
      (Ok totalMessagesSent, w')
    else (Throw "WhatsApp connection not ready",
          logw Error "WhatsApp connection not ready" w).

End Pipeline.

End LegacyPipeline.

(* ===================================================================== *)
(** ** The earlier src/controllers/schedule.js: the sweep *)
(* ===================================================================== *)

Module LegacySchedule.
Import Store Err Schedule.

(** [UPDATE media_messages SET message_status = ? WHERE id = ?]. *)
Definition updateScheduledMessageStatus (messageId : Z) (message_status : string)
    (w : World) : World :=
  set_media_messages (update_status messageId message_status (media_messages w)) w.

Section Sweep.

Variable transport : nat -> string -> Content -> Messages.SendOutcome.
Variable connect : string -> gmap string Instance -> Res unit * gmap string Instance.

(** [sendMessage(sock, jid, message)]: one call of the transport; whatever
    it resolves with counts as success, any error is logged and reported as
    [false]. *)
Definition sendMessage (sock : Sock) (jid : string) (message : option string)
    (w : World) : bool * World :=
  match Messages.sock_sendMessage transport jid (CText message) w with
  | (Ok _, w') => (true, w')
  | (Throw _, w') => (false, logw Error "Error sending message:" w')
  end.

(** The body of the loop over a tenant's messages, with the ghost event
    [EvDue] as in the current sweep. The [catch] of the loop is not
    reached: [sendMessage] catches every error of the transport. *)
Definition processDue (sock : Sock) (w : World) (m : MediaMessage) : World :=
  let formattedNumber := Js.stripPhonePunctuation (mm_recipient m) in
  let jid := formattedNumber ++ "@s.whatsapp.net" in
  let w := emit (EvDue (mm_id m)) w in
  let '(success, w) := sendMessage sock jid (mm_message m) w in
  let w := updateScheduledMessageStatus (mm_id m) (if success then SENT else FAILED) w in
  if success then w else logw Error "Failed to send scheduled message" w.

(** The body of the loop over the tenants. *)
Definition processGroup (w : World) (entry : string * list MediaMessage) : World :=
  let '(instanceId, messages) := entry in
  match usable (instances w !! instanceId) with
  | Some sock => fold_left (processDue sock) messages w
  | None =>
      match initializeSock connect instanceId w with
      | (Ok _, w1) =>
          match usable (instances w1 !! instanceId) with
          | Some sock => fold_left (processDue sock) messages w1
          | None => w1
          end
      | (Throw _, w1) => logw Error "Error initializing WhatsApp instance" w1
      end
  end.

(** One tick of the scheduler. An error of the grouping is caught by the
    [try] around the tick, which logs it and dispatches nothing. *)
Definition sweep (w : World) : World :=
  match groupPage (getPendingScheduledMessages_legacy w) with
  | Ok groups => fold_left processGroup (Object_entries groups) w
  | Throw _ => logw Error "Error in scheduler:" w
  end.

End Sweep.

End LegacySchedule.

(* ===================================================================== *)
(** ** src/controllers/schedule.js: storing a message for later *)
(* ===================================================================== *)

Module ScheduleEntry.
Import Store Err.
Local Open Scope js_scope.

(** The date printed as [YYYY-MM-DD HH:MM:SS] and read back by the store:
    the instant cut to the second. *)
Definition formatSeconds (ms : Z) : Z := ms / 1000 * 1000.

(** The message of the error for a status that is neither 'connected',
    'disconnected' nor 'connecting'. *)
Definition notReady (status : option string) : string :=
  "WhatsApp instance is not ready (status: " ++ default "undefined" status
  ++ "). Please ensure proper connection before scheduling.".

(** What a request body's [instance_id], [recipient], [schedule_time] and
    [message] lead to, in [saveMediaMessage]. *)
Inductive SaveResponse : Type :=
  | BadRequest (error : string)
  | NotFound (error : string)
  | Created (id : Z) (scheduled_time : Z).

Section Entry.

(** Whether the [instances] table has a row for the instance id. *)
Variable registered : string -> bool.

(** One turn of the loop over the recipients. *)
Definition saveOne (instanceId message media caption : option string)
    (formattedScheduleTime : Z) (acc : list Z * World) (recipient : string)
    : list Z * World :=
  let '(savedIds, w) := acc in
  let '(insertId, w) :=
    Messages.insert_message (Js.orNull instanceId) (Js.trim recipient)
      (Js.orNull message) (Js.orNull media) (Js.orNull caption)
      (Some formattedScheduleTime) PENDING None w in
  ((savedIds ++ [insertId])%list, w).

(** The [try] block of [saveScheduledMessage]. [scheduleTime] is a date, or
    [None] for a falsy value; [delayInMS] is what [parseInt] reads, or
    [None] for a falsy value. *)
Definition saveScheduledMessage_try (instanceId : option string)
    (phoneNumbers : Messages.PhoneArg) (message media caption : option string)
    (scheduleTime delayInMS : option Z) : M (list Z) :=
  fun w =>
    match instanceId with
    | None => (Throw "Instance ID is required", w)
    | Some id =>
        if negb (Js.truthy instanceId) then (Throw "Instance ID is required", w)
        else
          match registryLookup id (instances w) with
          | None => (Throw "WhatsApp instance not found", w)
          | Some whatsappInstance =>
              let status := inst_status whatsappInstance in
              if negb (bool_decide (status = Some "connected")) then
                if bool_decide (status = Some "disconnected") then
                  (Throw "WhatsApp instance is disconnected. Please reconnect and try again.", w)
                else if bool_decide (status = Some "connecting") then
                  (Throw "WhatsApp instance is still connecting. Please wait and try again.", w)
                else (Throw (notReady status), w)
              else if negb (registered id) then
                (Throw ("Instance with ID " ++ id ++ " does not exist in database"), w)
              else
                let currentTime := clock w in
                let scheduled :=
                  match scheduleTime with
                  | None =>
                      let delay := match delayInMS with
                                   | Some d => d
                                   | None => 4000
                                   end in
                      Ok (currentTime + delay)
                  | Some t =>
                      if Z.leb t currentTime
                      then Throw "Schedule time must be in the future"
                      else Ok t
                  end in
                match scheduled with
                | Throw e => (Throw e, w)
                | Ok scheduledDateTime =>
                    let formattedScheduleTime := formatSeconds scheduledDateTime in
                    let recipients :=
                      match phoneNumbers with
                      | Messages.Many l => l
                      | Messages.One n => [n]
                      end in
                    let '(savedIds, w) :=
                      fold_left (saveOne instanceId message media caption
                                   formattedScheduleTime) recipients ([], w) in
                    (Ok savedIds, w)
                end
          end
    end.

Definition saveScheduledMessage (instanceId : option string)
    (phoneNumbers : Messages.PhoneArg) (message media caption : option string)
    (scheduleTime delayInMS : option Z) : M (list Z) :=
  catch (saveScheduledMessage_try instanceId phoneNumbers message media caption
           scheduleTime delayInMS)
    (fun e => lift (logw Error "Error saving scheduled message:") ;;; throw e).

(** [saveMediaMessage]: the store is taken to read the [schedule_time]
    string as the instant the date parser gives it. *)
Definition saveMediaMessage (instance_id recipient : option string)
    (schedule_time : Messages.DateArg) (message : option string) (w : World)
    : SaveResponse * World :=
  match instance_id, recipient, schedule_time with
  | Some id, Some to, Messages.InvalidDate
  | Some id, Some to, Messages.DateAt _ =>
      if (Js.truthy instance_id && Js.truthy recipient && Js.truthy message)%bool then
        if negb (registered id) then (NotFound "Instance not found", w)
        else
          let formattedRecipient := Js.stripPhonePunctuation to in
          match schedule_time with
          | Messages.DateAt ms =>
              let '(insertId, w) :=
                Messages.insert_message instance_id formattedRecipient message None
                  None (Some ms) PENDING None w in
              (Created insertId ms, w)
          | _ => (BadRequest "Invalid schedule_time format", w)
          end
      else (BadRequest "instance_id, recipient, schedule_time and message are required", w)
  | _, _, _ =>
      (BadRequest "instance_id, recipient, schedule_time and message are required", w)
  end.

End Entry.

End ScheduleEntry.

(* ===================================================================== *)
(** ** src/controllers/qrcode.js: the QR and reset endpoints *)
(* ===================================================================== *)

Module Endpoints.
Import Store Err QrCode.

(** A call made on a socket. *)
Inductive SockCall : Type :=
  | CallLogout (sock : Sock)
  | CallEnd (sock : Sock).

(** The process as the two handlers see it: the world, the tenants whose
    auth folder [users/instance_<id>] exists, the calls made on sockets so
    far and the number of calls of [initializeSock] so far. *)
Record Host : Type := mkHost {
  world : World;
  authFolders : gset string;
  sock_calls : list SockCall;
  starts : nat
}.

Definition on_world (f : World -> World) (h : Host) : Host :=
  mkHost (f (world h)) (authFolders h) (sock_calls h) (starts h).

Definition removeFolder (instanceId : string) (h : Host) : Host :=
  mkHost (world h) (authFolders h ∖ {[instanceId]}) (sock_calls h) (starts h).

Definition deleteInstance (instanceId : string) (h : Host) : Host :=
  on_world (fun w => set_instances (delete instanceId (instances w)) w) h.

(** The responses of [generateQRCode]: [{ isAuthenticated: true }],
    [{ qrCode }], or status 500 with the error's message. *)
Inductive QrResponse : Type :=
  | IsAuthenticated
  | QrCode (url : string)
  | QrError (error : string).

(** The responses of [resetInstance]: success, or status 500. *)
Inductive ResetResponse : Type :=
  | ResetDone
  | ResetError (error : string).

Definition maxRetries : nat := 3.

Section Handlers.

(** The outcome of the [n]-th call made on a socket, the outcome of
    [fs.rmSync] on a tenant's auth folder, and what the [n]-th call of
    [initializeSock] comes to: the value its promise settles with and the
    registry its listeners leave. *)
Variable hangup : nat -> SockCall -> Res unit.
Variable rmSync : string -> Res unit.
Variable start : nat -> string -> gmap string Instance
                 -> Res ConnectResult * gmap string Instance.

Definition call (c : SockCall) (h : Host) : Res unit * Host :=
  (hangup (length (sock_calls h)) c,
   mkHost (world h) (authFolders h) (sock_calls h ++ [c])%list (starts h)).

(** [initializeSock] creates the auth folder before it opens the socket. *)
Definition initializeSock (instanceId : string) (h : Host) : Res ConnectResult * Host :=
  let '(r, registry) := start (starts h) instanceId (instances (world h)) in
  (r, mkHost (emit (EvInitializeSock instanceId) (set_instances registry (world h)))
        (authFolders h ∪ {[instanceId]}) (sock_calls h) (S (starts h))).

(** The cleanup of an existing entry that is not connected: every error is
    logged and passed over. *)
Definition cleanup (instanceId : string) (existingInstance : Instance) (h : Host) : Host :=
  let h :=
    match inst_sock existingInstance with
    | Some sock =>
        let '(r, h) := call (CallLogout sock) h in
        let h := match r with
                 | Ok _ => h
                 | Throw _ => on_world (logw Error "Logout error:") h
                 end in
        let '(r, h) := call (CallEnd sock) h in
        match r with
        | Ok _ => h
        | Throw _ => on_world (logw Error "End error:") h
        end
    | None => h
    end in
  let h := deleteInstance instanceId h in
  let h :=
    if bool_decide (instanceId ∈ authFolders h) then
      match rmSync instanceId with
      | Ok _ => removeFolder instanceId h
      | Throw _ => on_world (logw Error "Auth folder cleanup error:") h
      end
    else h in
  on_world (sleep 5000) h.

(** The [while (retryCount < maxRetries)] loop and what follows it, with
    [left = maxRetries - retryCount]. After the loop the handler reads
    [result], a name that is declared inside the loop's [try] block only:
    the reference fails, and the outer [catch] answers with that error. *)
Fixpoint connectWithRetry (left retryCount : nat) (instanceId : string) (h : Host)
    {struct left} : QrResponse * Host :=
  match left with
  | O => (QrError "result is not defined",
          on_world (logw Error "Error in generateQRCode:") h)
  | S left' =>
      let h := match registryLookup instanceId (instances (world h)) with
               | Some _ => deleteInstance instanceId h
               | None => h
               end in
      let '(result, h) := initializeSock instanceId h in
      let outcome :=
        match result with
        | Ok NowConnected => inr IsAuthenticated
        | Ok (GotQrCode url) =>
            if Js.truthy (Some url) then inr (QrCode url)
            else inl "Failed to generate QR code or establish connection"
        | Throw e => inl e
        end in
      match outcome with
      | inr response => (response, h)
      | inl _ =>
          let h := on_world (logw Error "Attempt failed:") h in
          let retryCount := S retryCount in
          let h := if Nat.ltb retryCount maxRetries
                   then on_world (sleep (3000 * (Z.of_nat retryCount + 1))) h
                   else h in
          connectWithRetry left' retryCount instanceId h
      end
  end.

Definition generateQRCode (instanceId : string) (h : Host) : QrResponse * Host :=
  match registryLookup instanceId (instances (world h)) with
  | Some existingInstance =>
      if bool_decide (inst_status existingInstance = Some "connected")
      then (IsAuthenticated, h)
      else connectWithRetry maxRetries 0 instanceId
             (cleanup instanceId existingInstance h)
  | None => connectWithRetry maxRetries 0 instanceId h
  end.

(** The tail of [resetInstance]: the auth folder and the response. *)
Definition resetFolder (instanceId : string) (h : Host) : ResetResponse * Host :=
  if bool_decide (instanceId ∈ authFolders h) then
    match rmSync instanceId with
    | Ok _ => (ResetDone, removeFolder instanceId h)
    | Throw e => (ResetError e, on_world (logw Error "Error in resetInstance:") h)
    end
  else (ResetDone, h).

Definition resetInstance (instanceId : string) (h : Host) : ResetResponse * Host :=
  match registryLookup instanceId (instances (world h)) with
  | Some instance =>
      match inst_sock instance with
      | Some sock =>
          let '(r, h) := call (CallLogout sock) h in
          match r with
          | Throw e => (ResetError e, on_world (logw Error "Error in resetInstance:") h)
          | Ok _ =>
              let '(r, h) := call (CallEnd sock) h in
              match r with
              | Throw e =>
                  (ResetError e, on_world (logw Error "Error in resetInstance:") h)
              | Ok _ => resetFolder instanceId (deleteInstance instanceId h)
              end
          end
      | None => resetFolder instanceId h
      end
  | None => resetFolder instanceId h
  end.

End Handlers.

End Endpoints.

(* ===================================================================== *)
(** ** Vocabulary for the effect of a send loop on the ledger *)
(* ===================================================================== *)

Module LedgerSpec.
Import Store.
Local Open Scope list_scope.

(** Every id of the ledger is below the next insert id. *)
Definition fresh (w : World) : Prop :=
  Forall (fun r => mm_id r < next_insert_id w) (media_messages w).

(** The net effect on the ledger of the steps from [w] to [w']: none, or the
    status [st] (and some transport id) written to the rows with id [id].
    No row is inserted. *)
Definition net (id : Z) (st : option string) (w w' : World) : Prop :=
  next_insert_id w' = next_insert_id w
  /\ match st with
     | None => media_messages w' = media_messages w
     | Some s =>
         exists h,
           (forall r, exists wa, h r = with_status_and_wa s wa r)
           /\ media_messages w'
              = map (fun r => if Z.eqb (mm_id r) id then h r else r) (media_messages w)
     end.

(** What [updateMessageWithWhatsAppId] writes to the rows with id [id]. *)
Definition stamped (id : Z) (wa : option string) (rows : list MediaMessage)
    : list MediaMessage :=
  map (fun r => if Z.eqb (mm_id r) id then with_status_and_wa SENT wa r else r) rows.

(** How the result of the [try] block of a send loop goes with its net
    effect [st] on the ledger: 'failed' when it throws; when it runs to its
    end with a transport id and the row id is not 0, the rows with that id
    are stamped with the transport id. *)
Definition outcome (id : Z) (res : Err.Res (option string)) (st : option string)
    (w3 w' : World) : Prop :=
  match res with
  | Err.Throw _ => st = Some FAILED
  | Err.Ok wa =>
      (st = None \/ st = Some SENT)
      /\ (Js.truthy wa = true -> id <> 0 ->
          media_messages w' = stamped id wa (media_messages w3))
  end.

(** The number of rows with status 'sent'. *)
Definition sentRows (rows : list MediaMessage) : nat :=
  length (List.filter (fun r => String.eqb (mm_message_status r) SENT) rows).

(** A row is settled when it is sent or failed. *)
Definition settled (r : MediaMessage) : Prop :=
  mm_message_status r = SENT \/ mm_message_status r = FAILED.

(** A socket whose user has no id. *)
Definition anonymous : option Sock := Some (mkSock 1 (Some (mkUser None))).

(** Tenant ["t1"] bought 5 messages at time 1000, valid until day 10, and
    has used none. *)
Definition subscribed : World :=
  mkWorld [] 1 [] []
    [mkSubscription 1 "t1" 5 1000 (Some 864000000) 1000]
    ∅ [] 5000 0 [] [].

End LedgerSpec.

(* ===================================================================== *)
(** ** Vocabulary for what the transport makes of a message *)
(* ===================================================================== *)

Module SendSpec.
Import Store Err Messages.
Local Open Scope list_scope.
Local Open Scope js_scope.

(** The media payload with the processed caption, when there is one. *)
Definition withCaption (payload : MediaPayload) (processedCaption : option string)
    : MediaPayload :=
  match processedCaption with
  | Some c =>
      if Js.truthy processedCaption
      then mkMediaPayload (mp_kind payload) (mp_mimetype payload) (mp_fileName payload) c
      else payload
  | None => payload
  end.

(** What the [try] block of the send loop hands to the transport for a
    message, in order: the media with the processed caption when the
    request has a media payload, then the processed text when it is not
    empty. *)
Definition contentsOf (message : Message) (mediaPayload : option MediaPayload)
    (instanceId : option string) (w : World) : list Content :=
  let processedText :=
    fst (replacePlaceholders (text message) (number message) instanceId w) in
  let processedCaption :=
    fst (replacePlaceholders (caption message) (number message) instanceId w) in
  match mediaPayload with
  | Some payload => [CMedia (withCaption payload processedCaption)]
  | None => []
  end ++ (if Js.truthy processedText then [CText processedText] else []).

(** The message logged when a send of that content fails. *)
Definition complaint (c : Content) : string :=
  match c with
  | CMedia _ => "Failed to send media"
  | CText _ => "Failed to send text"
  end.

Section Run.

Variable transport : nat -> string -> Content -> SendOutcome.

(** The guarded sends of a list of contents, one after the other, each
    handing on the transport id it got. *)
Fixpoint sendAll (jid : string) (dbMessageId : Z) (contents : list Content)
    (last : option string) : M (option string) :=
  match contents with
  | [] => ret last
  | c :: rest =>
      id <- guardedSend transport jid c dbMessageId (complaint c) ;;
      sendAll jid dbMessageId rest id
  end.

(** From its call number [n] on, the transport answers the first [k]
    calls for this content with the error 'Timed Out'. *)
Definition timesOut (jid : string) (c : Content) (n k : nat) : Prop :=
  forall i, (i < k)%nat -> transport (n + i)%nat jid c = Rejected "Timed Out".

(** [run jid n contents last n' r]: what the transport, from its call
    number [n] on, makes of contents sent one after the other, each send
    being given up to [MAX_RETRIES] retries after a timeout.  Each content
    that gets through (after [k <= 3] timeouts the transport resolves with a
    message id) passes that id on; the run ends with the id of the last one
    ([last] when nothing is sent).  It ends at the first content that does
    not get through: the transport rejects with another error, or times out
    a fourth time, or resolves with a message that has no key.  [n'] is the
    transport's call number after the run. *)
Inductive run (jid : string)
    : nat -> list Content -> option string -> nat -> Res (option string) -> Prop :=
  | run_done n last : run jid n [] last n (Ok last)
  | run_sent n c rest k id last n' r :
      (k <= MAX_RETRIES)%nat ->
      timesOut jid c n k ->
      transport (n + k)%nat jid c = Resolved (Some id) ->
      run jid (n + k + 1)%nat rest (Some id) n' r ->
      run jid n (c :: rest) last n' r
  | run_lost n c rest k e last :
      (k <= MAX_RETRIES)%nat ->
      timesOut jid c n k ->
      transport (n + k)%nat jid c = Rejected e ->
      k = MAX_RETRIES \/ e <> "Timed Out" ->
      run jid n (c :: rest) last (n + k + 1)%nat (Throw e)
  | run_no_key n c rest k last :
      (k <= MAX_RETRIES)%nat ->
      timesOut jid c n k ->
      transport (n + k)%nat jid c = Resolved None ->
      run jid n (c :: rest) last (n + k + 1)%nat
        (Throw "Cannot read properties of undefined (reading 'key')").

End Run.

End SendSpec.

(* ===================================================================== *)
(** ** Vocabulary for the timeline, and triples for the error monad *)
(* ===================================================================== *)

Module TimelineSpec.
Import Store Err.
Local Open Scope list_scope.

(** The timeline of [w'] is that of [w] with rows added at its end: no row
    of [w] is changed or removed. *)
Definition timeline_extended (w w' : World) : Prop :=
  exists added, report_time w' = report_time w ++ added.

(** The ledger row that a query by [id] finds carries no transport id. *)
Definition unstamped (id : Z) (w : World) : Prop :=
  exists row rest,
    filter (fun r => mm_id r = id) (media_messages w) = row :: rest
    /\ mm_whatsapp_message_id row = None.

(** The ledger rows with id [id] have a creation time ([created_at] is
    filled by [NOW()] on every insert). *)
Definition dated (id : Z) (w : World) : Prop :=
  forall row, row ∈ media_messages w -> mm_id row = id -> is_Some (mm_created_at row).

(** While the sends of a message are under way: the timeline is as it was
    in [w0] and the message's ledger row carries no transport id. *)
Definition pendingSend (w0 : World) (id : Z) (w : World) : Prop :=
  report_time w = report_time w0 /\ unstamped id w.

(** The four guarded assignments of the later updateStatus.js. *)
Definition fillAll (newStatus : string) (now : Z) (r : ReportTime) : ReportTime :=
  Timeline.fillOnce failed_time FAILED newStatus now
    (Timeline.fillOnce read_time READ newStatus now
       (Timeline.fillOnce delivered_time DELIVERED newStatus now
          (Timeline.fillOnce sent_time SENT newStatus now r))).

(** [triple P m Q E]: run from a world where [P] holds, [m] either returns
    a value [a] in a world where [Q a] holds or throws [e] in a world where
    [E e] holds. *)
Definition triple {A} (P : World -> Prop) (m : M A) (Q : A -> World -> Prop)
    (E : string -> World -> Prop) : Prop :=
  forall w, P w ->
    match m w with
    | (Ok a, w') => Q a w'
    | (Throw e, w') => E e w'
    end.

End TimelineSpec.

(* ===================================================================== *)
(** ** Vocabulary for the effect of a sweep on the ledger *)
(* ===================================================================== *)

Module SweepSpec.
Import Store LedgerSpec.
Local Open Scope list_scope.

(** How a sweep that dispatched the ids [D] relates a ledger row to what it
    is afterwards: only status and transport id can differ; a row whose id
    was dispatched is settled, and carries a transport id when it is sent;
    any other row is as it was. *)
Definition swept (D : list Z) (r r' : MediaMessage) : Prop :=
  (exists st wa, r' = with_status_and_wa st wa r)
  /\ (mm_id r ∈ D ->
      settled r'
      /\ (mm_message_status r' = SENT ->
          Js.truthy (mm_whatsapp_message_id r') = true))
  /\ (mm_id r ∉ D -> r' = r).

(** The same for the sweep of the earlier schedule.js, which writes the
    status only. *)
Definition legacy_swept (D : list Z) (r r' : MediaMessage) : Prop :=
  (exists st, r' = with_status st r)
  /\ (mm_id r ∈ D -> settled r')
  /\ (mm_id r ∉ D -> r' = r).

(** A transport that rejects every message. *)
Definition rejects : nat -> string -> Content -> Messages.SendOutcome :=
  fun _ _ _ => Messages.Rejected "Connection Closed".

End SweepSpec.

(* ===================================================================== *)
(** ** Vocabulary and example worlds for storing scheduled messages *)
(* ===================================================================== *)

Module ScheduleEntrySpec.
Import Store Err ScheduleEntry.
Local Open Scope list_scope.

(** The instant a call of [saveScheduledMessage] schedules for: the given
    time, or now plus the delay (4000 ms when there is none). *)
Definition scheduledFor (scheduleTime delayInMS : option Z) (w : World) : Z :=
  match scheduleTime with
  | Some t => t
  | None => clock w + default 4000 delayInMS
  end.

(** [Array.isArray(phoneNumbers) ? phoneNumbers : [phoneNumbers]]. *)
Definition recipientsOf (p : Messages.PhoneArg) : list string :=
  match p with Messages.Many l => l | Messages.One n => [n] end.

(** The registry entry [instanceId] names is connected, the instance is in
    the [instances] table, and a given schedule time is in the future. *)
Definition ready (registered : string -> bool) (instanceId : option string)
    (scheduleTime : option Z) (w : World) : Prop :=
  exists id entry,
    instanceId = Some id /\ id <> ""%string
    /\ instances w !! id = Some entry
    /\ inst_status entry = Some "connected"%string
    /\ registered id = true
    /\ forall t, scheduleTime = Some t -> clock w < t.

(** Every tenant is in the [instances] table. *)
Definition all_registered : string -> bool := fun _ => true.

(** Tenant ["t1"] is connected; the ledger is empty; the clock reads
    5000. *)
Definition connected_world : World :=
  mkWorld [] 1 [] [] []
    {[ "t1"%string := mkInstance (Some (mkSock 1 (Some (mkUser (Some "me"%string)))))
                        None (Some "connected"%string) (Some 0) ]}
    [] 5000 0 [] [].

End ScheduleEntrySpec.

(* ===================================================================== *)
(** ** Vocabulary and example hosts for the QR and reset endpoints *)
(* ===================================================================== *)

Module EndpointsSpec.
Import Store Err QrCode Endpoints.
Local Open Scope list_scope.

(** What the result of an attempt makes [generateQRCode] answer, if
    anything: an attempt that throws, or resolves with neither [connected]
    nor a QR code, has failed. *)
Definition answer (r : Res ConnectResult) : option QrResponse :=
  match r with
  | Ok NowConnected => Some IsAuthenticated
  | Ok (GotQrCode url) => if Js.truthy (Some url) then Some (QrCode url) else None
  | Throw _ => None
  end.

(** The pauses after [k] failed attempts (none after the third). *)
Definition pauses (k : nat) : Z :=
  match k with
  | O => 0
  | 1%nat => 6000
  | _ => 15000
  end.



(** A host on which every call succeeds. *)
Definition obliging : nat -> SockCall -> Res unit := fun _ _ => Ok tt.
Definition removable : string -> Res unit := fun _ => Ok tt.

(** A supervisor whose first call times out and whose later calls yield a
    QR code, leaving the registry as it finds it. *)
Definition second_time_lucky
    : nat -> string -> gmap string Instance -> Res ConnectResult * gmap string Instance :=
  fun n _ registry =>
    (if Nat.eqb n 0 then Throw "Connection timeout"%string
     else Ok (GotQrCode "data:image/png;base64,QR"%string), registry).

(** Tenant ["t1"] is reconnecting through socket 7; its auth folder is on
    disk. *)
Definition reconnecting_host : Host :=
  mkHost
    (mkWorld [] 1 [] [] []
       {[ "t1"%string := mkInstance (Some (mkSock 7 None)) None
                           (Some "reconnecting"%string) (Some 0) ]}
       [] 5000 0 [] [])
    {[ "t1"%string ]} [] 0.

(** Tenant ["t1"] has an entry without a socket, as a close event leaves
    it when the entry was gone already. *)
Definition orphan_host : Host :=
  mkHost
    (mkWorld [] 1 [] [] []
       {[ "t1"%string := mkInstance None None (Some "reconnecting"%string) (Some 0) ]}
       [] 5000 0 [] [])
    {[ "t1"%string ]} [] 0.

End EndpointsSpec.

(* ===================================================================== *)
(** ** Vocabulary for tenant isolation in the receipt handler *)
(* ===================================================================== *)

Module IsolationSpec.
Import Store.
Local Open Scope list_scope.

(** What a batch of events received for tenant [inst] may do to a ledger
    row: change its status, and only if the row is the tenant's. *)
Definition own_status_only (inst : string) (r r' : MediaMessage) : Prop :=
  (exists st, r' = with_status st r)
  /\ (mm_instance_id r <> Some inst -> r' = r).

(** Two tenants with one delivered message each, under the same transport
    id. *)
Definition two_tenants : World :=
  mkWorld
    [mkMediaMessage 1 (Some "t1"%string) "911" (Some "a"%string) None None None
       DELIVERED (Some "WA1"%string) (Some 1000);
     mkMediaMessage 2 (Some "t2"%string) "912" (Some "b"%string) None None None
       DELIVERED (Some "WA1"%string) (Some 1000)]
    3 [] [] [] ∅ [] 5000 0 [] [].

End IsolationSpec.

(* ===================================================================== *)
(** ** Vocabulary for the subscription the quota gate picks *)
(* ===================================================================== *)

Module QuotaSpec.
Import Store Messages.
Local Open Scope list_scope.

(** A subscription of the tenant that has not expired today. *)
Definition eligible (instanceId : string) (w : World) (s : Subscription) : Prop :=
  sub_instance_id s = instanceId
  /\ exists e, sub_date_expiry s = Some e /\ curdate w <= e.

(** [a] does not come after [b] in [ORDER BY created_at DESC, id DESC]. *)
Definition notAfter (a b : Subscription) : Prop :=
  sub_created_at b < sub_created_at a
  \/ (sub_created_at b = sub_created_at a /\ sub_id b <= sub_id a).

(** Tenant ["t1"] has an expired subscription, two current ones and one
    without an expiry date; ["t2"] has a newer one. *)
Definition several_subscriptions : World :=
  mkWorld [] 1 [] []
    [mkSubscription 1 "t1" 10 1000 (Some (-86400000)) 9000;
     mkSubscription 2 "t1" 20 1000 (Some 864000000) 2000;
     mkSubscription 3 "t1" 30 1000 (Some 864000000) 3000;
     mkSubscription 4 "t1" 40 1000 None 8000;
     mkSubscription 5 "t2" 50 1000 (Some 864000000) 7000]
    ∅ [] 5000 0 [] [].

End QuotaSpec.

(* ===================================================================== *)
(** ** The registry lookup *)
(* ===================================================================== *)

Module RegistryProps.
Import Store.

(** The three outcomes of [instances[id]]. *)
Lemma registryLookup_own id registry entry :
  registry !! id = Some entry -> registryLookup id registry = Some entry.
Proof. unfold registryLookup. now intros ->. Qed.



(** A stored entry is found as it is; what is found without one has no
    property. *)
Lemma registryLookup_cases id registry :
  match registryLookup id registry with
  | Some found => registry !! id = Some found
                  \/ (registry !! id = None /\ Js.inheritedName id = true
                      /\ found = noProperties)
  | None => registry !! id = None /\ Js.inheritedName id = false
  end.
Proof.
  unfold registryLookup. destruct (registry !! id); [now left |].
  destruct (Js.inheritedName id); auto.
Qed.

End RegistryProps.

(* ===================================================================== *)
(** ** Properties of the receipt reconciliation handler *)
(* ===================================================================== *)

Module UpdateStatusProps.
Import Store UpdateStatus UpdateStatusSpec.

Lemma includes_spec x xs : Js.includes x xs = true <-> In x xs.
Proof.
  unfold Js.includes. rewrite existsb_exists. split.
  - intros (y & Hy & He). apply String.eqb_eq in He. now subst.
  - intros H. exists x. split; [done | apply String.eqb_refl].
Qed.

Lemma canonicalStatus_valid code :
  Js.includes (canonicalStatus code) MESSAGE_STATUS_values = true.
Proof.
  destruct code as [n | s |]; simpl; try reflexivity.
  - destruct n as [| p | p]; try reflexivity;
      repeat (match goal with
              | |- context [match ?q with _ => _ end] => destruct q
              end; try reflexivity).
  - destruct (String.eqb s "PENDING"); reflexivity.
Qed.

Lemma canonicalStatus_pending code :
  canonicalStatus code = PENDING <-> pendingCode code = true.
Proof.
  destruct code as [n | s |]; simpl.
  - destruct n as [| p | p]; try (split; discriminate);
      repeat (match goal with
              | |- context [match ?q with _ => _ end] => destruct q
              end; try (split; (reflexivity || discriminate))).
  - destruct (String.eqb s "PENDING"); split; (reflexivity || discriminate).
  - split; discriminate.
Qed.

Lemma status_of_update_status id id' st rows :
  mm_message_status <$> List.find (fun r => Z.eqb (mm_id r) id')
      (update_status id st rows)
  = if Z.eqb id' id
    then (fun _ => st) <$> List.find (fun r => Z.eqb (mm_id r) id') rows
    else mm_message_status <$> List.find (fun r => Z.eqb (mm_id r) id') rows.
Proof.
  induction rows as [| r rows IH]; simpl.
  - now destruct (Z.eqb id' id).
  - destruct (Z.eqb (mm_id r) id) eqn:E1.
    + apply Z.eqb_eq in E1. simpl. rewrite E1.
      destruct (Z.eqb id id') eqn:E2.
      * apply Z.eqb_eq in E2. subst id'. now rewrite Z.eqb_refl.
      * rewrite IH. reflexivity.
    + destruct (Z.eqb (mm_id r) id') eqn:E2.
      * apply Z.eqb_eq in E2. rewrite <- E2, E1. reflexivity.
      * apply IH.
Qed.

(** After [updateMessageStatusInDB id st], the message [id'] has status
    [st] (or ['sent'] for an invalid [st]) when [id' = id] and its old
    status otherwise. *)
Lemma status_of_updateMessageStatusInDB id id' st w :
  status_of id' (updateMessageStatusInDB id st w)
  = if Z.eqb id' id
    then (fun _ => if Js.includes st MESSAGE_STATUS_values then st else SENT)
           <$> status_of id' w
    else status_of id' w.
Proof.
  unfold updateMessageStatusInDB, status_of.
  destruct (Js.includes st MESSAGE_STATUS_values);
    destruct (Nat.ltb 0 _); simpl; rewrite status_of_update_status;
    destruct (Z.eqb id' id); try reflexivity;
    destruct (List.find _ (media_messages w)); reflexivity.
Qed.

Lemma durable_logw lvl msg w : durable (logw lvl msg w) = durable w.
Proof. reflexivity. Qed.

Lemma getDatabaseId_found inst mid w dbId :
  getDatabaseId inst mid w = (true, Some dbId) ->
  exists r, In r (media_messages w) /\ mm_id r = dbId.
Proof.
  unfold getDatabaseId.
  destruct (filter _ (media_messages w)) as [| r rs] eqn:E; [discriminate |].
  intros [= <-]. exists r. split; [| reflexivity].
  assert (r ∈ filter (fun r => mm_instance_id r = Some inst /\ is_Some mid
                               /\ mm_whatsapp_message_id r = mid)
                     (media_messages w)) as Hin by (rewrite E; left).
  apply list_elem_of_filter in Hin as [_ Hin]. now apply list_elem_of_In.
Qed.

Lemma status_of_is_Some id w :
  (exists r, In r (media_messages w) /\ mm_id r = id) -> is_Some (status_of id w).
Proof.
  intros (r & Hin & Hid). unfold status_of.
  destruct (List.find _ (media_messages w)) eqn:E; [eauto |].
  exfalso. eapply find_none in E; [| exact Hin]. simpl in E.
  rewrite Hid, Z.eqb_refl in E. discriminate.
Qed.

Lemma getDatabaseId_untracked inst mid w :
  (forall r, In r (media_messages w) ->
     ~ (mm_instance_id r = Some inst /\ mm_whatsapp_message_id r = Some mid)) ->
  getDatabaseId inst (Some mid) w = (false, None).
Proof.
  intros Hno. unfold getDatabaseId.
  destruct (filter _ (media_messages w)) as [| r rs] eqn:E; [reflexivity |].
  exfalso.
  assert (r ∈ filter (fun r => mm_instance_id r = Some inst /\ is_Some (Some mid)
                               /\ mm_whatsapp_message_id r = Some mid)
                     (media_messages w)) as Hin by (rewrite E; left).
  apply list_elem_of_filter in Hin as [(Hi & _ & Hm) Hin].
  apply list_elem_of_In in Hin. exact (Hno r Hin (conj Hi Hm)).
Qed.

Lemma getDatabaseId_shape inst mid w :
  (exists dbId, getDatabaseId inst mid w = (true, Some dbId))
  \/ getDatabaseId inst mid w = (false, None).
Proof.
  unfold getDatabaseId. destruct (filter _ (media_messages w)); eauto.
Qed.

(** The stored status a tracked event leaves behind is the one its code
    maps to, whatever was stored before. *)
Lemma onMessageUpdate_tracked inst key code w dbId :
  getDatabaseId inst (key_id key) w = (true, Some dbId) ->
  status_of dbId (onMessageUpdate inst (mkUpdate (Some key) (Some (Some code))) w)
  = Some (canonicalStatus code).
Proof.
  intros Hf. unfold onMessageUpdate. simpl. rewrite Hf.
  rewrite status_of_updateMessageStatusInDB, Z.eqb_refl, canonicalStatus_valid.
  destruct (status_of_is_Some dbId w (getDatabaseId_found _ _ _ _ Hf)) as [st ->].
  reflexivity.
Qed.

Lemma notPending_update id dbId st w :
  Js.includes st MESSAGE_STATUS_values = true -> st <> PENDING ->
  notPending id w -> notPending id (updateMessageStatusInDB dbId st w).
Proof.
  intros Hv Hp (st0 & Hs & Hn). unfold notPending.
  rewrite status_of_updateMessageStatusInDB, Hv, Hs. simpl.
  destruct (Z.eqb id dbId); eauto.
Qed.

Lemma notPending_onMessageUpdate inst u id w :
  (forall code, codeOf u = Some code -> pendingCode code = false) ->
  notPending id w -> notPending id (onMessageUpdate inst u w).
Proof.
  intros Hc Hn. unfold onMessageUpdate.
  destruct (upd_key u) as [key |]; [| exact Hn].
  destruct (upd_update u) as [[code |] |] eqn:Eu; try exact Hn.
  destruct (getDatabaseId_shape inst (key_id key) w) as [[dbId ->] | ->];
    [| exact Hn].
  apply notPending_update; [apply canonicalStatus_valid | | exact Hn].
  intros Hp. apply canonicalStatus_pending in Hp.
  rewrite (Hc code) in Hp; [discriminate |].
  unfold codeOf. now rewrite Eu.
Qed.

Lemma notPending_onReceipt inst u id w :
  notPending id w -> notPending id (onReceipt inst u w).
Proof.
  intros Hn. unfold onReceipt.
  destruct (rcp_key u) as [key |]; [| exact Hn].
  destruct (getDatabaseId_shape inst (key_id key) w) as [[dbId ->] | ->];
    [| exact Hn].
  destruct (rcp_receipt u) as [type |]; [| exact Hn].
  apply notPending_update; [| | exact Hn]; case_bool_decide; (reflexivity || discriminate).
Qed.

(** C3: the receipt handler maps code 1 and 'PENDING' to pending, 3 to
    delivered, 4 to read, -1 to failed and every other code (99 for one) to
    sent; an event for a tracked message stores that status; an event whose
    (tenant, transport id) matches no stored message is logged with a
    warning and dropped: the tables are unchanged and the loop goes on with
    the rest of the batch. *)
Theorem receipt_code_mapping_and_untracked_drop :
  (canonicalStatus (RNum 1) = PENDING /\ canonicalStatus (RStr "PENDING") = PENDING
   /\ canonicalStatus (RNum 3) = DELIVERED /\ canonicalStatus (RNum 4) = READ
   /\ canonicalStatus (RNum (-1)) = FAILED /\ canonicalStatus (RNum 99) = SENT)
  /\ (forall code,
        code <> RNum 1 -> code <> RStr "PENDING" -> code <> RNum 3 ->
        code <> RNum 4 -> code <> RNum (-1) ->
        canonicalStatus code = SENT)
  /\ (forall inst key code w dbId,
        getDatabaseId inst (key_id key) w = (true, Some dbId) ->
        status_of dbId
          (onMessageUpdate inst (mkUpdate (Some key) (Some (Some code))) w)
        = Some (canonicalStatus code))
  /\ (forall inst wa remote code rest w,
        (forall r, In r (media_messages w) ->
           ~ (mm_instance_id r = Some inst /\ mm_whatsapp_message_id r = Some wa)) ->
        let u := mkUpdate (Some (mkKey (Some wa) remote)) (Some (Some code)) in
        durable (onMessageUpdate inst u w) = durable w
        /\ log (onMessageUpdate inst u w)
           = (log w ++ [(Warn, "Message not found in database:")])%list
        /\ onMessagesUpdate inst (u :: rest) w
           = onMessagesUpdate inst rest
               (logw Warn "Message not found in database:" w)).
Proof.
  split; [repeat split |]. split; [| split].
  - intros code H1 HP H3 H4 HF.
    destruct code as [n | s |]; simpl; try reflexivity.
    + destruct n as [| p | p]; try reflexivity;
        repeat (match goal with
                | |- context [match ?q with _ => _ end] => destruct q
                end; try reflexivity; try congruence).
    + destruct (String.eqb s "PENDING") eqn:E; [| reflexivity].
      apply String.eqb_eq in E. congruence.
  - apply onMessageUpdate_tracked.
  - intros inst wa remote code rest w Hno u.
    assert (onMessageUpdate inst u w
            = logw Warn "Message not found in database:" w) as Hstep.
    { unfold u, onMessageUpdate. simpl.
      now rewrite (getDatabaseId_untracked inst wa w Hno). }
    unfold onMessagesUpdate. simpl. rewrite Hstep. repeat split.
Qed.

Lemma receipt_code_mapping_and_untracked_drop_witness :
  status_of 1 (onMessageUpdate "t1" (event "WA1" (RNum 99)) (one_message PENDING))
  = Some SENT
  /\ durable (onMessageUpdate "t1" (event "WA9" (RNum 3)) (one_message SENT))
     = durable (one_message SENT).
Proof.
  destruct receipt_code_mapping_and_untracked_drop as (_ & _ & Htracked & Hdrop).
  split.
  - apply (Htracked "t1" (mkKey (Some "WA1") None) (RNum 99) (one_message PENDING) 1).
    reflexivity.
  - apply (Hdrop "t1" "WA9" None (RNum 3) [] (one_message SENT)).
    intros r [<- | []] [_ H]. discriminate.
Defined.

(** C1, as the code has it: once a message's status is sent, delivered,
    read or failed, it is not moved back to pending by a messages.update
    batch in which no event carries status code 1 or 'PENDING', nor by any
    receipt.update batch. The handler has no ordering guard: every event for
    a tracked message overwrites the stored status with the one its code
    maps to, whatever was stored before. *)
Theorem status_kept_off_pending_without_pending_code
    (inst : string) (updates : list Update) (receipts : list ReceiptUpdate)
    (id : Z) (st : string) (w : World) :
  status_of id w = Some st -> st <> PENDING ->
  (forall u code, In u updates -> codeOf u = Some code -> pendingCode code = false) ->
  (exists st', status_of id (onMessagesUpdate inst updates w) = Some st'
               /\ st' <> PENDING)
  /\ (exists st', status_of id (onReceiptUpdate inst receipts w) = Some st'
                  /\ st' <> PENDING)
  /\ (forall key code dbId,
        getDatabaseId inst (key_id key) w = (true, Some dbId) ->
        status_of dbId
          (onMessageUpdate inst (mkUpdate (Some key) (Some (Some code))) w)
        = Some (canonicalStatus code)).
Proof.
  intros Hs Hn Hcodes.
  assert (notPending id w) as Hinv by (exists st; auto).
  split; [| split].
  - clear Hs Hn. unfold onMessagesUpdate.
    revert w Hinv. induction updates as [| u us IH]; intros w Hinv; [exact Hinv |].
    simpl. apply IH.
    + intros u' code Hin. apply Hcodes. now right.
    + apply notPending_onMessageUpdate; [| exact Hinv].
      intros code. apply Hcodes. now left.
  - clear Hs Hn Hcodes. unfold onReceiptUpdate.
    revert w Hinv. induction receipts as [| u us IH]; intros w Hinv; [exact Hinv |].
    simpl. apply IH. now apply notPending_onReceipt.
  - intros key code dbId. apply onMessageUpdate_tracked.
Qed.

Lemma status_kept_off_pending_without_pending_code_witness :
  (exists st', status_of 1 (onMessagesUpdate "t1"
                  [event "WA1" (RNum 3); event "WA1" (RNum 99)] (one_message READ))
               = Some st' /\ st' <> PENDING)
  /\ (exists st', status_of 1 (onReceiptUpdate "t1"
                     [mkReceiptUpdate (Some (mkKey (Some "WA1") None)) (Some (Some "read"))]
                     (one_message READ))
                  = Some st' /\ st' <> PENDING).
Proof.
  destruct (status_kept_off_pending_without_pending_code "t1"
              [event "WA1" (RNum 3); event "WA1" (RNum 99)]
              [mkReceiptUpdate (Some (mkKey (Some "WA1") None)) (Some (Some "read"))]
              1 READ (one_message READ)) as (Hupdates & Hreceipts & _).
  - reflexivity.
  - discriminate.
  - intros u code [<- | [<- | []]] [= <-]; reflexivity.
  - split; [exact Hupdates | exact Hreceipts].
Defined.

(** C1 fails as stated: a sent message is moved back to pending by an event
    with status code 1, and a failed message becomes delivered on code 3. *)
Lemma status_regresses_on_pending_code :
  status_of 1 (one_message SENT) = Some SENT
  /\ status_of 1 (onMessagesUpdate "t1" [event "WA1" (RNum 1)] (one_message SENT))
     = Some PENDING
  /\ status_of 1 (one_message FAILED) = Some FAILED
  /\ status_of 1 (onMessagesUpdate "t1" [event "WA1" (RNum 3)] (one_message FAILED))
     = Some DELIVERED.
Proof. repeat split. Qed.

End UpdateStatusProps.

(* ===================================================================== *)
(** ** Properties of the ledger functions of messages.js *)
(* ===================================================================== *)

Module MessagesProps.
Import Store Err Messages MessagesSpec SendSpec.
Local Open Scope list_scope.

(** *** Steps that only write to the log *)

Lemma only_logs_refl w : only_logs w w.
Proof. exists []. destruct w. unfold add_logs. simpl. now rewrite app_nil_r. Qed.

Lemma only_logs_logw lvl msg w : only_logs w (logw lvl msg w).
Proof. now exists [(lvl, msg)]. Qed.

Lemma only_logs_trans w1 w2 w3 : only_logs w1 w2 -> only_logs w2 w3 -> only_logs w1 w3.
Proof.
  intros [l1 ->] [l2 ->]. exists (l1 ++ l2). unfold add_logs. simpl.
  now rewrite app_assoc.
Qed.

Lemma only_logs_tables w w' :
  only_logs w w' ->
  media_messages w' = media_messages w /\ next_insert_id w' = next_insert_id w
  /\ report_time w' = report_time w /\ clock w' = clock w
  /\ sends w' = sends w /\ trace w' = trace w /\ phoneList w' = phoneList w.
Proof. intros [l ->]. repeat split. Qed.

Lemma replacePlaceholders_only_logs text phone inst w :
  only_logs w (snd (replacePlaceholders text phone inst w)).
Proof.
  unfold replacePlaceholders.
  destruct text as [txt |]; [| apply only_logs_refl].
  destruct inst as [inst |]; [| apply only_logs_refl].
  destruct (_ && _ && _)%bool; [| apply only_logs_refl].
  destruct (filter _ (phoneList w)); simpl;
    [apply only_logs_logw | apply only_logs_refl].
Qed.

Lemma formatScheduledAt_only_logs d w : only_logs w (snd (formatScheduledAt d w)).
Proof. destruct d; simpl; [apply only_logs_refl | apply only_logs_logw | apply only_logs_refl]. Qed.

(** Placeholders are filled from the recipient's row: a known column by
    its value, a NULL column by [null]; an unknown field and text that is
    not a placeholder stay as they are. *)
Example placeholders_filled :
  fst (replacePlaceholders (Some "Hi {{name}} of {{city}}, {{x}} {{{name}}")
         "+911 " (Some "t1") address_book)
  = Some "Hi Bob of null, {{x}} {Bob".
Proof. reflexivity. Qed.

Example placeholders_unknown_recipient :
  replacePlaceholders (Some "Hi {{name}}") "912" (Some "t1") address_book
  = (Some "Hi {{name}}", logw Warn "No data found for phone number" address_book).
Proof. reflexivity. Qed.

(** *** logMediaMessageToDB *)

Lemma processOne_fold inst msg cap numbers acc w :
  exists l w',
    fold_left (processOne inst msg cap) numbers (acc, w) = ((acc ++ l)%list, w')
    /\ length l = length numbers /\ only_logs w w'.
Proof.
  revert acc w. induction numbers as [| n ns IH]; intros acc w; simpl.
  - exists [], w. rewrite app_nil_r. auto using only_logs_refl.
  - destruct (replacePlaceholders msg n inst w) as [pm w1] eqn:E1.
    assert (only_logs w w1) as H1
      by (pose proof (replacePlaceholders_only_logs msg n inst w) as H;
          now rewrite E1 in H).
    destruct (if Js.truthy cap then replacePlaceholders cap n inst w1 else (None, w1))
      as [pc w2] eqn:E2.
    assert (only_logs w1 w2) as H2.
    { destruct (Js.truthy cap).
      - pose proof (replacePlaceholders_only_logs cap n inst w1) as H.
        now rewrite E2 in H.
      - injection E2 as _ <-. apply only_logs_refl. }
    destruct (IH (acc ++ [(n, pm, pc)])%list w2) as (l & w' & Hf & Hl & Ho).
    exists ((n, pm, pc) :: l), w'. rewrite Hf. simpl.
    rewrite <- app_assoc. simpl. repeat split; [now rewrite Hl |].
    eauto using only_logs_trans.
Qed.

Lemma insertOne_fold inst media sched st wa ps ids w :
  exists ids' w',
    fold_left (insertOne inst media sched st wa) ps (ids, w) = ((ids ++ ids')%list, w')
    /\ length ids' = length ps /\ appended (length ps) st w w'.
Proof.
  revert ids w. induction ps as [| [[n pm] pc] ps IH]; intros ids w; simpl.
  - exists [], w. rewrite app_nil_r. repeat split.
    exists []. rewrite app_nil_r. repeat split. constructor.
  - destruct (formatScheduledAt sched w) as [s w1] eqn:E1.
    assert (only_logs w w1) as H1
      by (pose proof (formatScheduledAt_only_logs sched w) as H; now rewrite E1 in H).
    apply only_logs_tables in H1 as (Hm & _).
    unfold insert_message.
    match goal with
    | |- context [fold_left _ ps (?i, ?w2)] =>
        destruct (IH i w2) as (ids' & w' & Hf & Hl & (added & Ha & Hn & Hall))
    end.
    eexists (_ :: ids'), w'. rewrite Hf. rewrite <- app_assoc. simpl.
    repeat split; [now rewrite Hl |].
    simpl in Ha. rewrite Hm in Ha. rewrite <- app_assoc in Ha. simpl in Ha.
    eexists (_ :: added). split; [exact Ha |]. split; [simpl; now rewrite Hn |].
    constructor; [reflexivity | exact Hall].
Qed.

Lemma logMediaMessageToDB_appends inst numbers msg media cap sched status wa w :
  exists r w',
    logMediaMessageToDB inst numbers msg media cap sched status wa w = (Ok r, w')
    /\ appended (length (numbersOf numbers)) (validated status) w w'.
Proof.
  unfold logMediaMessageToDB. fold (validated status). fold (numbersOf numbers).
  destruct (processOne_fold inst msg cap (numbersOf numbers) [] w)
    as (l & w1 & -> & Hl & Ho).
  simpl.
  destruct (insertOne_fold inst media sched (validated status) wa l [] w1)
    as (ids & w2 & -> & Hi & Ha).
  simpl. rewrite Hl in Ha.
  apply only_logs_tables in Ho as (Hm & _).
  destruct Ha as (added & Ha & Hn & Hall). rewrite Hm in Ha.
  assert (appended (length (numbersOf numbers)) (validated status) w w2)
    by (exists added; auto).
  destruct ids as [| id [| id' ids]]; eauto.
Qed.

Lemma legacy_logMediaMessageToDB_appends inst numbers msg media cap sched status wa w :
  exists id w',
    MessagesLegacy.logMediaMessageToDB inst numbers msg media cap sched status wa w
    = (Ok id, w')
    /\ appended 1 (validated status) w w'.
Proof.
  unfold MessagesLegacy.logMediaMessageToDB. fold (validated status).
  destruct (formatScheduledAt sched w) as [s w1] eqn:E1.
  assert (only_logs w w1) as H1
    by (pose proof (formatScheduledAt_only_logs sched w) as H; now rewrite E1 in H).
  apply only_logs_tables in H1 as (Hm & _).
  unfold insert_message. do 2 eexists. split; [reflexivity |].
  eexists [_]. simpl. rewrite Hm. repeat split. constructor; [reflexivity | constructor].
Qed.

(** C9: a [messageStatus] outside sent, delivered, read, failed and pending
    (or none at all) does not make [logMediaMessageToDB] refuse the write:
    the call returns, and each row it inserts, one per phone number (one in
    all in the earlier version), carries the status ['sent']. *)
Theorem logMediaMessageToDB_coerces_unknown_status
    (instanceId : option string) (phoneNumbers : PhoneArg)
    (message media caption : option string) (scheduleTime : DateArg)
    (messageStatus whatsappMessageId : option string) (w : World) :
  (forall s, messageStatus = Some s -> ~ In s [SENT; DELIVERED; READ; FAILED; PENDING]) ->
  (exists r w',
     logMediaMessageToDB instanceId phoneNumbers message media caption scheduleTime
       messageStatus whatsappMessageId w = (Ok r, w')
     /\ appended (length (numbersOf phoneNumbers)) SENT w w')
  /\ (exists id w',
        MessagesLegacy.logMediaMessageToDB instanceId phoneNumbers message media
          caption scheduleTime messageStatus whatsappMessageId w = (Ok id, w')
        /\ appended 1 SENT w w').
Proof.
  intros Hbad.
  assert (validated messageStatus = SENT) as Hv.
  { unfold validated. destruct messageStatus as [s |]; [| reflexivity].
    destruct (Js.includes s validMessageStatus) eqn:E; [| reflexivity].
    apply UpdateStatusProps.includes_spec in E. exfalso. exact (Hbad s eq_refl E). }
  rewrite <- Hv. split.
  - apply logMediaMessageToDB_appends.
  - apply legacy_logMediaMessageToDB_appends.
Qed.

Lemma logMediaMessageToDB_coerces_unknown_status_witness :
  (exists r w',
     logMediaMessageToDB (Some "t1") (Many ["911"; "912"]) (Some "hi") None None NoDate
       (Some "queued") None empty_world = (Ok r, w')
     /\ appended 2 SENT empty_world w')
  /\ (exists id w',
        MessagesLegacy.logMediaMessageToDB (Some "t1") (Many ["911"; "912"]) (Some "hi")
          None None NoDate (Some "queued") None empty_world = (Ok id, w')
        /\ appended 1 SENT empty_world w').
Proof.
  apply (logMediaMessageToDB_coerces_unknown_status (Some "t1") (Many ["911"; "912"])
           (Some "hi") None None NoDate (Some "queued") None empty_world).
  intros s [= <-] Hin. simpl in Hin.
  repeat (destruct Hin as [Hin | Hin]; [discriminate Hin |]). exact Hin.
Defined.

(** *** The delivery timeline *)

Lemma get_set_time_ne f g v r : f <> g -> get_time f (set_time g v r) = get_time f r.
Proof. intros H. destruct f, g; try reflexivity; congruence. Qed.

Lemma get_set_time_eq f v r : get_time f (set_time f v r) = v.
Proof. destruct f; reflexivity. Qed.

Lemma set_time_key f v r :
  rt_whatsapp_message_id (set_time f v r) = rt_whatsapp_message_id r.
Proof. reflexivity. Qed.

Lemma find_map_same_key (h : ReportTime -> ReportTime) wa rows :
  (forall r, rt_whatsapp_message_id (h r) = rt_whatsapp_message_id r) ->
  List.find (fun r => String.eqb (rt_whatsapp_message_id r) wa) (map h rows)
  = h <$> List.find (fun r => String.eqb (rt_whatsapp_message_id r) wa) rows.
Proof.
  intros Hk. induction rows as [| r rows IH]; [reflexivity |].
  simpl. rewrite Hk. destruct (String.eqb _ wa); [reflexivity | exact IH].
Qed.

Lemma find_app_found {A} (p : A -> bool) l l' x :
  List.find p l = Some x -> List.find p (l ++ l') = Some x.
Proof.
  induction l as [| a l IH]; [discriminate |]. simpl.
  destruct (p a); [auto | exact IH].
Qed.

Lemma fillOnce_key f s ns now r :
  rt_whatsapp_message_id (Timeline.fillOnce f s ns now r) = rt_whatsapp_message_id r.
Proof. unfold Timeline.fillOnce. now destruct (_ && _)%bool. Qed.

Lemma fillOnce_keeps f g s ns now r t :
  get_time f r = Some t -> get_time f (Timeline.fillOnce g s ns now r) = Some t.
Proof.
  intros H. unfold Timeline.fillOnce.
  destruct (String.eqb ns s); simpl; [| exact H].
  case_bool_decide as Hg; simpl; [exact H |].
  rewrite get_set_time_ne; [exact H |].
  intros ->. apply Hg. rewrite H. eauto.
Qed.

Lemma guarded_upsert_keeps inst recipient wa0 created ns now rows wa f t :
  get_time f <$> List.find (fun r => String.eqb (rt_whatsapp_message_id r) wa) rows
  = Some (Some t) ->
  get_time f <$> List.find (fun r => String.eqb (rt_whatsapp_message_id r) wa)
                   (Timeline.upsert_report inst recipient wa0 created ns now rows)
  = Some (Some t).
Proof.
  intros H. unfold Timeline.upsert_report.
  destruct (existsb _ rows).
  - rewrite find_map_same_key.
    + destruct (List.find _ rows) as [r |]; [| discriminate]. simpl in *.
      injection H as H. f_equal.
      destruct (String.eqb (rt_whatsapp_message_id r) wa0); [| exact H].
      now do 4 apply fillOnce_keeps.
    + intros r. destruct (String.eqb _ wa0); [| reflexivity].
      now rewrite !fillOnce_key.
  - destruct (List.find _ rows) as [r |] eqn:E; [| discriminate].
    now rewrite (find_app_found _ _ _ _ E).
Qed.

(** X1: the guarded upsert of the later updateStatus.js is write-once: a
    timestamp that is set is still there, unchanged, after any further
    status update, whatever the update returns. *)
Lemma guarded_timeline_write_once id st w r w' wa f t :
  Timeline.updateMessageStatusInDB id st w = (r, w') ->
  stamp_of wa f w = Some (Some t) ->
  stamp_of wa f w' = Some (Some t).
Proof.
  unfold Timeline.updateMessageStatusInDB, stamp_of, timeline_of.
  intros Hrun H.
  destruct (Js.includes st UpdateStatus.MESSAGE_STATUS_values); simpl in Hrun;
    (destruct (filter _ _) as [| row rows];
     [ injection Hrun as _ <-; exact H |];
     destruct (mm_whatsapp_message_id row) as [wa0 |];
     [| injection Hrun as _ <-; exact H];
     destruct (_ && _)%bool; [| injection Hrun as _ <-; exact H];
     destruct (mm_instance_id row); injection Hrun as _ <-; simpl;
     [ now apply guarded_upsert_keeps | exact H ]).
Qed.

Lemma guarded_timeline_write_once_witness :
  stamp_of "WA1" sent_time (snd (Timeline.updateMessageStatusInDB 1 SENT replay_world))
  = Some (Some 1000).
Proof.
  apply (guarded_timeline_write_once 1 SENT replay_world
           (fst (Timeline.updateMessageStatusInDB 1 SENT replay_world))
           (snd (Timeline.updateMessageStatusInDB 1 SENT replay_world))
           "WA1" sent_time 1000).
  - reflexivity.
  - reflexivity.
Defined.

(** The two functions of messages.js do not guard the columns themselves:
    called with the status ['sent'] for a delivered message whose
    [sent_time] is 1000, [updateMessageStatusInDB] sets [sent_time] to the
    current time 5000; and called with a transport id that has a timeline
    row, [updateMessageWithWhatsAppId] replaces a [sent_time] of 5000 by
    the message's [created_at]. The send loop makes neither call: it
    passes ['failed'], for a row without a transport id, and an id the
    transport has just handed out. The guarded upsert of the later
    updateStatus.js leaves 1000 in place on the first input. *)
Example timeline_stamp_overwritten_on_replay :
  stamp_of "WA1" sent_time replay_world = Some (Some 1000)
  /\ stamp_of "WA1" sent_time (snd (updateMessageStatusInDB 1 SENT replay_world))
     = Some (Some 5000)
  /\ stamp_of "WA1" sent_time stamped_world = Some (Some 5000)
  /\ stamp_of "WA1" sent_time
       (snd (updateMessageWithWhatsAppId 1 (Some "WA1") stamped_world))
     = Some (Some 1000)
  /\ stamp_of "WA1" sent_time
       (snd (Timeline.updateMessageStatusInDB 1 SENT replay_world))
     = Some (Some 1000).
Proof. repeat split. Qed.

(** *** The quota gate *)

(** C4: for a batch of N >= 1 messages of a tenant with an active
    subscription, when the remaining quota (purchased minus the messages
    counted in the subscription window) is at most 0 or is less than N,
    [sendMedia] answers 400 with the quota error (limit reached, or the
    number that can still be sent) and leaves the world as it was: nothing
    is sent through the transport and no ledger row is written. *)
Theorem quota_gate_rejects_whole_batch
    (transport : nat -> string -> Content -> SendOutcome) (jitter : nat -> Z)
    (readMedia : string -> option string -> MediaOutcome)
    (instanceId : string) (sock : option Sock) (first : Message)
    (rest : list Message) (filePath : option string) (scheduleTime : DateArg)
    (w : World) (sub : Subscription) :
  activeSubscription instanceId w = Some sub ->
  messagesRemaining instanceId sub w <= 0
  \/ messagesRemaining instanceId sub w < Z.of_nat (length (first :: rest)) ->
  let '(response, w') :=
    sendMedia transport jitter readMedia instanceId sock (Some (first :: rest))
      filePath scheduleTime w in
  http_status response = 400 /\ success response = false
  /\ totalMessages response = None
  /\ (message response = LimitReached
      \/ message response = CanOnlySend (messagesRemaining instanceId sub w))
  /\ w' = w
  /\ trace w' = trace w /\ sends w' = sends w
  /\ media_messages w' = media_messages w /\ report_time w' = report_time w.
Proof.
  intros Hsub Hquota. unfold sendMedia. rewrite Hsub. cbv zeta.
  destruct (Z.leb (messagesRemaining instanceId sub w) 0) eqn:E0.
  - cbn [reject http_status success message totalMessages].
    repeat split. left. reflexivity.
  - destruct (Z.ltb (messagesRemaining instanceId sub w)
                (Z.of_nat (length (first :: rest)))) eqn:E1.
    + cbn [reject http_status success message totalMessages].
      repeat split. right. reflexivity.
    + exfalso. apply Z.leb_gt in E0. apply Z.ltb_ge in E1. lia.
Qed.

Lemma quota_gate_rejects_whole_batch_witness :
  let '(response, w') :=
    sendMedia (fun _ _ _ => Resolved (Some "WA")) (fun _ => 0)
      (fun _ _ => MediaRefused "unused") "t1" (Some (mkSock 1 (Some (mkUser (Some "me")))))
      (Some [mkMessage "913" (Some "c") None]) None NoDate spent_world in
  http_status response = 400 /\ success response = false
  /\ totalMessages response = None
  /\ (message response = LimitReached
      \/ message response = CanOnlySend (messagesRemaining "t1" the_subscription spent_world))
  /\ w' = spent_world
  /\ trace w' = trace spent_world /\ sends w' = sends spent_world
  /\ media_messages w' = media_messages spent_world
  /\ report_time w' = report_time spent_world.
Proof.
  apply (quota_gate_rejects_whole_batch (fun _ _ _ => Resolved (Some "WA")) (fun _ => 0)
           (fun _ _ => MediaRefused "unused") "t1"
           (Some (mkSock 1 (Some (mkUser (Some "me")))))
           (mkMessage "913" (Some "c") None) [] None NoDate spent_world
           the_subscription).
  - reflexivity.
  - left. vm_compute. discriminate.
Defined.

(** *** Rows of the ledger *)

Lemma filter_head_row id (l : list MediaMessage) :
  head (filter (fun r => mm_id r = id) l)
  = List.find (fun r => Z.eqb (mm_id r) id) l.
Proof.
  induction l as [| r l IH]; [reflexivity |].
  rewrite filter_cons. simpl. destruct (decide (mm_id r = id)) as [-> | Hne].
  - now rewrite Z.eqb_refl.
  - apply Z.eqb_neq in Hne. now rewrite Hne.
Qed.

Lemma filter_row_of id w r :
  row_of id w = Some r ->
  exists rest, filter (fun r => mm_id r = id) (media_messages w) = r :: rest.
Proof.
  unfold row_of. rewrite <- filter_head_row.
  destruct (filter _ (media_messages w)) as [| r' rest]; [discriminate |].
  intros [= ->]. eauto.
Qed.

Lemma matched_row_of id w r : row_of id w = Some r -> Nat.ltb 0 (matched id (media_messages w)) = true.
Proof.
  intros H. destruct (filter_row_of id w r H) as [rest Hf].
  unfold matched. now rewrite Hf.
Qed.

Lemma find_map_same_id (h : MediaMessage -> MediaMessage) id l :
  (forall r, mm_id (h r) = mm_id r) ->
  List.find (fun r => Z.eqb (mm_id r) id) (map h l)
  = h <$> List.find (fun r => Z.eqb (mm_id r) id) l.
Proof.
  intros Hk. induction l as [| r l IH]; [reflexivity |].
  simpl. rewrite Hk. destruct (Z.eqb (mm_id r) id); [reflexivity | exact IH].
Qed.

Lemma find_update_status id st l :
  List.find (fun r => Z.eqb (mm_id r) id) (update_status id st l)
  = with_status st <$> List.find (fun r => Z.eqb (mm_id r) id) l.
Proof.
  unfold update_status. rewrite find_map_same_id.
  - destruct (List.find _ l) as [r |] eqn:E; [| reflexivity].
    apply find_some in E as [_ E]. simpl. now rewrite E.
  - intros r. now destruct (Z.eqb (mm_id r) id).
Qed.

Lemma find_app_last {A} (p : A -> bool) l x :
  p x = true -> is_Some (List.find p (l ++ [x])).
Proof.
  intros H. induction l as [| a l IH]; simpl.
  - rewrite H. eauto.
  - destruct (p a); eauto.
Qed.

Lemma migrate_media_messages inst recipient wa st created w :
  media_messages (migrateMessageToReportTime inst recipient wa st created w)
  = media_messages w
  /\ next_insert_id (migrateMessageToReportTime inst recipient wa st created w)
     = next_insert_id w.
Proof.
  unfold migrateMessageToReportTime.
  destruct inst; [| now split]. destruct wa; [| now split].
  destruct (_ && _ && _)%bool; [| now split].
  destruct (filter _ _); [now split |].
  destruct (decide _); now split.
Qed.

(** Marking an existing row: the call returns and the row has the status. *)
Lemma updateMessageStatusInDB_marks id st w r :
  Js.includes st validMessageStatus = true ->
  row_of id w = Some r ->
  exists w',
    updateMessageStatusInDB id st w = (Ok tt, w')
    /\ row_of id w' = Some (with_status st r)
    /\ next_insert_id w' = next_insert_id w.
Proof.
  intros Hv Hr. unfold updateMessageStatusInDB. rewrite Hv. simpl.
  destruct (filter_row_of id w r Hr) as [rest ->].
  rewrite (matched_row_of id w r Hr).
  assert (forall w0, media_messages w0 = update_status id st (media_messages w) ->
                     row_of id w0 = Some (with_status st r)) as Hrow.
  { intros w0 Hm. unfold row_of in *. now rewrite Hm, find_update_status, Hr. }
  destruct (mm_whatsapp_message_id r) as [wa |];
    [| eexists; split; [reflexivity | split; [now apply Hrow | reflexivity]]].
  destruct (statusField st) as [field |];
    [| eexists; split; [reflexivity | split; [now apply Hrow | reflexivity]]].
  destruct (Js.truthy (Some wa)) eqn:Et; unfold Js.truthy in Et; rewrite Et;
    [| eexists; split; [reflexivity | split; [now apply Hrow | reflexivity]]].
  destruct (existsb _ _).
  - eexists; split; [reflexivity | split; [now apply Hrow | reflexivity]].
  - eexists; split; [reflexivity |].
    match goal with
    | |- context [migrateMessageToReportTime ?a ?b ?c ?d ?e ?w0] =>
        destruct (migrate_media_messages a b c d e w0) as [Hm Hn]
    end.
    split; [apply Hrow; now rewrite Hm | now rewrite Hn].
Qed.

(** Recording the transport id: the row becomes sent and carries the id. *)
Lemma updateMessageWithWhatsAppId_records id wa w r :
  id <> 0 -> Js.truthy wa = true -> row_of id w = Some r ->
  row_of id (snd (updateMessageWithWhatsAppId id wa w))
  = Some (with_status_and_wa SENT wa r).
Proof.
  intros Hid Hwa Hr. unfold updateMessageWithWhatsAppId.
  apply Z.eqb_neq in Hid. rewrite Hid, Hwa. simpl.
  destruct (filter_row_of id w r Hr) as [rest ->].
  rewrite (matched_row_of id w r Hr). simpl.
  match goal with
  | |- context [migrateMessageToReportTime ?a ?b ?c ?d ?e ?w0] =>
      destruct (migrate_media_messages a b c d e w0) as [Hm _]
  end.
  unfold row_of in *. rewrite Hm. simpl.
  rewrite find_map_same_id.
  - rewrite Hr. simpl. apply find_some in Hr as [_ E]. now rewrite E.
  - intros r0. now destruct (Z.eqb (mm_id r0) id).
Qed.

(** Without a transport id nothing is recorded: the tables stay as they
    are. *)
Lemma updateMessageWithWhatsAppId_skips id wa w :
  Js.truthy wa = false ->
  updateMessageWithWhatsAppId id wa w
  = (None, logw Error "Missing required parameters for updateMessageWithWhatsAppId" w).
Proof.
  intros Hwa. unfold updateMessageWithWhatsAppId. rewrite Hwa.
  now rewrite orb_true_r.
Qed.

(** The pending row of one recipient. *)
Lemma logMediaMessageToDB_single inst n msg media cap sched w :
  exists w' row,
    logMediaMessageToDB inst (Many [n]) msg media cap sched (Some PENDING) None w
    = (Ok (OneId (next_insert_id w)), w')
    /\ media_messages w' = media_messages w ++ [row]
    /\ mm_id row = next_insert_id w
    /\ mm_message_status row = PENDING
    /\ mm_whatsapp_message_id row = None
    /\ next_insert_id w' = next_insert_id w + 1
    /\ report_time w' = report_time w
    /\ sends w' = sends w /\ trace w' = trace w /\ clock w' = clock w.
Proof.
  unfold logMediaMessageToDB. simpl. unfold processOne.
  destruct (replacePlaceholders msg n inst w) as [pm w1] eqn:E1.
  assert (only_logs w w1) as H1
    by (pose proof (replacePlaceholders_only_logs msg n inst w) as H;
        now rewrite E1 in H).
  destruct (if Js.truthy cap then replacePlaceholders cap n inst w1 else (None, w1))
    as [pc w2] eqn:E2.
  assert (only_logs w1 w2) as H2.
  { destruct (Js.truthy cap).
    - pose proof (replacePlaceholders_only_logs cap n inst w1) as H.
      now rewrite E2 in H.
    - injection E2 as _ <-. apply only_logs_refl. }
  simpl. destruct (formatScheduledAt sched w2) as [sc w3] eqn:E3.
  assert (only_logs w2 w3) as H3
    by (pose proof (formatScheduledAt_only_logs sched w2) as H; now rewrite E3 in H).
  pose proof (only_logs_tables _ _ (only_logs_trans _ _ _ H1 (only_logs_trans _ _ _ H2 H3)))
    as (Hm & Hn & Hr & Hc & Hs & Ht & _).
  unfold insert_message. simpl. rewrite Hn, Hm.
  do 2 eexists. split; [reflexivity |]. simpl. repeat split; auto.
Qed.

(** *** Retrying a send *)

Lemma same_store_refl w : same_store w w.
Proof. repeat split. Qed.

Lemma same_store_trans w1 w2 w3 :
  same_store w1 w2 -> same_store w2 w3 -> same_store w1 w3.
Proof. unfold same_store. intros (-> & -> & -> & ->) (-> & -> & -> & ->). auto. Qed.

Lemma only_logs_same_store w w' : only_logs w w' -> same_store w w'.
Proof. intros [l ->]. repeat split. Qed.

Section PipelineProps.

Variable transport : nat -> string -> Content -> SendOutcome.
Variable jitter : nat -> Z.

Lemma sendWithRetry_left_spec left k jid c w :
  (k <= left)%nat ->
  (forall i, (i < k)%nat -> transport (sends w + i)%nat jid c = Rejected "Timed Out") ->
  (k = left \/ transport (sends w + k)%nat jid c <> Rejected "Timed Out") ->
  sendWithRetry_left transport left jid c w
  = (outcome_result (transport (sends w + k)%nat jid c), after_attempts k jid c w).
Proof.
  revert k w. induction left as [| left IH]; intros k w Hk Htimeouts Hlast.
  - assert (k = 0%nat) as -> by lia.
    simpl. unfold catch, sock_sendMessage, throw. rewrite Nat.add_0_r.
    assert (count_send (emit (EvSend jid c) w) = after_attempts 0 jid c w) as ->.
    { unfold after_attempts, count_send, emit. simpl. f_equal; lia. }
    now destruct (transport (sends w) jid c).
  - destruct k as [| k].
    + destruct Hlast as [Hlast | Hlast]; [discriminate |].
      rewrite Nat.add_0_r in *.
      simpl. unfold catch, sock_sendMessage, throw.
      assert (count_send (emit (EvSend jid c) w) = after_attempts 0 jid c w) as ->.
      { unfold after_attempts, count_send, emit. simpl. f_equal; lia. }
      destruct (transport (sends w) jid c) as [keyId | e]; [reflexivity |].
      destruct (String.eqb e "Timed Out") eqn:E; [| reflexivity].
      apply String.eqb_eq in E. congruence.
    + simpl. unfold catch at 1. unfold sock_sendMessage at 1.
      pose proof (Htimeouts 0%nat ltac:(lia)) as H0. rewrite Nat.add_0_r in H0.
      rewrite H0. simpl. unfold bind at 1. unfold lift at 1.
      set (w1 := sleep RETRY_DELAY (count_send (emit (EvSend jid c) w))).
      rewrite (IH k w1).
      * assert (sends w1 = S (sends w)) as Hs by reflexivity.
        rewrite Hs. replace (S (sends w) + k)%nat with (sends w + S k)%nat by lia.
        f_equal. unfold after_attempts, w1, sleep, count_send, emit. simpl.
        f_equal; try lia. now rewrite <- !app_assoc.
      * lia.
      * intros i Hi. replace (sends w1 + i)%nat with (sends w + S i)%nat
          by (unfold w1; simpl; lia).
        apply Htimeouts. lia.
      * destruct Hlast as [Hlast | Hlast]; [left; lia | right].
        replace (sends w1 + k)%nat with (sends w + S k)%nat
          by (unfold w1; simpl; lia).
        exact Hlast.
Qed.

Lemma sendWithRetry_left_same_store left jid c w :
  same_store w (snd (sendWithRetry_left transport left jid c w)).
Proof.
  revert w. induction left as [| left IH]; intros w; simpl;
    unfold catch, sock_sendMessage, throw;
    destruct (transport (sends w) jid c) as [keyId | e]; simpl;
    try (repeat split; fail).
  destruct (String.eqb e "Timed Out"); [| repeat split].
  unfold bind, lift.
  match goal with
  | |- same_store _ (snd (sendWithRetry_left _ _ _ _ ?w1)) =>
      eapply same_store_trans; [| apply (IH w1)]
  end.
  repeat split.
Qed.

Lemma row_of_same_store id w w' : same_store w w' -> row_of id w' = row_of id w.
Proof. intros (Hm & _). unfold row_of. now rewrite Hm. Qed.

Lemma sendWithRetry_same_store jid c n w :
  same_store w (snd (sendWithRetry transport jid c n w)).
Proof. apply sendWithRetry_left_same_store. Qed.

(** A guarded send either hands on the key id the transport returned, the
    ledger untouched, or throws after marking the row failed. *)
Lemma guardedSend_cases jid c dbId what w r0 res w' :
  row_of dbId w = Some r0 ->
  guardedSend transport jid c dbId what w = (res, w') ->
  next_insert_id w' = next_insert_id w
  /\ match res with
     | Ok wa =>
         row_of dbId w' = Some r0
         /\ sendWithRetry transport jid c 0 w = (Ok wa, w') /\ is_Some wa
     | Throw e =>
         row_of dbId w' = Some (with_status FAILED r0)
         /\ (fst (sendWithRetry transport jid c 0 w) = Throw e
             \/ fst (sendWithRetry transport jid c 0 w) = Ok None)
     end.
Proof.
  intros Hr Hrun. unfold guardedSend, catch, bind in Hrun.
  pose proof (sendWithRetry_same_store jid c 0 w) as Hsame.
  destruct (sendWithRetry transport jid c 0 w) as [r1 w1] eqn:E1. simpl in Hsame.
  pose proof (row_of_same_store dbId _ _ Hsame) as Hrow. rewrite Hr in Hrow.
  destruct Hsame as (_ & Hn & _).
  assert (forall e, (lift (logw Error what) ;;; updateMessageStatusInDB dbId FAILED ;;; throw e)%js w1
                    = (res, w') ->
                    next_insert_id w' = next_insert_id w
                    /\ res = Throw e /\ row_of dbId w' = Some (with_status FAILED r0))
    as Hhandler.
  { intros e He. unfold bind, lift, throw in He.
    destruct (updateMessageStatusInDB_marks dbId FAILED (logw Error what w1) r0
                eq_refl Hrow) as (w2 & Hu & Hrow2 & Hn2).
    rewrite Hu in He. injection He as <- <-. rewrite Hn2. simpl. auto. }
  destruct r1 as [[id |] | e]; simpl in Hrun.
  - unfold ret in Hrun. injection Hrun as <- <-. split; [exact Hn |]. eauto.
  - apply Hhandler in Hrun as (Hn' & -> & Hrow'). simpl. auto.
  - apply Hhandler in Hrun as (Hn' & -> & Hrow'). simpl. auto.
Qed.

(** The [try] block of the loop, by its outcome: if it throws, the message's
    ledger row is failed; if it ends with a transport id, the row is sent
    and carries that id. *)
Lemma processMessage_cases message mediaPayload instanceId filePath scheduleTime
    w res w' :
  processMessage transport jitter message mediaPayload instanceId filePath
    scheduleTime w = (res, w') ->
  let dbId := next_insert_id w in
  match res with
  | Throw e => status_of dbId w' = Some FAILED
  | Ok wa =>
      Js.truthy wa = true -> dbId <> 0 ->
      exists r, row_of dbId w' = Some r /\ mm_message_status r = SENT
                /\ mm_whatsapp_message_id r = wa
  end.
Proof.
  intros Hrun dbId. unfold processMessage in Hrun.
  unfold bind at 1 in Hrun. unfold liftv at 1 in Hrun.
  destruct (replacePlaceholders (text message) (number message) instanceId w)
    as [pt w1] eqn:E1.
  assert (only_logs w w1) as H1
    by (pose proof (replacePlaceholders_only_logs (text message) (number message)
                      instanceId w) as H; now rewrite E1 in H).
  unfold bind at 1 in Hrun. unfold liftv at 1 in Hrun.
  destruct (replacePlaceholders (caption message) (number message) instanceId w1)
    as [pc w2] eqn:E2.
  assert (only_logs w1 w2) as H2
    by (pose proof (replacePlaceholders_only_logs (caption message) (number message)
                      instanceId w1) as H; now rewrite E2 in H).
  pose proof (only_logs_tables _ _ (only_logs_trans _ _ _ H1 H2)) as (_ & Hn2 & _).
  unfold bind at 1 in Hrun.
  match type of Hrun with
  | context [logMediaMessageToDB ?a (Many [?n]) ?m ?md ?cp ?sc _ _ w2] =>
      destruct (logMediaMessageToDB_single a n m md cp sc w2)
        as (w3 & row & Hlog & Hm3 & Hid & _ & _ & Hn3 & _)
  end.
  rewrite Hlog in Hrun. simpl insertedId in Hrun. rewrite Hn2 in Hrun, Hid.
  fold dbId in Hrun, Hid.
  assert (is_Some (row_of dbId w3)) as [r0 Hr0].
  { unfold row_of. rewrite Hm3. apply find_app_last. rewrite Hid. apply Z.eqb_refl. }
  unfold bind at 1 in Hrun.
  (* the media send *)
  assert ((exists afterMedia w4 r4,
            (res, w') =
              (let k := fun whatsappMessageId w5 =>
                 (Ok whatsappMessageId,
                  snd (updateMessageWithWhatsAppId dbId whatsappMessageId
                         (sleep (getRandomDelay jitter w5) w5))) in
               if Js.truthy pt
               then match guardedSend transport (number message ++ "@s.whatsapp.net")%string
                            (CText pt) dbId "Failed to send text" w4 with
                    | (Ok wa, w5) => k wa w5
                    | (Throw e, w5) => (Throw e, w5)
                    end
               else k afterMedia w4)
            /\ row_of dbId w4 = Some r4)
          \/ exists e, res = Throw e /\ status_of dbId w' = Some FAILED) as Hmedia.
  { destruct mediaPayload as [payload |].
    - match type of Hrun with
      | context [guardedSend transport ?j ?c dbId ?wh w3] =>
          destruct (guardedSend transport j c dbId wh w3) as [[wa1 | e] w4] eqn:Eg;
          pose proof (guardedSend_cases j c dbId wh w3 r0 _ _ Hr0 Eg) as (_ & Hg)
      end.
      + destruct Hg as (Hr4 & _). left. exists wa1, w4, r0. split; [| exact Hr4].
        rewrite <- Hrun. unfold bind, lift, liftv, ret.
        destruct (Js.truthy pt); [| now destruct (updateMessageWithWhatsAppId _ _ _)].
        destruct (guardedSend _ _ _ _ _ w4) as [[wa2 | e2] w5]; [| reflexivity].
        now destruct (updateMessageWithWhatsAppId _ _ _).
      + destruct Hg as (Hr4 & _). right. exists e. injection Hrun as <- <-.
        split; [reflexivity |]. unfold status_of. fold (row_of dbId w4).
        now rewrite Hr4.
    - left. exists None, w3, r0. split; [| exact Hr0].
      rewrite <- Hrun. unfold ret at 1. unfold bind, lift, liftv, ret.
      destruct (Js.truthy pt); [| now destruct (updateMessageWithWhatsAppId _ _ _)].
      destruct (guardedSend _ _ _ _ _ w3) as [[wa2 | e2] w5]; [| reflexivity].
      now destruct (updateMessageWithWhatsAppId _ _ _). }
  clear Hrun.
  destruct Hmedia as [(afterMedia & w4 & r4 & Hrun & Hr4) | (e & -> & Hfailed)];
    [| exact Hfailed].
  assert (forall wa w5 r5, row_of dbId w5 = Some r5 ->
            (res, w') = (Ok wa, snd (updateMessageWithWhatsAppId dbId wa
                                       (sleep (getRandomDelay jitter w5) w5))) ->
            match res with
            | Throw e => status_of dbId w' = Some FAILED
            | Ok wa =>
                Js.truthy wa = true -> dbId <> 0 ->
                exists r, row_of dbId w' = Some r /\ mm_message_status r = SENT
                          /\ mm_whatsapp_message_id r = wa
            end) as Hfinal.
  { intros wa w5 r5 Hr5 [= -> ->] Et Hne.
    eexists. split.
    - apply (updateMessageWithWhatsAppId_records dbId wa _ r5 Hne Et). exact Hr5.
    - split; reflexivity. }
  cbv zeta in Hrun.
  destruct (Js.truthy pt).
  - match type of Hrun with
    | context [guardedSend transport ?j ?c dbId ?wh w4] =>
        destruct (guardedSend transport j c dbId wh w4) as [[wa2 | e] w5] eqn:Eg;
        pose proof (guardedSend_cases j c dbId wh w4 r4 _ _ Hr4 Eg) as (_ & Hg)
    end.
    + destruct Hg as (Hr5 & _). eapply Hfinal; eauto.
    + destruct Hg as (Hr5 & _). injection Hrun as -> ->.
      unfold status_of. fold (row_of dbId w5). now rewrite Hr5.
  - eapply Hfinal; eauto.
Qed.

(** *** From the transport to the result of the block *)

(** The placeholders are filled from [phoneList] only. *)
Lemma replacePlaceholders_fst text phone inst w w1 :
  phoneList w1 = phoneList w ->
  fst (replacePlaceholders text phone inst w1) = fst (replacePlaceholders text phone inst w).
Proof.
  intros Hp. unfold replacePlaceholders. rewrite Hp.
  destruct text as [txt |]; [| reflexivity].
  destruct inst as [inst |]; [| reflexivity].
  destruct (_ && _ && _)%bool; [| reflexivity].
  now destruct (filter _ (phoneList w)).
Qed.

Lemma migrate_sends inst recipient wa st created w :
  sends (migrateMessageToReportTime inst recipient wa st created w) = sends w.
Proof.
  unfold migrateMessageToReportTime.
  destruct inst, wa; try reflexivity.
  destruct (_ && _)%bool; [| reflexivity].
  destruct (filter _ _); [reflexivity |].
  now destruct (decide _).
Qed.

Lemma updateMessageStatusInDB_sends id st w :
  sends (snd (updateMessageStatusInDB id st w)) = sends w.
Proof.
  unfold updateMessageStatusInDB.
  destruct (negb _); [reflexivity |].
  destruct (filter _ _) as [| row rest]; [reflexivity |].
  destruct (Nat.ltb _ _); [| reflexivity].
  destruct (mm_whatsapp_message_id row) as [wa |]; [| reflexivity].
  destruct (statusField st); [| reflexivity].
  destruct (Js.truthy _); [| reflexivity].
  destruct (existsb _ _); [reflexivity |].
  cbn [snd]. now rewrite migrate_sends.
Qed.

Lemma updateMessageWithWhatsAppId_sends id wa w :
  sends (snd (updateMessageWithWhatsAppId id wa w)) = sends w.
Proof.
  unfold updateMessageWithWhatsAppId.
  destruct (_ || _)%bool; [reflexivity |].
  destruct (filter _ _) as [| row rest]; [reflexivity |].
  destruct (Nat.ltb _ _); [| reflexivity].
  cbn [snd]. now rewrite migrate_sends.
Qed.

(** A send that gets through after [k] timeouts. *)
Lemma guardedSend_sent jid c dbId what w k id :
  (k <= MAX_RETRIES)%nat ->
  timesOut transport jid c (sends w) k ->
  transport (sends w + k)%nat jid c = Resolved (Some id) ->
  guardedSend transport jid c dbId what w = (Ok (Some id), after_attempts k jid c w).
Proof.
  intros Hk Ht Hok. unfold guardedSend, catch, bind, sendWithRetry.
  rewrite (sendWithRetry_left_spec _ k) by (auto; right; rewrite Hok; discriminate).
  now rewrite Hok.
Qed.

(** A send that does not: the error is thrown on, after [k + 1] calls. *)
Lemma guardedSend_lost jid c dbId what w k :
  (k <= MAX_RETRIES)%nat ->
  timesOut transport jid c (sends w) k ->
  (k = MAX_RETRIES \/ transport (sends w + k)%nat jid c <> Rejected "Timed Out") ->
  forall e,
    (transport (sends w + k)%nat jid c = Rejected e
     \/ (transport (sends w + k)%nat jid c = Resolved None
         /\ e = "Cannot read properties of undefined (reading 'key')")) ->
    exists w', guardedSend transport jid c dbId what w = (Throw e, w')
               /\ sends w' = (sends w + k + 1)%nat.
Proof.
  intros Hk Ht Hlast e He. unfold guardedSend, catch, bind, sendWithRetry.
  rewrite (sendWithRetry_left_spec _ k) by auto.
  assert (forall w1, sends w1 = (sends w + k + 1)%nat ->
            exists w',
              (lift (logw Error what) ;;; updateMessageStatusInDB dbId FAILED ;;;
               (throw e : M (option string)))%js w1 = (Throw e, w')
              /\ sends w' = (sends w + k + 1)%nat) as Hhandler.
  { intros w1 Hs. unfold bind, lift, throw.
    pose proof (updateMessageStatusInDB_sends dbId FAILED (logw Error what w1)) as Hs2.
    assert (fst (updateMessageStatusInDB dbId FAILED (logw Error what w1)) = Ok tt) as Hok.
    { unfold updateMessageStatusInDB. simpl.
      destruct (filter _ _) as [| row rest]; [reflexivity |].
      destruct (Nat.ltb _ _); [| reflexivity].
      destruct (mm_whatsapp_message_id row) as [wa |]; [| reflexivity].
      simpl.
      repeat match goal with
             | |- context [if ?b then _ else _] => destruct b
             end; reflexivity. }
    destruct (updateMessageStatusInDB dbId FAILED (logw Error what w1)) as [r2 w2].
    simpl in Hok, Hs2. subst r2. eexists. split; [reflexivity |]. now rewrite Hs2. }
  destruct He as [He | [He ->]]; rewrite He; simpl; now apply Hhandler.
Qed.

(** The block is the insertion of the pending row followed by the guarded
    sends of its contents, the delay and the recording of the id. *)
Lemma processMessage_sendAll message mediaPayload instanceId filePath scheduleTime w :
  exists w3,
    sends w3 = sends w
    /\ report_time w3 = report_time w
    /\ (exists row, media_messages w3 = media_messages w ++ [row]
                    /\ mm_id row = next_insert_id w
                    /\ mm_whatsapp_message_id row = None)
    /\ processMessage transport jitter message mediaPayload instanceId filePath
         scheduleTime w
       = (whatsappMessageId <-
            sendAll transport (number message ++ "@s.whatsapp.net") (next_insert_id w)
              (contentsOf message mediaPayload instanceId w) None ;;
          randomDelay <- (fun w => (Ok (getRandomDelay jitter w), w)) ;;
          lift (sleep randomDelay) ;;;
          liftv (updateMessageWithWhatsAppId (next_insert_id w) whatsappMessageId) ;;;
          ret whatsappMessageId)%js w3.
Proof.
  unfold processMessage, contentsOf.
  unfold bind at 1. unfold liftv at 1.
  pose proof (replacePlaceholders_only_logs (text message) (number message)
                instanceId w) as H1.
  destruct (replacePlaceholders (text message) (number message) instanceId w)
    as [pt w1]. cbn [fst snd] in *.
  unfold bind at 1. unfold liftv at 1.
  pose proof (replacePlaceholders_only_logs (caption message) (number message)
                instanceId w1) as H2.
  pose proof (only_logs_tables _ _ H1) as (Hm1 & Hn1 & Hr1 & _ & Hs1 & _ & Hp1).
  rewrite <- (replacePlaceholders_fst (caption message) (number message) instanceId
                w w1 Hp1).
  destruct (replacePlaceholders (caption message) (number message) instanceId w1)
    as [pc w2]. cbn [fst snd] in *.
  pose proof (only_logs_tables _ _ H2) as (Hm2 & Hn2 & Hr2 & _ & Hs2 & _).
  unfold bind at 1.
  match goal with
  | |- context [logMediaMessageToDB ?a (Many [?n]) ?m ?md ?cp ?sc _ _ w2] =>
      destruct (logMediaMessageToDB_single a n m md cp sc w2)
        as (w3 & row & -> & Hm3 & Hid3 & _ & Hwa3 & _ & Hr3 & Hs3 & _)
  end.
  simpl insertedId. rewrite Hn2, Hn1.
  exists w3. split; [congruence |]. split; [congruence |].
  split; [exists row; repeat split; congruence |].
  destruct mediaPayload as [payload |]; destruct (Js.truthy pt); simpl;
    unfold bind, ret, withCaption;
    repeat match goal with
           | |- context [guardedSend transport ?j ?c ?d ?wh ?w0] =>
               destruct (guardedSend transport j c d wh w0) as [[? | ?] ?]
           end; reflexivity.
Qed.

(** The guarded sends follow the run of the transport. *)
Lemma sendAll_run jid dbId contents : forall n last n' r,
  run transport jid n contents last n' r ->
  forall w, sends w = n ->
    exists w', sendAll transport jid dbId contents last w = (r, w')
               /\ sends w' = n'.
Proof.
  induction 1 as [n last | n c rest k id last n' r Hk Ht Hok Hrun IH
                  | n c rest k e last Hk Ht Hrej Hlast
                  | n c rest k last Hk Ht Hnone]; intros w Hs; subst n.
  - exists w. split; reflexivity.
  - cbn [sendAll]. unfold bind at 1.
    rewrite (guardedSend_sent _ _ _ _ _ k id Hk Ht Hok).
    apply IH. simpl. lia.
  - cbn [sendAll]. unfold bind at 1.
    destruct (guardedSend_lost jid c dbId (complaint c) w k Hk Ht) with (e := e)
      as (w' & -> & Hs').
    + destruct Hlast as [-> | Hne]; [now left | right]. rewrite Hrej. congruence.
    + now left.
    + now exists w'.
  - cbn [sendAll]. unfold bind at 1.
    destruct (guardedSend_lost jid c dbId (complaint c) w k Hk Ht)
      with (e := "Cannot read properties of undefined (reading 'key')"%string)
      as (w' & -> & Hs').
    + right. rewrite Hnone. discriminate.
    + now right.
    + now exists w'.
Qed.

(** C6: a send is retried on the error 'Timed Out' only, at most
    [MAX_RETRIES] = 3 times, with a sleep of [RETRY_DELAY] = 3000 ms before
    each retry: when the first [k <= 3] attempts time out and the next one
    does not (or [k = 3]), exactly [k + 1] attempts are made and the outcome
    is that of the last one, so an error other than a timeout ([k = 0]) is
    not retried. When the send ends in an error the message's ledger row is
    marked failed and the error is thrown on; when it returns a transport
    message id the [try] block ends with the row sent and carrying that
    id. And the result of the block follows from what the transport does
    with the contents of the message (the media, then the text): when each
    gets through after at most three timeouts, the block returns the
    transport id of the last one, after exactly the calls of the run, and
    the row is sent with that id; when one of them is rejected with another
    error, or times out a fourth time, the block throws that error and the
    row is failed. *)
Theorem send_attempt_retries_then_marks_ledger :
  (forall jid c k w,
     (k <= MAX_RETRIES)%nat ->
     (forall i, (i < k)%nat ->
        transport (sends w + i)%nat jid c = Rejected "Timed Out") ->
     (k = MAX_RETRIES \/ transport (sends w + k)%nat jid c <> Rejected "Timed Out") ->
     sendWithRetry transport jid c 0 w
     = (outcome_result (transport (sends w + k)%nat jid c), after_attempts k jid c w))
  /\ (forall jid c dbId what w r0,
        row_of dbId w = Some r0 ->
        (forall e, fst (sendWithRetry transport jid c 0 w) = Throw e ->
           exists w', guardedSend transport jid c dbId what w = (Throw e, w')
                      /\ row_of dbId w' = Some (with_status FAILED r0))
        /\ (forall id w1, sendWithRetry transport jid c 0 w = (Ok (Some id), w1) ->
              guardedSend transport jid c dbId what w = (Ok (Some id), w1)))
  /\ (forall message mediaPayload instanceId filePath scheduleTime w res w',
        processMessage transport jitter message mediaPayload instanceId filePath
          scheduleTime w = (res, w') ->
        (forall e, res = Throw e -> status_of (next_insert_id w) w' = Some FAILED)
        /\ (forall id, res = Ok (Some id) -> id <> ""%string -> next_insert_id w <> 0 ->
              exists r, row_of (next_insert_id w) w' = Some r
                        /\ mm_message_status r = SENT
                        /\ mm_whatsapp_message_id r = Some id))
  /\ (forall message mediaPayload instanceId filePath scheduleTime w n' res,
        run transport (number message ++ "@s.whatsapp.net") (sends w)
          (contentsOf message mediaPayload instanceId w) None n' res ->
        exists w',
          processMessage transport jitter message mediaPayload instanceId filePath
            scheduleTime w = (res, w')
          /\ sends w' = n'
          /\ (forall e, res = Throw e ->
                status_of (next_insert_id w) w' = Some FAILED)
          /\ (forall id, res = Ok (Some id) -> id <> ""%string ->
                next_insert_id w <> 0 ->
                exists r, row_of (next_insert_id w) w' = Some r
                          /\ mm_message_status r = SENT
                          /\ mm_whatsapp_message_id r = Some id)).
Proof.
  assert (forall message mediaPayload instanceId filePath scheduleTime w res w',
            processMessage transport jitter message mediaPayload instanceId filePath
              scheduleTime w = (res, w') ->
            (forall e, res = Throw e -> status_of (next_insert_id w) w' = Some FAILED)
            /\ (forall id, res = Ok (Some id) -> id <> ""%string ->
                  next_insert_id w <> 0 ->
                  exists r, row_of (next_insert_id w) w' = Some r
                            /\ mm_message_status r = SENT
                            /\ mm_whatsapp_message_id r = Some id)) as Hledger.
  { intros message mediaPayload instanceId filePath scheduleTime w res w' Hrun.
    pose proof (processMessage_cases _ _ _ _ _ _ _ _ Hrun) as Hc. cbv zeta in Hc.
    split.
    + intros e ->. exact Hc.
    + intros id -> Hid Hn. apply Hc; [| exact Hn].
      simpl. destruct (String.eqb id "") eqn:E; [| reflexivity].
      apply String.eqb_eq in E. contradiction. }
  split; [| split; [| split; [exact Hledger |]]].
  - intros jid c k w Hk Ht Hl. unfold sendWithRetry.
    now apply sendWithRetry_left_spec.
  - intros jid c dbId what w r0 Hr. split.
    + intros e He.
      destruct (guardedSend transport jid c dbId what w) as [res w'] eqn:Eg.
      pose proof (guardedSend_cases jid c dbId what w r0 res w' Hr Eg) as (_ & Hg).
      destruct res as [wa | e'].
      * destruct Hg as (_ & Hs & _). rewrite Hs in He. discriminate.
      * destruct Hg as (Hrow & [Hs | Hs]); rewrite Hs in He; [| discriminate].
        injection He as ->. eauto.
    + intros id w1 Hs.
      destruct (guardedSend transport jid c dbId what w) as [res w'] eqn:Eg.
      pose proof (guardedSend_cases jid c dbId what w r0 res w' Hr Eg) as (_ & Hg).
      destruct res as [wa | e'].
      * destruct Hg as (_ & Hs' & _). rewrite Hs in Hs'. now injection Hs' as <- <-.
      * destruct Hg as (_ & [Hs' | Hs']); rewrite Hs in Hs'; discriminate.
  - intros message mediaPayload instanceId filePath scheduleTime w n' res Hrun.
    destruct (processMessage_sendAll message mediaPayload instanceId filePath
                scheduleTime w) as (w3 & Hs3 & _ & _ & Heq).
    destruct (sendAll_run _ (next_insert_id w) _ _ _ _ _ Hrun w3 Hs3)
      as (w4 & Hsend & Hs4).
    assert (exists w',
              processMessage transport jitter message mediaPayload instanceId filePath
                scheduleTime w = (res, w') /\ sends w' = n') as (w' & Hp & Hs').
    { rewrite Heq. unfold bind at 1. rewrite Hsend.
      destruct res as [wa | e]; [| now exists w4].
      unfold bind, lift, liftv, ret.
      pose proof (updateMessageWithWhatsAppId_sends (next_insert_id w) wa
                    (sleep (getRandomDelay jitter w4) w4)) as Hu.
      destruct (updateMessageWithWhatsAppId _ _ _) as [b w5].
      exists w5. split; [reflexivity |]. simpl in Hu. congruence. }
    exists w'. split; [exact Hp |]. split; [exact Hs' |].
    exact (Hledger _ _ _ _ _ _ _ _ Hp).
Qed.

(** X2: the counter and the loop: an iteration whose [try] block throws
    leaves the counter as it is and the loop goes on with the next message;
    one that runs to its end adds one. *)
Lemma sendMessagesOneAtATime_step mediaPayload sock instanceId filePath scheduleTime
    message rest w :
  connected sock = true ->
  sendMessagesOneAtATime transport jitter (message :: rest) mediaPayload sock
    instanceId filePath scheduleTime w
  = match processMessage transport jitter message mediaPayload instanceId filePath
            scheduleTime w with
    | (Ok _, w1) =>
        match sendMessagesOneAtATime transport jitter rest mediaPayload sock
                instanceId filePath scheduleTime w1 with
        | (Ok n, w') => (Ok (n + 1), w')
        | other => other
        end
    | (Throw _, w1) =>
        sendMessagesOneAtATime transport jitter rest mediaPayload sock instanceId
          filePath scheduleTime (logw Error "Error sending message" w1)
    end.
Proof.
  intros Hc. unfold sendMessagesOneAtATime. rewrite Hc. simpl.
  assert (forall n w0,
            fold_left (sendOne transport jitter mediaPayload instanceId filePath
                         scheduleTime) rest (n, w0)
            = let '(m, w') :=
                fold_left (sendOne transport jitter mediaPayload instanceId filePath
                             scheduleTime) rest (0, w0) in
              (m + n, w')) as Hshift.
  { induction rest as [| m ms IH]; intros n w0; simpl.
    - reflexivity.
    - destruct (processMessage transport jitter m mediaPayload instanceId filePath
                  scheduleTime w0) as [[wa | e] w1].
      + rewrite (IH (n + 1)), (IH (0 + 1)).
        destruct (fold_left _ ms (0, w1)) as [k w2]. f_equal; lia.
      + rewrite (IH n). reflexivity. }
  destruct (processMessage transport jitter message mediaPayload instanceId filePath
              scheduleTime w) as [[wa | e] w1].
  - rewrite (Hshift (0 + 1)).
    destruct (fold_left _ rest (0, w1)) as [k w2]. reflexivity.
  - reflexivity.
Qed.

End PipelineProps.

(** *** Scenarios *)

Lemma send_attempt_retries_then_marks_ledger_witness :
  sendWithRetry flaky "911@s.whatsapp.net" (CText (Some "hi")) 0 empty_world
  = (Ok (Some "WA7"),
     after_attempts 2 "911@s.whatsapp.net" (CText (Some "hi")) empty_world)
  /\ exists w',
       processMessage flaky no_jitter (mkMessage "911" (Some "hi") None) None
         (Some "t1") None NoDate empty_world = (Ok (Some "WA7"), w')
       /\ sends w' = 3%nat
       /\ exists r, row_of 1 w' = Some r /\ mm_message_status r = SENT
                    /\ mm_whatsapp_message_id r = Some "WA7".
Proof.
  destruct (send_attempt_retries_then_marks_ledger flaky no_jitter)
    as (Hretry & _ & _ & Hrun).
  assert (timesOut flaky "911@s.whatsapp.net" (CText (Some "hi")) 0 2) as Htwice
    by (intros i Hi; destruct i as [| [| i]]; [reflexivity | reflexivity | lia]).
  split.
  - apply (Hretry "911@s.whatsapp.net" (CText (Some "hi")) 2%nat empty_world).
    + unfold MAX_RETRIES. lia.
    + exact Htwice.
    + right. discriminate.
  - destruct (Hrun (mkMessage "911" (Some "hi") None) None (Some "t1") None NoDate
                empty_world 3%nat (Ok (Some "WA7")))
      as (w' & Hp & Hs & _ & Hsent).
    + apply (run_sent flaky _ 0 _ _ 2 "WA7" None 3 (Ok (Some "WA7")));
        [unfold MAX_RETRIES; lia | exact Htwice | reflexivity | apply run_done].
    + exists w'. split; [exact Hp |]. split; [exact Hs |].
      apply (Hsent "WA7" eq_refl); discriminate.
Defined.

Lemma sendMessagesOneAtATime_step_witness :
  sendMessagesOneAtATime (always (Rejected "Connection Closed")) no_jitter
    [mkMessage "911" (Some "hi") None; mkMessage "912" (Some "ho") None] None me
    (Some "t1") None NoDate empty_world
  = match processMessage (always (Rejected "Connection Closed")) no_jitter
            (mkMessage "911" (Some "hi") None) None (Some "t1") None NoDate
            empty_world with
    | (Ok _, w1) =>
        match sendMessagesOneAtATime (always (Rejected "Connection Closed")) no_jitter
                [mkMessage "912" (Some "ho") None] None me (Some "t1") None NoDate w1 with
        | (Ok n, w') => (Ok (n + 1), w')
        | other => other
        end
    | (Throw _, w1) =>
        sendMessagesOneAtATime (always (Rejected "Connection Closed")) no_jitter
          [mkMessage "912" (Some "ho") None] None me (Some "t1") None NoDate
          (logw Error "Error sending message" w1)
    end.
Proof.
  apply (sendMessagesOneAtATime_step (always (Rejected "Connection Closed")) no_jitter
           None me (Some "t1") None NoDate).
  reflexivity.
Defined.

(** Scenario B: two timeouts, then success: one ledger row, sent, with
    the transport id; one timeline row; three calls of the transport. *)
Example timeout_twice_then_sent :
  let '(res, w') :=
    sendMessagesOneAtATime flaky no_jitter [mkMessage "911" (Some "hi") None] None me
      (Some "t1") None NoDate empty_world in
  res = Ok 1
  /\ (mm_message_status <$> media_messages w') = [SENT]
  /\ (mm_whatsapp_message_id <$> media_messages w') = [Some "WA7"]
  /\ length (report_time w') = 1%nat
  /\ sends w' = 3%nat
  /\ clock w' = clock empty_world + 3000 + 3000 + 2000.
Proof. vm_compute. repeat split. Qed.

(** Four timeouts: three retries, then the row is failed and the
    message is not counted. *)
Example timeouts_exhausted_then_failed :
  let '(res, w') :=
    sendMessagesOneAtATime (always (Rejected "Timed Out")) no_jitter
      [mkMessage "911" (Some "hi") None] None me (Some "t1") None NoDate empty_world in
  res = Ok 0
  /\ (mm_message_status <$> media_messages w') = [FAILED]
  /\ sends w' = 4%nat
  /\ clock w' = clock empty_world + 3 * 3000.
Proof. vm_compute. repeat split. Qed.

(** Another error: no retry, the row is failed. *)
Example other_error_not_retried :
  let '(res, w') :=
    sendMessagesOneAtATime (always (Rejected "Connection Closed")) no_jitter
      [mkMessage "911" (Some "hi") None] None me (Some "t1") None NoDate empty_world in
  res = Ok 0
  /\ (mm_message_status <$> media_messages w') = [FAILED]
  /\ sends w' = 1%nat
  /\ clock w' = clock empty_world.
Proof. vm_compute. repeat split. Qed.

(** An error on one message does not stop the batch: the first message
    fails, the second is sent and counted. *)
Example batch_goes_on_after_an_error :
  let '(res, w') :=
    sendMessagesOneAtATime
      (fun n _ _ => if Nat.eqb n 0 then Rejected "Connection Closed"
                    else Resolved (Some "WA8"))
      no_jitter
      [mkMessage "911" (Some "hi") None; mkMessage "912" (Some "ho") None] None me
      (Some "t1") None NoDate empty_world in
  res = Ok 1
  /\ (mm_message_status <$> media_messages w') = [FAILED; SENT].
Proof. vm_compute. repeat split. Qed.

(** C5 at the failing input: a batch of one message with neither text nor
    media. Whatever the transport does, the loop counts the message (the
    call returns 1) although nothing was handed to the transport and the
    message's ledger row is still pending. *)
Theorem count_includes_message_never_sent
    (transport : nat -> string -> Content -> SendOutcome) (jitter : nat -> Z) :
  exists w',
    sendMessagesOneAtATime transport jitter [mkMessage "911" None None] None me
      (Some "t1") None NoDate empty_world = (Ok 1, w')
    /\ (mm_message_status <$> media_messages w') = [PENDING]
    /\ status_of 1 w' = Some PENDING
    /\ sends w' = 0%nat
    /\ (forall jid c, ~ In (EvSend jid c) (trace w')).
Proof.
  eexists. split; [reflexivity |]. repeat split.
  intros jid c [H | []]. discriminate.
Qed.

End MessagesProps.

(* ===================================================================== *)
(** ** Properties of the scheduler sweep *)
(* ===================================================================== *)

Module ScheduleProps.
Import Store Err Schedule ScheduleSpec.
Local Open Scope list_scope.

#[local] Instance earlier_trans : Transitive earlier.
Proof. unfold earlier. intros a b c. lia. Qed.

#[local] Instance earlier_total : Total earlier.
Proof. unfold earlier. intros a b. lia. Qed.

(** *** The page *)

Lemma due_spec now r :
  due now r = true <->
  mm_message_status r = PENDING /\ exists t, mm_schedule_time r = Some t /\ t <= now.
Proof.
  unfold due. rewrite andb_true_iff, String.eqb_eq.
  destruct (mm_schedule_time r) as [t |].
  - rewrite Z.leb_le. split; [intros [H1 H2]; eauto | intros [H1 (t' & [= <-] & H2)]; auto].
  - split; [intros [_ H]; discriminate | intros [_ (t & H & _)]; discriminate].
Qed.

Lemma sorted_due_elem now rows r :
  r ∈ merge_sort earlier (List.filter (due now) rows) <-> r ∈ rows /\ due now r = true.
Proof.
  rewrite merge_sort_Permutation, !list_elem_of_In. apply filter_In.
Qed.

Lemma selectDue_subset limit w r :
  r ∈ selectDue limit w -> r ∈ media_messages w /\ due (clock w) r = true.
Proof.
  unfold selectDue. intros H. apply sorted_due_elem.
  rewrite <- (take_drop limit (merge_sort _ _)). apply elem_of_app. now left.
Qed.

Lemma selectDue_sorted limit w : StronglySorted earlier (selectDue limit w).
Proof.
  unfold selectDue.
  pose proof (StronglySorted_merge_sort earlier
                (List.filter (due (clock w)) (media_messages w))) as H.
  rewrite <- (take_drop limit (merge_sort _ _)) in H.
  now apply StronglySorted_app_1_l in H.
Qed.

(** A due message scheduled strictly before a message of the page is in the
    page too, ahead of it. *)
Lemma selectDue_earlier_first limit w m1 m2 :
  m1 ∈ media_messages w -> due (clock w) m1 = true ->
  m2 ∈ selectDue limit w -> scheduled m1 < scheduled m2 ->
  exists p1 p2 p3, selectDue limit w = p1 ++ m1 :: p2 ++ m2 :: p3.
Proof.
  intros Hin1 Hdue1 Hin2 Hlt. unfold selectDue in *.
  set (S := merge_sort earlier (List.filter (due (clock w)) (media_messages w))) in *.
  assert (m1 ∈ S) as HS1 by (apply sorted_due_elem; auto).
  assert (StronglySorted earlier S) as Hsorted
    by (apply StronglySorted_merge_sort; apply _).
  destruct (list_elem_of_split _ _ Hin2) as (a & b & Hsplit).
  rewrite <- (take_drop limit S), Hsplit in HS1, Hsorted.
  rewrite <- app_assoc in HS1, Hsorted. simpl in HS1, Hsorted.
  apply elem_of_app in HS1 as [Ha | Hb].
  - destruct (list_elem_of_split _ _ Ha) as (a1 & a2 & ->).
    exists a1, a2, b. rewrite Hsplit. now rewrite <- app_assoc.
  - exfalso. apply StronglySorted_app_1_r in Hsorted.
    apply StronglySorted_cons in Hsorted as [Hall _].
    apply elem_of_cons in Hb as [-> | Hb]; [lia |].
    rewrite Forall_forall in Hall. specialize (Hall m1 Hb).
    unfold earlier in Hall. lia.
Qed.

(** *** Grouping *)

Lemma group_push_keys k m groups k' :
  k' ∈ (fst <$> group_push k m groups) <-> k' = k \/ k' ∈ (fst <$> groups).
Proof.
  induction groups as [| [k0 ms] rest IH]; simpl.
  - rewrite list_elem_of_singleton. split; [auto | intros [H | H]; [auto | inversion H]].
  - destruct (String.eqb k k0) eqn:E; simpl.
    + apply String.eqb_eq in E. subst k0. rewrite elem_of_cons. tauto.
    + rewrite !elem_of_cons, IH. tauto.
Qed.

Lemma group_push_NoDup k m groups :
  NoDup (fst <$> groups) -> NoDup (fst <$> group_push k m groups).
Proof.
  induction groups as [| [k0 ms] rest IH]; simpl; intros Hnd.
  - repeat constructor. inversion 1.
  - apply NoDup_cons in Hnd as [Hk0 Hnd].
    destruct (String.eqb k k0) eqn:E; simpl.
    + apply NoDup_cons. auto.
    + apply NoDup_cons. split; [| auto].
      rewrite group_push_keys. intros [-> | H]; [| auto].
      now rewrite String.eqb_refl in E.
Qed.

Lemma group_push_entries k m groups k' ms' :
  NoDup (fst <$> groups) ->
  (k', ms') ∈ group_push k m groups ->
  (k' <> k /\ (k', ms') ∈ groups)
  \/ (k' = k /\ ((exists ms, (k, ms) ∈ groups /\ ms' = ms ++ [m])
                 \/ ((k ∉ (fst <$> groups)) /\ ms' = [m]))).
Proof.
  induction groups as [| [k0 ms0] rest IH]; simpl; intros Hnd Hin.
  - apply list_elem_of_singleton in Hin as [= -> ->].
    right. split; [reflexivity |]. right. split; [inversion 1 | reflexivity].
  - apply NoDup_cons in Hnd as [Hk0 Hnd].
    destruct (String.eqb k k0) eqn:E.
    + apply String.eqb_eq in E. subst k0.
      apply elem_of_cons in Hin as [[= -> ->] | Hin].
      * right. split; [reflexivity |]. left. exists ms0. split; [left | reflexivity].
      * left. split; [| now right].
        intros ->. apply Hk0. apply list_elem_of_fmap. now exists (k, ms').
    + apply String.eqb_neq in E.
      apply elem_of_cons in Hin as [[= -> ->] | Hin].
      * left. split; [congruence | left].
      * destruct (IH Hnd Hin) as [[Hne H] | [-> [(ms & H & ->) | [Hno ->]]]].
        -- left. split; [exact Hne | now right].
        -- right. split; [reflexivity |]. left. exists ms. split; [now right | reflexivity].
        -- right. split; [reflexivity |]. right. split; [| reflexivity].
           simpl. rewrite elem_of_cons. intros [H | H]; [congruence | auto].
Qed.

Lemma grouped_push page groups m :
  grouped page groups -> grouped (page ++ [m]) (group_push (keyOf m) m groups).
Proof.
  intros (Hnd & Hall & Hg). split; [| split].
  - now apply group_push_NoDup.
  - intros x Hx. rewrite group_push_keys.
    apply elem_of_app in Hx as [Hx | Hx]; [right; auto |].
    apply list_elem_of_singleton in Hx as ->. now left.
  - intros k ms Hin. rewrite filter_app.
    destruct (group_push_entries _ _ _ _ _ Hnd Hin)
      as [[Hne H] | [-> [(ms0 & H & ->) | [Hno ->]]]].
    + rewrite (Hg k ms H), filter_cons_False, filter_nil by congruence.
      now rewrite app_nil_r.
    + rewrite (Hg _ ms0 H), filter_cons_True, filter_nil by reflexivity. reflexivity.
    + rewrite filter_cons_True, filter_nil by reflexivity.
      destruct (filter _ page) as [| x xs] eqn:E; [reflexivity |].
      exfalso. apply Hno.
      assert (x ∈ filter (fun m0 => keyOf m0 = keyOf m) page) as Hx by (rewrite E; left).
      apply list_elem_of_filter in Hx as [<- Hx]. auto.
Qed.

Lemma groupByInstance_grouped page : grouped page (groupByInstance page).
Proof.
  unfold groupByInstance.
  assert (forall rest done groups,
            grouped done groups ->
            grouped (done ++ rest)
              (fold_left (fun groups m => group_push (keyOf m) m groups) rest groups))
    as Hgen.
  { induction rest as [| m rest IH]; intros done groups Hg; simpl.
    - now rewrite app_nil_r.
    - replace (done ++ m :: rest) with ((done ++ [m]) ++ rest)
        by now rewrite <- app_assoc.
      apply IH. now apply grouped_push. }
  apply (Hgen page [] []). split; [constructor | split]; [inversion 1 | inversion 1].
Qed.

Lemma Object_entries_subset groups g : g ∈ Object_entries groups -> g ∈ groups.
Proof.
  unfold Object_entries. rewrite elem_of_app, merge_sort_Permutation.
  rewrite !list_elem_of_In, !filter_In. tauto.
Qed.

(** *** The dispatch order *)

Lemma dispatch_order_app l l' :
  dispatch_order (l ++ l') = dispatch_order l ++ dispatch_order l'.
Proof.
  induction l as [| e l IH]; [reflexivity |].
  destruct e; simpl; now rewrite IH.
Qed.

Section SweepProps.

Variable transport : nat -> string -> Content -> Messages.SendOutcome.
Variable connect : string -> gmap string Instance -> Res unit * gmap string Instance.

Lemma attempt_dispatch sock jid message w :
  dispatch_order (trace (snd (attempt transport sock jid message w)))
  = dispatch_order (trace w).
Proof.
  unfold attempt, Messages.sock_sendMessage.
  destruct (Messages.connected (Some sock)); [| reflexivity].
  assert (dispatch_order (trace (Messages.count_send
                                   (emit (EvSend jid (CText message)) w)))
          = dispatch_order (trace w)) as H.
  { simpl. rewrite dispatch_order_app. simpl. now rewrite app_nil_r. }
  destruct (transport (sends w) jid (CText message)) as [[id |] | e]; simpl; try exact H.
  destruct (negb (String.eqb id "")); exact H.
Qed.

Lemma sendMessage_from_dispatch remaining i sock jid message w :
  dispatch_order (trace (snd (sendMessage_from transport remaining i sock jid message w)))
  = dispatch_order (trace w).
Proof.
  revert i w. induction remaining as [| remaining IH]; intros i w; simpl; [reflexivity |].
  pose proof (attempt_dispatch sock jid message w) as Ha.
  destruct (attempt transport sock jid message w) as [[id | e] w1]; simpl in *; [exact Ha |].
  destruct remaining as [| remaining'].
  - rewrite IH. exact Ha.
  - rewrite IH. simpl. rewrite dispatch_order_app. simpl. now rewrite app_nil_r.
Qed.

Lemma processDue_dispatch sock w m :
  dispatch_order (trace (processDue transport sock w m))
  = dispatch_order (trace w) ++ [mm_id m].
Proof.
  unfold processDue, sendMessage.
  match goal with
  | |- context [sendMessage_from transport ?r ?i sock ?j ?msg ?w0] =>
      pose proof (sendMessage_from_dispatch r i sock j msg w0) as H;
      destruct (sendMessage_from transport r i sock j msg w0) as [[success wa] w1]
  end.
  simpl in H. simpl. rewrite dispatch_order_app. simpl. rewrite app_nil_r.
  assert (trace (updateScheduledMessageStatus (mm_id m)
                   (if success then SENT else FAILED) wa w1) = trace w1) as ->
    by (unfold updateScheduledMessageStatus; now destruct (Js.truthy wa)).
  rewrite H, dispatch_order_app. reflexivity.
Qed.

Lemma processDue_fold_dispatch sock messages w :
  dispatch_order (trace (fold_left (processDue transport sock) messages w))
  = dispatch_order (trace w) ++ (mm_id <$> messages).
Proof.
  revert w. induction messages as [| m ms IH]; intros w; simpl.
  - now rewrite app_nil_r.
  - rewrite IH, processDue_dispatch, <- app_assoc. reflexivity.
Qed.

(** A tenant's group is either skipped or dispatched whole, in order. *)
Lemma processGroup_dispatch w entry :
  exists ids,
    (ids = (mm_id <$> snd entry) \/ ids = [])
    /\ dispatch_order (trace (processGroup transport connect w entry))
       = dispatch_order (trace w) ++ ids.
Proof.
  destruct entry as [instanceId messages]. unfold processGroup. simpl.
  destruct (String.eqb instanceId "").
  { exists []. split; [now right | now rewrite app_nil_r]. }
  destruct (usable (instances w !! instanceId)) as [sock |].
  { eexists. split; [now left | apply processDue_fold_dispatch]. }
  unfold initializeSock.
  destruct (connect instanceId (instances w)) as [[[] | e] registry].
  - set (w1 := emit _ _).
    assert (dispatch_order (trace w1) = dispatch_order (trace w)) as Hw1.
    { unfold w1. simpl. rewrite dispatch_order_app. simpl. now rewrite app_nil_r. }
    destruct (usable (instances w1 !! instanceId)) as [sock |].
    + eexists. split; [now left |]. now rewrite processDue_fold_dispatch, Hw1.
    + exists []. split; [now right | now rewrite app_nil_r].
  - exists []. split; [now right |]. simpl.
    rewrite dispatch_order_app. simpl. now rewrite !app_nil_r.
Qed.

Lemma processGroup_fold_dispatch entries w :
  exists idss,
    Forall2 (fun entry ids => ids = (mm_id <$> snd entry) \/ ids = []) entries idss
    /\ dispatch_order (trace (fold_left (processGroup transport connect) entries w))
       = dispatch_order (trace w) ++ concat idss.
Proof.
  revert w. induction entries as [| entry entries IH]; intros w; simpl.
  - exists []. split; [constructor | now rewrite app_nil_r].
  - destruct (processGroup_dispatch w entry) as (ids & Hids & Hd).
    destruct (IH (processGroup transport connect w entry)) as (idss & Hall & Hds).
    exists (ids :: idss). split; [now constructor |].
    rewrite Hds, Hd, <- app_assoc. reflexivity.
Qed.

(** A registry entry is usable exactly when it exists, holds a socket
    and its status is 'connected'. *)
Lemma usable_spec (entry : option Instance) (sock : Sock) :
  usable entry = Some sock <->
  exists i, entry = Some i /\ inst_sock i = Some sock
            /\ inst_status i = Some "connected"%string.
Proof.
  unfold usable. split.
  - destruct entry as [i |]; [| discriminate].
    destruct (inst_sock i) as [s |] eqn:Es; [| discriminate].
    case_bool_decide as Hs; [| discriminate].
    intros [= ->]. exists i. auto.
  - intros (i & -> & -> & Hs). now rewrite bool_decide_eq_true_2.
Qed.

Lemma processGroup_offline w entry :
  (forall id registry, exists e, connect id registry = (Throw e, registry)) ->
  (forall id, usable (instances w !! id) = None) ->
  media_messages (processGroup transport connect w entry) = media_messages w
  /\ instances (processGroup transport connect w entry) = instances w
  /\ dispatch_order (trace (processGroup transport connect w entry))
     = dispatch_order (trace w).
Proof.
  intros Hfail Hoff. destruct entry as [id messages]. unfold processGroup.
  destruct (String.eqb id ""); [auto |].
  rewrite Hoff. unfold initializeSock.
  destruct (Hfail id (instances w)) as [e ->]. simpl.
  rewrite dispatch_order_app. simpl. now rewrite app_nil_r.
Qed.

(** X5 (scenario D): when no tenant has a usable connection and every
    resurrection fails, leaving the registry as it was, a sweep changes no
    ledger row (due messages stay pending) and dispatches nothing. *)
Lemma sweep_offline_keeps_pending w :
  (forall id registry, exists e, connect id registry = (Throw e, registry)) ->
  (forall id, usable (instances w !! id) = None) ->
  media_messages (sweep transport connect w) = media_messages w
  /\ dispatched_by w (sweep transport connect w) = [].
Proof.
  intros Hfail Hoff. unfold sweep.
  assert (forall entries w0,
            media_messages w0 = media_messages w ->
            instances w0 = instances w ->
            dispatch_order (trace w0) = dispatch_order (trace w) ->
            let w1 := fold_left (processGroup transport connect) entries w0 in
            media_messages w1 = media_messages w
            /\ dispatch_order (trace w1) = dispatch_order (trace w)) as Hfold.
  { induction entries as [| entry entries IH]; intros w0 Hm Hi Hd; simpl; [auto |].
    destruct (processGroup_offline w0 entry Hfail) as (Hm1 & Hi1 & Hd1).
    { intros id. rewrite Hi. apply Hoff. }
    apply IH; congruence. }
  unfold dispatched_by.
  destruct (getPendingScheduledMessages w) as [| m page].
  - split; [reflexivity | apply drop_all].
  - destruct (groupPage (m :: page)) as [groups | e].
    + destruct (Hfold (Object_entries groups) w eq_refl eq_refl eq_refl) as [Hm Hd].
      split; [exact Hm |]. rewrite Hd. apply drop_all.
    + split; [reflexivity | apply drop_all].
Qed.

Lemma concat_fmap_nil {A B} (l : list A) : concat ((fun _ => @nil B) <$> l) = [].
Proof. induction l as [| x l IH]; [reflexivity | exact IH]. Qed.

Lemma same_id_same_row (rows : list MediaMessage) a b :
  NoDup (mm_id <$> rows) -> a ∈ rows -> b ∈ rows -> mm_id a = mm_id b -> a = b.
Proof.
  induction rows as [| r rows IH]; simpl; intros Hnd Ha Hb Hid; [inversion Ha |].
  apply NoDup_cons in Hnd as [Hr Hnd].
  apply elem_of_cons in Ha as [-> | Ha]; apply elem_of_cons in Hb as [-> | Hb].
  - reflexivity.
  - exfalso. apply Hr. rewrite Hid. now apply list_elem_of_fmap_2.
  - exfalso. apply Hr. rewrite <- Hid. now apply list_elem_of_fmap_2.
  - auto.
Qed.

(** C7: the page a sweep reads holds at most 50 messages (10 in the earlier
    schedule.js), all of them pending with a scheduled time that is not
    after now, in ascending order of scheduled time; and when the ledger ids
    are distinct, for two due pending messages of the same tenant with
    scheduled times t1 < t2, if the sweep dispatches the send attempt of the
    later one, it has dispatched that of the earlier one before it. *)
Theorem sweep_page_and_dispatch_order (w : World) :
  NoDup (mm_id <$> media_messages w) ->
  (length (getPendingScheduledMessages w) <= 50
   /\ length (getPendingScheduledMessages_legacy w) <= 10)%nat
  /\ (forall r,
        r ∈ getPendingScheduledMessages w \/ r ∈ getPendingScheduledMessages_legacy w ->
        r ∈ media_messages w /\ mm_message_status r = PENDING
        /\ exists t, mm_schedule_time r = Some t /\ t <= clock w)
  /\ StronglySorted earlier (getPendingScheduledMessages w)
  /\ StronglySorted earlier (getPendingScheduledMessages_legacy w)
  /\ dispatch_order (trace (sweep transport connect w))
     = dispatch_order (trace w) ++ dispatched_by w (sweep transport connect w)
  /\ forall m1 m2,
       m1 ∈ media_messages w -> m2 ∈ media_messages w ->
       due (clock w) m1 = true -> due (clock w) m2 = true ->
       mm_instance_id m1 = mm_instance_id m2 ->
       scheduled m1 < scheduled m2 ->
       mm_id m2 ∈ dispatched_by w (sweep transport connect w) ->
       exists l1 l2 l3,
         dispatched_by w (sweep transport connect w)
         = l1 ++ mm_id m1 :: l2 ++ mm_id m2 :: l3.
Proof.
  intros Hnd.
  split; [| split; [| split; [| split]]].
  - unfold getPendingScheduledMessages, getPendingScheduledMessages_legacy, selectDue.
    rewrite !length_take. lia.
  - intros r [H | H]; apply selectDue_subset in H as [Hin Hdue];
      apply due_spec in Hdue; tauto.
  - apply selectDue_sorted.
  - apply selectDue_sorted.
  - assert (exists idss,
              Forall2 (fun entry ids => ids = (mm_id <$> snd entry) \/ ids = [])
                (match getPendingScheduledMessages w with
                 | [] => []
                 | page => Object_entries (groupByInstance page)
                 end) idss
              /\ dispatch_order (trace (sweep transport connect w))
                 = dispatch_order (trace w) ++ concat idss) as (idss & Hall & Hd).
    { unfold sweep. destruct (getPendingScheduledMessages w) as [| m page] eqn:Epage.
      - exists []. split; [constructor | now rewrite app_nil_r].
      - unfold groupPage. destruct (forallb _ (m :: page)).
        + apply processGroup_fold_dispatch.
        + exists ((fun _ => []) <$> Object_entries (groupByInstance (m :: page))).
          split.
          * apply Forall2_fmap_r, Forall_Forall2_diag, Forall_forall.
            intros entry _. now right.
          * rewrite concat_fmap_nil. simpl. now rewrite app_nil_r. }
    assert (dispatched_by w (sweep transport connect w) = concat idss) as HD.
    { unfold dispatched_by. rewrite Hd. now rewrite drop_app_length. }
    rewrite HD. split; [exact Hd |].
    intros m1 m2 Hin1 Hin2 Hdue1 Hdue2 Hinst Hlt Hdisp.
    destruct (getPendingScheduledMessages w) as [| m0 page0] eqn:Epage.
    { apply Forall2_nil_inv_l in Hall. subst idss. inversion Hdisp. }
    rewrite <- Epage in Hall. clear m0 page0 Epage.
    set (page := getPendingScheduledMessages w) in *.
    apply list_elem_of_In, in_concat in Hdisp as (ids & Hids & Hid2).
    apply list_elem_of_In in Hids, Hid2.
    destruct (list_elem_of_split _ _ Hids) as (I1 & I2 & ->).
    apply Forall2_app_inv_r in Hall as (E1 & E2' & _ & Hrest & Hentries).
    apply Forall2_cons_inv_r in Hrest as (entry & E2 & Hentry & _ & ->).
    destruct Hentry as [-> | ->]; [| inversion Hid2].
    apply list_elem_of_fmap in Hid2 as (m & Hidm & Hm).
    assert (entry ∈ groupByInstance page) as Hgroup.
    { apply Object_entries_subset. rewrite Hentries.
      apply elem_of_app. right. left. }
    destruct (groupByInstance_grouped page) as (_ & _ & Hg).
    destruct entry as [k ms]. simpl in *.
    pose proof (Hg k ms Hgroup) as Hms. subst ms.
    apply list_elem_of_filter in Hm as [Hk Hm].
    assert (m = m2) as ->.
    { apply (same_id_same_row (media_messages w)); auto.
      now apply (selectDue_subset 50 w m). }
    destruct (selectDue_earlier_first 50 w m1 m2 Hin1 Hdue1 Hm Hlt)
      as (p1 & p2 & p3 & Hpage).
    fold (getPendingScheduledMessages w) in Hpage. fold page in Hpage.
    assert (keyOf m1 = k) as Hk1 by (unfold keyOf in *; now rewrite Hinst).
    rewrite Hpage.
    rewrite filter_app, filter_cons_True, filter_app, filter_cons_True by assumption.
    rewrite concat_app. simpl. rewrite !fmap_app. simpl. rewrite !fmap_app. simpl.
    exists (concat I1 ++ (mm_id <$> filter (fun m => keyOf m = k) p1)),
           (mm_id <$> filter (fun m => keyOf m = k) p2),
           ((mm_id <$> filter (fun m => keyOf m = k) p3) ++ concat I2).
    repeat (rewrite <- ?app_assoc; simpl; f_equal).
Qed.

End SweepProps.

Lemma usable_spec_witness :
  usable (instances two_due !! "t1"%string) = Some (mkSock 1 (Some (mkUser (Some "me"%string)))).
Proof.
  apply (usable_spec (instances two_due !! "t1"%string)
           (mkSock 1 (Some (mkUser (Some "me"%string))))).
  eexists. split; [reflexivity |]. split; reflexivity.
Defined.

Lemma sweep_offline_keeps_pending_witness :
  media_messages (sweep delivers never_connects due_offline) = media_messages due_offline
  /\ dispatched_by due_offline (sweep delivers never_connects due_offline) = [].
Proof.
  apply (sweep_offline_keeps_pending delivers never_connects due_offline).
  - intros id registry. now exists "Connection timeout"%string.
  - intros id. unfold due_offline. simpl. now rewrite lookup_empty.
Defined.

Lemma sweep_page_and_dispatch_order_witness :
  exists l1 l2 l3,
    dispatched_by two_due (sweep delivers never_connects two_due)
    = l1 ++ 2 :: l2 ++ 1 :: l3.
Proof.
  assert (NoDup (mm_id <$> media_messages two_due)) as Hnd.
  { apply NoDup_cons. split; [| apply NoDup_singleton].
    intros H. apply list_elem_of_singleton in H. discriminate H. }
  destruct (sweep_page_and_dispatch_order delivers never_connects two_due Hnd)
    as (_ & _ & _ & _ & _ & Horder).
  apply (Horder
           (mkMediaMessage 2 (Some "t1") "+91 2" (Some "early") None None (Some 3000)
              PENDING None (Some 1000))
           (mkMediaMessage 1 (Some "t1") "+91 1" (Some "late") None None (Some 4000)
              PENDING None (Some 1000))).
  - right. left.
  - left.
  - reflexivity.
  - reflexivity.
  - reflexivity.
  - reflexivity.
  - vm_compute. right. left.
Defined.

End ScheduleProps.

(* ===================================================================== *)
(** ** Properties of the connection supervisor *)
(* ===================================================================== *)

Module QrCodeProps.
Import Store Err QrCode QrCodeSpec RegistryProps.
Local Open Scope list_scope.








(** *** The status endpoint *)





End QrCodeProps.

(* ===================================================================== *)
(** ** The send loop and the ledger *)
(* ===================================================================== *)

Module PipelineLedgerProps.
Import Store Err Messages MessagesSpec LedgerSpec MessagesProps.
Local Open Scope list_scope.

(** *** Net effects compose *)

Lemma net_refl id w : net id None w w.
Proof. split; reflexivity. Qed.

Lemma net_trans id a b w1 w2 w3 :
  net id a w1 w2 -> net id b w2 w3 ->
  net id (match b with Some _ => b | None => a end) w1 w3.
Proof.
  intros [Hn1 H1] [Hn2 H2]. split; [congruence |].
  destruct b as [s2 |].
  - destruct H2 as (h2 & Hh2 & Hm2). destruct a as [s1 |].
    + destruct H1 as (h1 & Hh1 & Hm1). exists (fun r => h2 (h1 r)). split.
      * intros r. destruct (Hh1 r) as [wa1 E1]. destruct (Hh2 (h1 r)) as [wa2 E2].
        exists wa2. rewrite E2, E1. reflexivity.
      * rewrite Hm2, Hm1, map_map. apply map_ext. intros r.
        destruct (Z.eqb (mm_id r) id) eqn:E.
        -- destruct (Hh1 r) as [wa1 E1]. rewrite E1. simpl. rewrite E.
           reflexivity.
        -- now rewrite E.
    + exists h2. split; [exact Hh2 |]. now rewrite Hm2, H1.
  - destruct a as [s1 |].
    + destruct H1 as (h1 & Hh1 & Hm1). exists h1. split; [exact Hh1 |].
      now rewrite H2.
    + congruence.
Qed.

Lemma net_same_store id w w' : same_store w w' -> net id None w w'.
Proof. intros (Hm & Hn & _). split; assumption. Qed.

Lemma net_only_logs id w w' : only_logs w w' -> net id None w w'.
Proof. intros H. apply net_same_store. now apply only_logs_same_store. Qed.

Lemma net_migrate id inst recipient wa st created w :
  net id None w (migrateMessageToReportTime inst recipient wa st created w).
Proof.
  destruct (migrate_media_messages inst recipient wa st created w) as [Hm Hn].
  split; assumption.
Qed.

Lemma net_rewrite id s (h : MediaMessage -> MediaMessage) w w' :
  (forall r, exists wa, h r = with_status_and_wa s wa r) ->
  next_insert_id w' = next_insert_id w ->
  media_messages w'
  = map (fun r => if Z.eqb (mm_id r) id then h r else r) (media_messages w) ->
  net id (Some s) w w'.
Proof. intros Hh Hn Hm. split; [exact Hn |]. now exists h. Qed.

Lemma with_status_as_wa s r : exists wa, with_status s r = with_status_and_wa s wa r.
Proof. now exists (mm_whatsapp_message_id r). Qed.

Lemma filter_none {A} (P : A -> Prop) `{forall x, Decision (P x)} (l : list A) :
  (forall x, x ∈ l -> ~ P x) -> filter P l = [].
Proof.
  induction l as [| x l IH]; intros Hno; [reflexivity |].
  rewrite filter_cons_False by (apply Hno; left).
  apply IH. intros y Hy. apply Hno. now right.
Qed.

Lemma map_id_absent id (h : MediaMessage -> MediaMessage) rows :
  filter (fun r => mm_id r = id) rows = [] ->
  map (fun r => if Z.eqb (mm_id r) id then h r else r) rows = rows.
Proof.
  induction rows as [| r rows IH]; [reflexivity |].
  rewrite filter_cons. destruct (decide (mm_id r = id)) as [E | E]; [discriminate |].
  intros Hf. simpl. apply Z.eqb_neq in E. rewrite E. now rewrite IH.
Qed.

(** *** The ledger functions, by their net effect *)

Lemma updateMessageStatusInDB_net id st w :
  Js.includes st validMessageStatus = true ->
  fst (updateMessageStatusInDB id st w) = Ok tt
  /\ net id (Some st) w (snd (updateMessageStatusInDB id st w)).
Proof.
  intros Hv. unfold updateMessageStatusInDB. rewrite Hv. simpl.
  destruct (filter (fun r => mm_id r = id) (media_messages w)) as [| row rest] eqn:Ef.
  { simpl. split; [reflexivity |].
    apply (net_rewrite id st (with_status st)); [apply with_status_as_wa | reflexivity |].
    simpl. symmetry. now apply map_id_absent. }
  assert (net id (Some st) w
            (set_media_messages (update_status id st (media_messages w)) w)) as Hup
    by (apply (net_rewrite id st (with_status st));
        [apply with_status_as_wa | reflexivity | reflexivity]).
  destruct (Nat.ltb 0 (matched id (media_messages w))).
  - destruct (mm_whatsapp_message_id row) as [wa |]; [| now split].
    destruct (statusField st) as [field |]; [| now split].
    destruct (Js.truthy (Some wa)) eqn:Et; unfold Js.truthy in Et; rewrite Et;
      [| now split].
    destruct (existsb _ _); simpl.
    + split; [reflexivity |].
      apply (net_rewrite id st (with_status st));
        [apply with_status_as_wa | reflexivity | reflexivity].
    + split; [reflexivity |].
      apply (net_trans id (Some st) None _ _ _ Hup).
      eapply (net_trans id None None); [| apply net_migrate].
      apply net_only_logs, only_logs_logw.
  - simpl. split; [reflexivity |].
    apply (net_trans id (Some st) None _ _ _ Hup).
    apply net_only_logs, only_logs_logw.
Qed.

Lemma updateMessageWithWhatsAppId_net id wa w :
  exists st, (st = None \/ st = Some SENT)
             /\ net id st w (snd (updateMessageWithWhatsAppId id wa w)).
Proof.
  unfold updateMessageWithWhatsAppId.
  destruct (_ || _)%bool.
  { exists None. split; [now left |]. apply net_only_logs, only_logs_logw. }
  destruct (filter (fun r => mm_id r = id) (media_messages w)) as [| row rest].
  { exists None. split; [now left |]. apply net_only_logs, only_logs_logw. }
  exists (Some SENT). split; [now right |].
  set (w1 := set_media_messages _ w).
  assert (net id (Some SENT) w w1) as Hup.
  { apply (net_rewrite id SENT (with_status_and_wa SENT wa));
      [intros r; now exists wa | reflexivity | reflexivity]. }
  destruct (Nat.ltb 0 (matched id (media_messages w))); simpl.
  - apply (net_trans id (Some SENT) None _ _ _ Hup). apply net_migrate.
  - apply (net_trans id (Some SENT) None _ _ _ Hup).
    apply net_only_logs, only_logs_logw.
Qed.

(** With a transport id and a row id other than 0, the rows with that id
    are stamped, when there is one. *)
Lemma updateMessageWithWhatsAppId_rows id wa w row :
  Js.truthy wa = true -> id <> 0 ->
  row ∈ media_messages w -> mm_id row = id ->
  media_messages (snd (updateMessageWithWhatsAppId id wa w))
  = stamped id wa (media_messages w).
Proof.
  intros Hwa Hid Hin Hrow. unfold updateMessageWithWhatsAppId.
  rewrite Hwa. assert (Z.eqb id 0 = false) as -> by now apply Z.eqb_neq.
  cbn [orb negb].
  destruct (filter (fun r => mm_id r = id) (media_messages w)) as [| r0 rest] eqn:Ef.
  { exfalso. assert (row ∈ filter (fun r => mm_id r = id) (media_messages w)) as Hf
      by (apply list_elem_of_filter; split; assumption).
    rewrite Ef in Hf. inversion Hf. }
  set (w1 := set_media_messages _ w).
  destruct (Nat.ltb 0 (matched id (media_messages w))); cbn [snd].
  - destruct (migrate_media_messages (mm_instance_id r0) (mm_recipient r0) wa SENT
                (mm_created_at r0) w1) as [-> _]. reflexivity.
  - reflexivity.
Qed.

(** The pending row of one recipient, with its recipient. *)
Lemma logMediaMessageToDB_single_row inst n msg media cap sched w :
  exists w' row,
    logMediaMessageToDB inst (Many [n]) msg media cap sched (Some PENDING) None w
    = (Ok (OneId (next_insert_id w)), w')
    /\ media_messages w' = media_messages w ++ [row]
    /\ mm_id row = next_insert_id w
    /\ mm_recipient row = n
    /\ mm_message_status row = PENDING
    /\ next_insert_id w' = next_insert_id w + 1
    /\ mm_instance_id row = Js.orNull inst
    /\ mm_whatsapp_message_id row = None
    /\ clock w' = clock w
    /\ mm_created_at row = Some (clock w).
Proof.
  unfold logMediaMessageToDB. simpl. unfold processOne.
  destruct (replacePlaceholders msg n inst w) as [pm w1] eqn:E1.
  assert (only_logs w w1) as H1
    by (pose proof (replacePlaceholders_only_logs msg n inst w) as H;
        now rewrite E1 in H).
  destruct (if Js.truthy cap then replacePlaceholders cap n inst w1 else (None, w1))
    as [pc w2] eqn:E2.
  assert (only_logs w1 w2) as H2.
  { destruct (Js.truthy cap).
    - pose proof (replacePlaceholders_only_logs cap n inst w1) as H.
      now rewrite E2 in H.
    - injection E2 as _ <-. apply only_logs_refl. }
  simpl. destruct (formatScheduledAt sched w2) as [sc w3] eqn:E3.
  assert (only_logs w2 w3) as H3
    by (pose proof (formatScheduledAt_only_logs sched w2) as H; now rewrite E3 in H).
  pose proof (only_logs_tables _ _ (only_logs_trans _ _ _ H1 (only_logs_trans _ _ _ H2 H3)))
    as (Hm & Hn & _ & Hc & _).
  unfold insert_message. simpl. rewrite Hn, Hm, Hc.
  do 2 eexists. split; [reflexivity |]. simpl. repeat split; auto.
Qed.

(** A row appended under a fresh id takes the whole net effect. *)
Lemma net_on_fresh_row id st old row0 w3 w' :
  media_messages w3 = old ++ [row0] ->
  Forall (fun r => mm_id r < id) old ->
  mm_id row0 = id ->
  net id st w3 w' ->
  exists row,
    media_messages w' = old ++ [row]
    /\ mm_id row = id /\ mm_recipient row = mm_recipient row0
    /\ mm_message_status row = default (mm_message_status row0) st
    /\ mm_instance_id row = mm_instance_id row0
    /\ mm_created_at row = mm_created_at row0.
Proof.
  intros Hm Hold Hid [_ Hnet]. destruct st as [s |].
  - destruct Hnet as (h & Hh & Hm'). exists (h row0).
    destruct (Hh row0) as [wa E]. rewrite Hm', Hm, map_app. simpl.
    rewrite Hid, Z.eqb_refl. split; [f_equal | rewrite E; simpl; auto 10].
    clear -Hold. induction old as [| r old IH]; [reflexivity |].
    apply Forall_cons in Hold as [Hr Hold]. simpl.
    assert (Z.eqb (mm_id r) id = false) as -> by (apply Z.eqb_neq; lia).
    now rewrite IH.
  - exists row0. rewrite Hnet, Hm. auto 10.
Qed.

Section LedgerProps.

Variable transport : nat -> string -> Content -> SendOutcome.
Variable jitter : nat -> Z.

Lemma guardedSend_net jid c dbId what w res w' :
  guardedSend transport jid c dbId what w = (res, w') ->
  net dbId (match res with Ok _ => None | Throw _ => Some FAILED end) w w'.
Proof.
  intros Hrun. unfold guardedSend, catch, bind in Hrun.
  pose proof (sendWithRetry_same_store transport jid c 0 w) as Hsame.
  destruct (sendWithRetry transport jid c 0 w) as [r1 w1]. simpl in Hsame.
  apply (net_same_store dbId) in Hsame.
  assert (forall e, (lift (logw Error what) ;;; updateMessageStatusInDB dbId FAILED ;;; throw e)%js w1
                    = (res, w') ->
                    net dbId (match res with Ok _ => None | Throw _ => Some FAILED end) w w')
    as Hhandler.
  { intros e He. unfold bind, lift, throw in He.
    destruct (updateMessageStatusInDB_net dbId FAILED (logw Error what w1) eq_refl)
      as [Hok Hnet].
    destruct (updateMessageStatusInDB dbId FAILED (logw Error what w1)) as [r2 w2].
    simpl in Hok, Hnet. subst r2. injection He as <- <-.
    apply (net_trans dbId None (Some FAILED) _ _ _ Hsame).
    apply (net_trans dbId None (Some FAILED) _ (logw Error what w1)); [| exact Hnet].
    apply net_only_logs, only_logs_logw. }
  destruct r1 as [[id |] | e]; simpl in Hrun.
  - unfold ret in Hrun. injection Hrun as <- <-. exact Hsame.
  - now apply Hhandler in Hrun.
  - now apply Hhandler in Hrun.
Qed.

(** The [try] block of the loop inserts one pending row for the message and
    then, at most, rewrites that row's status: failed when it throws, sent
    or nothing when it runs to its end. *)
Lemma processMessage_net message mediaPayload instanceId filePath scheduleTime
    w res w' :
  processMessage transport jitter message mediaPayload instanceId filePath
    scheduleTime w = (res, w') ->
  exists w3 row0 st,
    media_messages w3 = media_messages w ++ [row0]
    /\ mm_id row0 = next_insert_id w
    /\ mm_recipient row0 = number message
    /\ mm_message_status row0 = PENDING
    /\ mm_instance_id row0 = Js.orNull instanceId
    /\ mm_created_at row0 = Some (clock w)
    /\ next_insert_id w3 = next_insert_id w + 1
    /\ net (next_insert_id w) st w3 w'
    /\ outcome (next_insert_id w) res st w3 w'.
Proof.
  intros Hrun. unfold processMessage in Hrun.
  unfold bind at 1 in Hrun. unfold liftv at 1 in Hrun.
  destruct (replacePlaceholders (text message) (number message) instanceId w)
    as [pt w1] eqn:E1.
  assert (only_logs w w1) as H1
    by (pose proof (replacePlaceholders_only_logs (text message) (number message)
                      instanceId w) as H; now rewrite E1 in H).
  unfold bind at 1 in Hrun. unfold liftv at 1 in Hrun.
  destruct (replacePlaceholders (caption message) (number message) instanceId w1)
    as [pc w2] eqn:E2.
  assert (only_logs w1 w2) as H2
    by (pose proof (replacePlaceholders_only_logs (caption message) (number message)
                      instanceId w1) as H; now rewrite E2 in H).
  pose proof (only_logs_tables _ _ (only_logs_trans _ _ _ H1 H2))
    as (Hm2 & Hn2 & _ & Hc2 & _).
  unfold bind at 1 in Hrun.
  match type of Hrun with
  | context [logMediaMessageToDB ?a (Many [?n]) ?m ?md ?cp ?sc _ _ w2] =>
      destruct (logMediaMessageToDB_single_row a n m md cp sc w2)
        as (w3 & row0 & Hlog & Hm3 & Hid & Hrcp & Hst & Hn3 & Hinst & _ & _ & Hcreated)
  end.
  rewrite Hlog in Hrun. simpl insertedId in Hrun. rewrite Hn2 in Hrun, Hid, Hn3.
  rewrite Hm2 in Hm3. rewrite Hc2 in Hcreated.
  set (dbId := next_insert_id w) in *.
  exists w3, row0.
  assert (forall st, net dbId st w3 w' ->
            outcome dbId res st w3 w' ->
            exists st,
              media_messages w3 = media_messages w ++ [row0]
              /\ mm_id row0 = dbId /\ mm_recipient row0 = number message
              /\ mm_message_status row0 = PENDING
              /\ mm_instance_id row0 = Js.orNull instanceId
              /\ mm_created_at row0 = Some (clock w)
              /\ next_insert_id w3 = dbId + 1
              /\ net dbId st w3 w'
              /\ outcome dbId res st w3 w') as Hdone
    by (intros st Hnet Hres; exists st; auto 12).
  (* the steps after the two sends *)
  assert (forall wa w5, net dbId None w3 w5 ->
            (res, w') = (Ok wa, snd (updateMessageWithWhatsAppId dbId wa
                                       (sleep (getRandomDelay jitter w5) w5))) ->
            exists st, net dbId st w3 w' /\ outcome dbId res st w3 w') as Hfinal.
  { intros wa w5 Hnet5 [= -> ->].
    destruct (updateMessageWithWhatsAppId_net dbId wa (sleep (getRandomDelay jitter w5) w5))
      as (st & Hst' & Hnet).
    exists st.
    assert (net dbId None w3 (sleep (getRandomDelay jitter w5) w5)) as Hsl
      by (destruct Hnet5 as [Hn Hm]; split; simpl; assumption).
    split.
    - pose proof (net_trans dbId None st _ _ _ Hsl Hnet) as Ht.
      destruct st; exact Ht.
    - split; [exact Hst' |]. intros Hwa H0.
      destruct Hsl as [_ Hm5]. rewrite <- Hm5.
      apply (updateMessageWithWhatsAppId_rows dbId wa _ row0); auto.
      rewrite Hm5, Hm3. apply elem_of_app. right. apply list_elem_of_singleton.
      reflexivity. }
  (* the text send *)
  assert (forall afterMedia w4, net dbId None w3 w4 ->
            (res, w') =
              (let k := fun whatsappMessageId w5 =>
                 (Ok whatsappMessageId,
                  snd (updateMessageWithWhatsAppId dbId whatsappMessageId
                         (sleep (getRandomDelay jitter w5) w5))) in
               if Js.truthy pt
               then match guardedSend transport (number message ++ "@s.whatsapp.net")%string
                            (CText pt) dbId "Failed to send text" w4 with
                    | (Ok wa, w5) => k wa w5
                    | (Throw e, w5) => (Throw e, w5)
                    end
               else k afterMedia w4) ->
            exists st, net dbId st w3 w' /\ outcome dbId res st w3 w') as Htext.
  { intros afterMedia w4 Hnet4 Hrun4. cbv zeta in Hrun4.
    destruct (Js.truthy pt); [| now apply (Hfinal afterMedia w4)].
    destruct (guardedSend transport _ _ dbId _ w4) as [[wa2 | e] w5] eqn:Eg;
      pose proof (guardedSend_net _ _ _ _ _ _ _ Eg) as Hg; simpl in Hg.
    - apply (Hfinal wa2 w5); [| exact Hrun4].
      apply (net_trans dbId None None _ _ _ Hnet4 Hg).
    - injection Hrun4 as -> ->. exists (Some FAILED). split; [| reflexivity].
      apply (net_trans dbId None (Some FAILED) _ _ _ Hnet4 Hg). }
  unfold bind at 1 in Hrun.
  destruct mediaPayload as [payload |].
  - match type of Hrun with
    | context [guardedSend transport ?j ?c dbId ?wh w3] =>
        destruct (guardedSend transport j c dbId wh w3) as [[wa1 | e] w4] eqn:Eg;
        pose proof (guardedSend_net j c dbId wh w3 _ _ Eg) as Hg; simpl in Hg
    end.
    + destruct (Htext wa1 w4 Hg) as (st & Hnet & Hres); [| now apply (Hdone st)].
      rewrite <- Hrun. unfold bind, lift, liftv, ret.
      destruct (Js.truthy pt); [| now destruct (updateMessageWithWhatsAppId _ _ _)].
      destruct (guardedSend _ _ _ _ _ w4) as [[wa2 | e2] w5]; [| reflexivity].
      now destruct (updateMessageWithWhatsAppId _ _ _).
    + injection Hrun as <- <-. now apply (Hdone (Some FAILED)).
  - destruct (Htext None w3 (net_refl dbId w3)) as (st & Hnet & Hres);
      [| now apply (Hdone st)].
    rewrite <- Hrun. unfold ret at 1. unfold bind, lift, liftv, ret.
    destruct (Js.truthy pt); [| now destruct (updateMessageWithWhatsAppId _ _ _)].
    destruct (guardedSend _ _ _ _ _ w3) as [[wa2 | e2] w5]; [| reflexivity].
    now destruct (updateMessageWithWhatsAppId _ _ _).
Qed.

Lemma sentRows_cons r rows :
  sentRows (r :: rows)
  = ((if String.eqb (mm_message_status r) SENT then 1 else 0) + sentRows rows)%nat.
Proof. unfold sentRows. simpl. now destruct (String.eqb _ _). Qed.

(** One turn of the loop, on the ledger. *)
Lemma sendOne_ledger mediaPayload instanceId filePath scheduleTime n0 w message :
  fresh w ->
  exists n w' row,
    sendOne transport jitter mediaPayload instanceId filePath scheduleTime (n0, w) message
    = (n, w')
    /\ media_messages w' = media_messages w ++ [row]
    /\ mm_id row = next_insert_id w
    /\ mm_recipient row = number message
    /\ next_insert_id w' = next_insert_id w + 1
    /\ n0 + Z.of_nat (sentRows [row]) <= n <= n0 + 1.
Proof.
  intros Hfresh. unfold sendOne.
  destruct (processMessage transport jitter message mediaPayload instanceId filePath
              scheduleTime w) as [res w1] eqn:Erun.
  destruct (processMessage_net _ _ _ _ _ _ _ _ Erun)
    as (w3 & row0 & st & Hm3 & Hid & Hrcp & Hst & _ & _ & Hn3 & Hnet & Hres).
  destruct (net_on_fresh_row _ _ _ _ _ _ Hm3 Hfresh Hid Hnet)
    as (row & Hm1 & Hid1 & Hrcp1 & Hst1 & _).
  destruct Hnet as [Hn1 _].
  rewrite Hst in Hst1.
  destruct res as [wa | e]; unfold outcome in Hres.
  - exists (n0 + 1), w1, row. unfold sentRows. simpl.
    repeat split; try congruence; try lia.
    destruct (String.eqb _ _); simpl; lia.
  - exists n0, (logw Error "Error sending message" w1), row. subst st.
    simpl in Hst1. unfold sentRows. simpl. rewrite Hst1. simpl.
    repeat split; try congruence; try lia.
Qed.

Lemma sendOne_fold_ledger mediaPayload instanceId filePath scheduleTime messages :
  forall n0 w,
    fresh w ->
    exists n w' added,
      fold_left (sendOne transport jitter mediaPayload instanceId filePath scheduleTime)
        messages (n0, w) = (n, w')
      /\ media_messages w' = media_messages w ++ added
      /\ (mm_recipient <$> added) = (number <$> messages)
      /\ (mm_id <$> added) = seqZ (next_insert_id w) (Z.of_nat (length messages))
      /\ n0 + Z.of_nat (sentRows added) <= n <= n0 + Z.of_nat (length messages).
Proof.
  induction messages as [| message rest IH]; intros n0 w Hfresh.
  - exists n0, w, []. unfold sentRows. simpl. rewrite app_nil_r.
    repeat split; try lia.
  - destruct (sendOne_ledger mediaPayload instanceId filePath scheduleTime n0 w message
                Hfresh) as (n1 & w1 & row & Hstep & Hm1 & Hid & Hrcp & Hn1 & Hb1).
    assert (fresh w1) as Hfresh1.
    { unfold fresh. rewrite Hm1, Hn1. apply Forall_app. split.
      - eapply Forall_impl; [exact Hfresh |]. simpl. intros r Hr. lia.
      - constructor; [lia | constructor]. }
    destruct (IH n1 w1 Hfresh1) as (n & w' & added & Hfold & Hm & Hrcps & Hids & Hb).
    exists n, w', (row :: added). cbn [fold_left]. rewrite Hstep, Hfold.
    split; [reflexivity |]. split; [rewrite Hm, Hm1, <- app_assoc; reflexivity |].
    split; [rewrite !fmap_cons; now rewrite Hrcp, Hrcps |].
    split.
    + rewrite seqZ_cons by (simpl length; lia). rewrite fmap_cons, Hid, Hids, Hn1.
      do 2 f_equal; simpl length; lia.
    + rewrite sentRows_cons. rewrite sentRows_cons in Hb1. unfold sentRows in Hb1 at 1.
      simpl in Hb1. simpl length. lia.
Qed.

(** X3: with an authenticated socket the loop never throws, and when the
    ledger ids are below the insert counter it appends exactly one row per
    message of the batch, in order, under consecutive ids and with the
    message's number as recipient, leaving the rows that were there as they
    are; the returned count lies between the number of those rows that
    ended 'sent' and the size of the batch. *)
Theorem sendMessagesOneAtATime_one_row_per_message
    (messages : list Message) (mediaPayload : option MediaPayload) (sock : option Sock)
    (instanceId filePath : option string) (scheduleTime : DateArg) (w : World) :
  connected sock = true ->
  fresh w ->
  exists n w' added,
    sendMessagesOneAtATime transport jitter messages mediaPayload sock instanceId
      filePath scheduleTime w = (Ok n, w')
    /\ media_messages w' = media_messages w ++ added
    /\ (mm_recipient <$> added) = (number <$> messages)
    /\ (mm_id <$> added) = seqZ (next_insert_id w) (Z.of_nat (length messages))
    /\ Z.of_nat (sentRows added) <= n <= Z.of_nat (length messages).
Proof.
  intros Hc Hfresh. unfold sendMessagesOneAtATime. rewrite Hc.
  destruct (sendOne_fold_ledger mediaPayload instanceId filePath scheduleTime messages
              0 w Hfresh) as (n & w' & added & Hfold & Hm & Hr & Hi & Hb).
  exists n, w', added. rewrite Hfold. repeat split; auto; lia.
Qed.

(** *** sendMedia, once the quota gate is passed *)

Variable readMedia : string -> option string -> MediaOutcome.

(** The media block lets the request through: there is no file, or the
    file is read and classified. *)
Lemma media_block_passes (filePath : option string) (first : Message) :
  (forall path why, filePath = Some path ->
     readMedia path (caption first) <> MediaRefused why) ->
  exists mediaPayload,
    match filePath with
    | Some path =>
        if Js.truthy filePath then
          match readMedia path (caption first) with
          | MediaReady p => inr (Some p)
          | MediaRefused why => inl why
          end
        else inr None
    | None => inr None
    end = (inr mediaPayload : string + option MediaPayload).
Proof.
  intros Hok. destruct filePath as [path |]; [| now exists None].
  destruct (Js.truthy (Some path)); [| now exists None].
  destruct (readMedia path (caption first)) as [p | why] eqn:E.
  - now exists (Some p).
  - exfalso. exact (Hok path why eq_refl E).
Qed.

(** X4: a batch that passes the quota gate and finds an authenticated
    socket is answered with 200 and the count of the loop; the ledger has
    grown by one row per message, whatever the transport did. *)
Theorem sendMedia_admits_within_quota
    (instanceId : string) (sock : option Sock) (first : Message) (rest : list Message)
    (filePath : option string) (scheduleTime : DateArg) (sub : Subscription)
    (w : World) :
  activeSubscription instanceId w = Some sub ->
  Z.of_nat (length (first :: rest)) <= messagesRemaining instanceId sub w ->
  connected sock = true ->
  (forall path why, filePath = Some path ->
     readMedia path (caption first) <> MediaRefused why) ->
  fresh w ->
  exists n w' added,
    sendMedia transport jitter readMedia instanceId sock (Some (first :: rest))
      filePath scheduleTime w
    = (mkResponse 200 true (Processed n) (Some n), w')
    /\ media_messages w' = media_messages w ++ added
    /\ (mm_recipient <$> added) = (number <$> first :: rest)
    /\ Z.of_nat (sentRows added) <= n <= Z.of_nat (length (first :: rest)).
Proof.
  intros Hsub Hquota Hc Hmedia Hfresh. unfold sendMedia. rewrite Hsub.
  assert (0 < Z.of_nat (length (first :: rest))) as Hpos by (simpl; lia).
  destruct (Z.leb _ 0) eqn:E1; [apply Z.leb_le in E1; lia |].
  destruct (Z.ltb _ _) eqn:E2; [apply Z.ltb_lt in E2; lia |].
  destruct sock as [sk |]; [| discriminate].
  destruct (media_block_passes filePath first Hmedia) as [mediaPayload ->].
  unfold sendMessagesOneAtATime. rewrite Hc.
  destruct (sendOne_fold_ledger mediaPayload (Some instanceId) filePath scheduleTime
              (first :: rest) 0 w Hfresh)
    as (n & w' & added & Hfold & Hm & Hr & _ & Hb).
  rewrite Hfold. exists n, w', added. repeat split; auto; lia.
Qed.

(** Writing rows to the ledger calls nothing and takes no time. *)
Lemma insertOne_fold_quiet inst media sched st wa ps :
  forall ids w,
    let w' := snd (fold_left (insertOne inst media sched st wa) ps (ids, w)) in
    sends w' = sends w /\ trace w' = trace w /\ clock w' = clock w.
Proof.
  induction ps as [| [[n pm] pc] ps IH]; intros ids w; simpl; [auto |].
  destruct (formatScheduledAt sched w) as [s w1] eqn:E1.
  assert (only_logs w w1) as H1
    by (pose proof (formatScheduledAt_only_logs sched w) as H; now rewrite E1 in H).
  apply only_logs_tables in H1 as (_ & _ & _ & Hc & Hs & Ht & _).
  unfold insert_message.
  match goal with
  | |- context [fold_left _ ps (?i, ?w2)] => destruct (IH i w2) as (-> & -> & ->)
  end.
  simpl. auto.
Qed.

Lemma logMediaMessageToDB_quiet inst numbers msg media cap sched status wa w :
  let w' := snd (logMediaMessageToDB inst numbers msg media cap sched status wa w) in
  sends w' = sends w /\ trace w' = trace w /\ clock w' = clock w.
Proof.
  unfold logMediaMessageToDB. fold (validated status). fold (numbersOf numbers).
  destruct (processOne_fold inst msg cap (numbersOf numbers) [] w)
    as (l & w1 & -> & _ & Ho).
  apply only_logs_tables in Ho as (_ & _ & _ & Hc & Hs & Ht & _).
  pose proof (insertOne_fold_quiet inst media sched (validated status) wa l [] w1) as Hq.
  cbv zeta in Hq. cbv zeta. cbn [app].
  destruct (fold_left _ l ([], w1)) as [ids w2]. simpl in Hq.
  destruct Hq as (Hs2 & Ht2 & Hc2).
  destruct ids as [| id [| id' ids]]; simpl; repeat split; congruence.
Qed.

(** X6: a batch that passes the quota gate but finds a socket that is not
    authenticated is answered with 500; nothing is handed to the transport,
    and one row per message is written to the ledger with status 'failed'. *)
Theorem sendMedia_unauthenticated_writes_failed_rows
    (instanceId : string) (sk : Sock) (first : Message) (rest : list Message)
    (filePath : option string) (scheduleTime : DateArg) (sub : Subscription)
    (w : World) :
  activeSubscription instanceId w = Some sub ->
  Z.of_nat (length (first :: rest)) <= messagesRemaining instanceId sub w ->
  connected (Some sk) = false ->
  (forall path why, filePath = Some path ->
     readMedia path (caption first) <> MediaRefused why) ->
  instanceId <> ""%string ->
  exists w',
    sendMedia transport jitter readMedia instanceId (Some sk) (Some (first :: rest))
      filePath scheduleTime w
    = (mkResponse 500 false (FailedToSend "WhatsApp connection not ready") None, w')
    /\ appended (length (first :: rest)) FAILED w w'
    /\ sends w' = sends w /\ trace w' = trace w.
Proof.
  intros Hsub Hquota Hc Hmedia Hid. unfold sendMedia. rewrite Hsub.
  assert (0 < Z.of_nat (length (first :: rest))) as Hpos by (simpl; lia).
  destruct (Z.leb _ 0) eqn:E1; [apply Z.leb_le in E1; lia |].
  destruct (Z.ltb _ _) eqn:E2; [apply Z.ltb_lt in E2; lia |].
  destruct (media_block_passes filePath first Hmedia) as [mediaPayload ->].
  unfold sendMessagesOneAtATime. rewrite Hc.
  assert (Js.truthy (Some instanceId) = true) as ->.
  { simpl. destruct (String.eqb instanceId "") eqn:E; [| reflexivity].
    apply String.eqb_eq in E. contradiction. }
  set (w1 := logw Error "Error in sendMedia:" (logw Error "WhatsApp connection not ready" w)).
  destruct (logMediaMessageToDB_appends (Some instanceId) (Many (map number (first :: rest)))
              (text first) filePath (caption first) scheduleTime (Some FAILED) None w1)
    as (r & w2 & Hlog & Happ).
  pose proof (logMediaMessageToDB_quiet (Some instanceId)
                (Many (map number (first :: rest))) (text first) filePath
                (caption first) scheduleTime (Some FAILED) None w1) as Hq.
  rewrite Hlog in *. simpl in Hq. destruct Hq as (Hs & Ht & _).
  eexists. split; [reflexivity |]. simpl snd.
  split; [| split; [exact Hs | exact Ht]].
  simpl in Happ. rewrite length_map in Happ. exact Happ.
Qed.

End LedgerProps.

(** *** Scenarios *)

Lemma sendMessagesOneAtATime_one_row_per_message_witness :
  exists n w' added,
    sendMessagesOneAtATime flaky no_jitter
      [mkMessage "911" (Some "hi") None; mkMessage "912" None None] None me
      (Some "t1") None NoDate empty_world = (Ok n, w')
    /\ media_messages w' = media_messages empty_world ++ added
    /\ (mm_recipient <$> added) = ["911"; "912"]%string
    /\ (mm_id <$> added) = seqZ 1 2
    /\ Z.of_nat (sentRows added) <= n <= 2.
Proof.
  apply (sendMessagesOneAtATime_one_row_per_message flaky no_jitter
           [mkMessage "911" (Some "hi") None; mkMessage "912" None None] None me
           (Some "t1") None NoDate empty_world).
  - reflexivity.
  - constructor.
Defined.

Lemma sendMedia_admits_within_quota_witness :
  exists n w' added,
    sendMedia flaky no_jitter (fun _ _ => MediaRefused "unused") "t1" me
      (Some [mkMessage "911" (Some "hi") None]) None NoDate subscribed
    = (mkResponse 200 true (Processed n) (Some n), w')
    /\ media_messages w' = media_messages subscribed ++ added
    /\ (mm_recipient <$> added) = ["911"]%string
    /\ Z.of_nat (sentRows added) <= n <= 1.
Proof.
  apply (sendMedia_admits_within_quota flaky no_jitter (fun _ _ => MediaRefused "unused")
           "t1" me (mkMessage "911" (Some "hi") None) [] None NoDate
           (mkSubscription 1 "t1" 5 1000 (Some 864000000) 1000) subscribed).
  - reflexivity.
  - vm_compute. discriminate.
  - reflexivity.
  - discriminate.
  - constructor.
Defined.

Lemma sendMedia_unauthenticated_writes_failed_rows_witness :
  exists w',
    sendMedia flaky no_jitter (fun _ _ => MediaRefused "unused") "t1"
      (Some (mkSock 1 (Some (mkUser None))))
      (Some [mkMessage "911" (Some "hi") None; mkMessage "912" (Some "ho") None])
      None NoDate subscribed
    = (mkResponse 500 false (FailedToSend "WhatsApp connection not ready") None, w')
    /\ appended 2 FAILED subscribed w'
    /\ sends w' = sends subscribed /\ trace w' = trace subscribed.
Proof.
  apply (sendMedia_unauthenticated_writes_failed_rows flaky no_jitter
           (fun _ _ => MediaRefused "unused") "t1" (mkSock 1 (Some (mkUser None)))
           (mkMessage "911" (Some "hi") None) [mkMessage "912" (Some "ho") None]
           None NoDate (mkSubscription 1 "t1" 5 1000 (Some 864000000) 1000) subscribed).
  - reflexivity.
  - vm_compute. discriminate.
  - reflexivity.
  - discriminate.
  - discriminate.
Defined.

End PipelineLedgerProps.

(* ===================================================================== *)
(** ** The timeline is written once *)
(* ===================================================================== *)

Module TimelineProps.
Import Store Err Messages MessagesSpec SendSpec LedgerSpec TimelineSpec MessagesProps
  PipelineLedgerProps.
Local Open Scope list_scope.

(** *** Triples *)

Lemma triple_ret {A} (a : A) (Q : A -> World -> Prop) E : triple (Q a) (ret a) Q E.
Proof. intros w H. exact H. Qed.

Lemma triple_bind {A B} P (m : M A) Q (k : A -> M B) R E :
  triple P m Q E -> (forall a, triple (Q a) (k a) R E) -> triple P (bind m k) R E.
Proof.
  intros Hm Hk w HP. unfold bind. specialize (Hm w HP).
  destruct (m w) as [[a | e] w1]; [apply (Hk a w1 Hm) | exact Hm].
Qed.

Lemma triple_catch {A} P (m : M A) Q E1 (h : string -> M A) E :
  triple P m Q E1 -> (forall e, triple (E1 e) (h e) Q E) -> triple P (catch m h) Q E.
Proof.
  intros Hm Hh w HP. unfold catch. specialize (Hm w HP).
  destruct (m w) as [[a | e] w1]; [exact Hm | apply (Hh e w1 Hm)].
Qed.

Lemma triple_conseq {A} (P P' : World -> Prop) (m : M A) (Q Q' : A -> World -> Prop)
    (E E' : string -> World -> Prop) :
  triple P m Q E ->
  (forall w, P' w -> P w) -> (forall a w, Q a w -> Q' a w) ->
  (forall e w, E e w -> E' e w) ->
  triple P' m Q' E'.
Proof.
  intros Hm HP HQ HE w Hw. specialize (Hm w (HP w Hw)).
  destruct (m w) as [[a | e] w1]; auto.
Qed.

(** *** Rows are added at the end of the timeline *)

Lemma timeline_extended_refl w w' :
  report_time w' = report_time w -> timeline_extended w w'.
Proof. intros H. exists []. now rewrite app_nil_r. Qed.

Lemma timeline_extended_trans w1 w2 w3 :
  timeline_extended w1 w2 -> timeline_extended w2 w3 -> timeline_extended w1 w3.
Proof.
  intros [a1 H1] [a2 H2]. exists (a1 ++ a2). now rewrite H2, H1, app_assoc.
Qed.

Lemma timeline_extended_stamp w w' wa f t :
  timeline_extended w w' ->
  stamp_of wa f w = Some (Some t) -> stamp_of wa f w' = Some (Some t).
Proof.
  intros [added Hr]. unfold stamp_of, timeline_of. rewrite Hr.
  destruct (List.find _ (report_time w)) as [r |] eqn:E; [| discriminate].
  now rewrite (find_app_found _ _ _ _ E).
Qed.

Lemma find_none_Forall {A} (p : A -> bool) l :
  List.find p l = None -> Forall (fun x => p x = false) l.
Proof.
  induction l as [| x l IH]; simpl; [constructor |].
  destruct (p x) eqn:E; [discriminate |]. intros H. constructor; auto.
Qed.

(** The upsert of [migrateMessageToReportTime] leaves the rows of other
    transport ids as they are. *)
Lemma upsert_report_extends inst recipient wa f v old added :
  Forall (fun r => String.eqb (rt_whatsapp_message_id r) wa = false) old ->
  exists added', upsert_report inst recipient wa f v (old ++ added) = old ++ added'.
Proof.
  intros Hold. unfold upsert_report. destruct (existsb _ _).
  - rewrite map_app. eexists. f_equal.
    induction Hold as [| r old Hr _ IH]; [reflexivity |].
    simpl. now rewrite Hr, IH.
  - rewrite <- app_assoc. eauto.
Qed.

Lemma migrate_extends inst recipient wa st created w :
  (forall id, wa = Some id -> timeline_of id w = None) ->
  timeline_extended w (migrateMessageToReportTime inst recipient wa st created w).
Proof.
  intros Hnew. unfold migrateMessageToReportTime.
  destruct inst as [inst |], wa as [id |]; try now apply timeline_extended_refl.
  destruct (_ && _)%bool; [| now apply timeline_extended_refl].
  destruct (filter _ _) as [| r0 recipients]; [now apply timeline_extended_refl |].
  destruct (decide _); [now apply timeline_extended_refl |].
  pose proof (find_none_Forall _ _ (Hnew id eq_refl)) as Hold.
  assert (forall rs added, exists added',
            fold_left (fun rows r =>
                         upsert_report inst r id (migrateField st)
                           (default (clock w) created) rows) rs
              (report_time w ++ added) = report_time w ++ added') as Hfold.
  { induction rs as [| r rs IH]; intros added; simpl; [eauto |].
    destruct (upsert_report_extends inst r id (migrateField st)
                (default (clock w) created) _ added Hold) as [added1 ->].
    apply IH. }
  destruct (Hfold (r0 :: recipients) []) as [added Hadded].
  rewrite app_nil_r in Hadded. exists added. exact Hadded.
Qed.

(** A status update of a row without a transport id does not reach the
    timeline. *)
Lemma updateMessageStatusInDB_unstamped id st w :
  unstamped id w ->
  report_time (snd (updateMessageStatusInDB id st w)) = report_time w.
Proof.
  intros (row & rest & Hf & Hwa). unfold updateMessageStatusInDB.
  destruct (negb _); [reflexivity |].
  rewrite Hf, Hwa. now destruct (Nat.ltb _ _).
Qed.

Lemma updateMessageWithWhatsAppId_extends id wa w :
  (forall i, wa = Some i -> timeline_of i w = None) ->
  timeline_extended w (snd (updateMessageWithWhatsAppId id wa w)).
Proof.
  intros Hnew. unfold updateMessageWithWhatsAppId.
  destruct (_ || _)%bool; [now apply timeline_extended_refl |].
  destruct (filter _ _) as [| row rest]; [now apply timeline_extended_refl |].
  destruct (Nat.ltb _ _); [| now apply timeline_extended_refl].
  cbn [snd].
  match goal with
  | |- timeline_extended w (migrateMessageToReportTime _ _ _ _ _ ?w1) =>
      apply (timeline_extended_trans _ w1);
      [now apply timeline_extended_refl | apply migrate_extends; exact Hnew]
  end.
Qed.

(** *** Replaying an event through the guarded upsert *)

Lemma fillAll_key st now r :
  rt_whatsapp_message_id (fillAll st now r) = rt_whatsapp_message_id r.
Proof. unfold fillAll. now rewrite !fillOnce_key. Qed.

(** A guarded assignment does nothing for another status, or when its
    column is filled; and afterwards its column is filled, if the status
    is its own. *)
Lemma fillOnce_absorbs f s st now r :
  String.eqb st s = false \/ is_Some (get_time f r) ->
  Timeline.fillOnce f s st now r = r.
Proof.
  unfold Timeline.fillOnce. intros [-> | H]; [reflexivity |].
  rewrite bool_decide_eq_true_2 by exact H. now rewrite andb_false_r.
Qed.

Lemma fillOnce_fills f s st now r :
  String.eqb st s = false \/ is_Some (get_time f (Timeline.fillOnce f s st now r)).
Proof.
  unfold Timeline.fillOnce. destruct (String.eqb st s); [right | now left].
  case_bool_decide as H; simpl; [exact H |]. rewrite get_set_time_eq. eauto.
Qed.

Lemma fillOnce_keeps_filled f g s s' st now r :
  String.eqb st s = false \/ is_Some (get_time f r) ->
  String.eqb st s = false \/ is_Some (get_time f (Timeline.fillOnce g s' st now r)).
Proof.
  intros [H | [t H]]; [now left | right].
  rewrite (fillOnce_keeps f g s' st now r t H). eauto.
Qed.

(** What the four assignments have filled, or found filled, they leave. *)
Lemma fillAll_twice st now now' r : fillAll st now' (fillAll st now r) = fillAll st now r.
Proof.
  unfold fillAll at 1.
  rewrite (fillOnce_absorbs sent_time), (fillOnce_absorbs delivered_time),
    (fillOnce_absorbs read_time), (fillOnce_absorbs failed_time);
    [reflexivity | | | |]; unfold fillAll.
  - apply fillOnce_fills.
  - apply fillOnce_keeps_filled, fillOnce_fills.
  - do 2 apply fillOnce_keeps_filled. apply fillOnce_fills.
  - do 3 apply fillOnce_keeps_filled. apply fillOnce_fills.
Qed.

(** A row the upsert has just inserted is left as it is by the four
    assignments. *)
Lemma fillAll_inserted inst recipient wa created st now now' :
  (st = SENT -> is_Some created) ->
  fillAll st now'
    (mkReportTime inst recipient wa created
       (if String.eqb st SENT then created else None)
       (if String.eqb st DELIVERED then Some now else None)
       (if String.eqb st READ then Some now else None)
       (if String.eqb st FAILED then Some now else None))
  = mkReportTime inst recipient wa created
      (if String.eqb st SENT then created else None)
      (if String.eqb st DELIVERED then Some now else None)
      (if String.eqb st READ then Some now else None)
      (if String.eqb st FAILED then Some now else None).
Proof.
  intros Hc. unfold fillAll.
  rewrite (fillOnce_absorbs sent_time), (fillOnce_absorbs delivered_time),
    (fillOnce_absorbs read_time), (fillOnce_absorbs failed_time);
    [reflexivity | | | |]; simpl.
  - destruct (String.eqb st FAILED); eauto.
  - destruct (String.eqb st READ); eauto.
  - destruct (String.eqb st DELIVERED); eauto.
  - destruct (String.eqb st SENT) eqn:E; [right | now left].
    apply String.eqb_eq in E. auto.
Qed.

Lemma upsert_report_fillAll inst recipient wa created st now rows :
  Timeline.upsert_report inst recipient wa created st now rows
  = if existsb (fun r => String.eqb (rt_whatsapp_message_id r) wa) rows
    then map (fun r => if String.eqb (rt_whatsapp_message_id r) wa
                       then fillAll st now r else r) rows
    else rows ++ [mkReportTime inst recipient wa created
                    (if String.eqb st SENT then created else None)
                    (if String.eqb st DELIVERED then Some now else None)
                    (if String.eqb st READ then Some now else None)
                    (if String.eqb st FAILED then Some now else None)].
Proof. reflexivity. Qed.

Lemma guarded_upsert_twice inst recipient wa created st now now' rows :
  (st = SENT -> is_Some created) ->
  Timeline.upsert_report inst recipient wa created st now'
    (Timeline.upsert_report inst recipient wa created st now rows)
  = Timeline.upsert_report inst recipient wa created st now rows.
Proof.
  intros Hc. rewrite (upsert_report_fillAll _ _ _ _ _ now rows).
  destruct (existsb _ rows) eqn:E.
  - rewrite upsert_report_fillAll.
    assert (existsb (fun r => String.eqb (rt_whatsapp_message_id r) wa)
              (map (fun r => if String.eqb (rt_whatsapp_message_id r) wa
                             then fillAll st now r else r) rows) = true) as ->.
    { rewrite existsb_exists in *. destruct E as (r & Hin & Hr).
      exists (fillAll st now r). split.
      - apply in_map_iff. exists r. now rewrite Hr.
      - now rewrite fillAll_key. }
    rewrite map_map. apply map_ext. intros r.
    destruct (String.eqb (rt_whatsapp_message_id r) wa) eqn:Er.
    + rewrite fillAll_key, Er. apply (fillAll_twice st now now' r).
    + now rewrite Er.
  - rewrite upsert_report_fillAll.
    rewrite existsb_app. simpl. rewrite String.eqb_refl, orb_true_r. simpl.
    rewrite map_app. simpl. rewrite String.eqb_refl.
    f_equal.
    + clear Hc. induction rows as [| r rows IH]; [reflexivity |].
      simpl in E. apply orb_false_iff in E as [Er E]. simpl. now rewrite Er, IH.
    + f_equal. now apply (fillAll_inserted inst recipient wa created st now now').
Qed.

Lemma filter_update_status id st rows :
  filter (fun r => mm_id r = id) (update_status id st rows)
  = map (with_status st) (filter (fun r => mm_id r = id) rows).
Proof.
  unfold update_status. induction rows as [| r rows IH]; [reflexivity |].
  simpl. destruct (Z.eqb_spec (mm_id r) id) as [E | E].
  - rewrite !filter_cons_True by (simpl; assumption). simpl. now rewrite IH.
  - rewrite !filter_cons_False by assumption. exact IH.
Qed.

Lemma matched_update_status id st rows :
  matched id (update_status id st rows) = matched id rows.
Proof. unfold matched. now rewrite filter_update_status, length_map. Qed.

(** The same event, applied again in a world that holds what the first
    application left, leaves the timeline as it is. *)
Lemma tracker_replay_valid id st w w2 :
  Js.includes st UpdateStatus.MESSAGE_STATUS_values = true ->
  dated id w ->
  media_messages w2 = media_messages (snd (Timeline.updateMessageStatusInDB id st w)) ->
  report_time w2 = report_time (snd (Timeline.updateMessageStatusInDB id st w)) ->
  report_time (snd (Timeline.updateMessageStatusInDB id st w2))
  = report_time (snd (Timeline.updateMessageStatusInDB id st w)).
Proof.
  intros Hv Hdated. unfold Timeline.updateMessageStatusInDB. rewrite Hv.
  destruct (filter (fun r => mm_id r = id) (media_messages w)) as [| row rest] eqn:Ef.
  { simpl. intros Hm2 Hr2. rewrite Hm2, Ef. exact Hr2. }
  assert (is_Some (mm_created_at row)) as Hcreated.
  { assert (row ∈ filter (fun r => mm_id r = id) (media_messages w)) as Hin
      by (rewrite Ef; left).
    apply list_elem_of_filter in Hin as [Hid Hin]. exact (Hdated row Hin Hid). }
  destruct (mm_whatsapp_message_id row) as [wa |] eqn:Hwa.
  2: { simpl. intros Hm2 Hr2. rewrite Hm2, filter_update_status, Ef. simpl.
       rewrite Hwa. exact Hr2. }
  destruct (Js.truthy (Some wa) && Nat.ltb 0 (matched id (media_messages w)))%bool
    eqn:Eb.
  2: { simpl. intros Hm2 Hr2. rewrite Hm2, filter_update_status, Ef. simpl.
       simpl in Eb. rewrite Hwa, matched_update_status, Eb. exact Hr2. }
  destruct (mm_instance_id row) as [inst |] eqn:Hinst.
  2: { simpl. intros Hm2 Hr2. simpl in Eb. rewrite Hm2, Ef, Hwa, Eb, Hinst.
       exact Hr2. }
  simpl. intros Hm2 Hr2. rewrite Hm2, filter_update_status, Ef. simpl.
  simpl in Eb. rewrite Hwa, matched_update_status, Eb, Hinst. simpl. rewrite Hr2.
  apply guarded_upsert_twice. intros _. exact Hcreated.
Qed.

Lemma tracker_invalid id st w :
  Js.includes st UpdateStatus.MESSAGE_STATUS_values = false ->
  Timeline.updateMessageStatusInDB id st w
  = Timeline.updateMessageStatusInDB id SENT
      (logw Warn "Invalid message status, defaulting to 'sent'" w).
Proof. intros Hv. unfold Timeline.updateMessageStatusInDB. now rewrite Hv. Qed.

Lemma tracker_replay id st w d :
  dated id w ->
  report_time
    (snd (Timeline.updateMessageStatusInDB id st
            (sleep d (snd (Timeline.updateMessageStatusInDB id st w)))))
  = report_time (snd (Timeline.updateMessageStatusInDB id st w)).
Proof.
  intros Hdated.
  destruct (Js.includes st UpdateStatus.MESSAGE_STATUS_values) eqn:Hv.
  - now apply tracker_replay_valid.
  - rewrite !(tracker_invalid id st) by exact Hv.
    now apply tracker_replay_valid.
Qed.

Section Pipeline.

Variable transport : nat -> string -> Content -> SendOutcome.
Variable jitter : nat -> Z.

Lemma guardedSend_pending w0 jid c id what :
  triple (pendingSend w0 id) (guardedSend transport jid c id what)
    (fun _ => pendingSend w0 id) (fun _ w => report_time w = report_time w0).
Proof.
  unfold guardedSend.
  apply (triple_catch _ _ _ (fun _ => pendingSend w0 id)).
  - apply (triple_bind _ _ (fun _ => pendingSend w0 id)).
    + intros w [Hr Hu].
      pose proof (sendWithRetry_same_store transport jid c 0 w) as (Hm & _ & Hr1 & _).
      destruct (sendWithRetry transport jid c 0 w) as [[a | e] w1]; simpl in *;
        (split; [congruence |]); unfold unstamped; now rewrite Hm.
    + intros [keyId |] w H; exact H.
  - intros e w [Hr Hu]. unfold bind, lift, throw.
    pose proof (updateMessageStatusInDB_unstamped id FAILED (logw Error what w) Hu) as H.
    destruct (updateMessageStatusInDB id FAILED (logw Error what w)) as [[[] | e'] w1];
      simpl in *; congruence.
Qed.

Lemma sendAll_pending w0 jid id contents : forall last,
  triple (pendingSend w0 id) (sendAll transport jid id contents last)
    (fun _ => pendingSend w0 id) (fun _ w => report_time w = report_time w0).
Proof.
  induction contents as [| c rest IH]; intros last; cbn [sendAll].
  - intros w H. exact H.
  - apply (triple_bind _ _ (fun _ => pendingSend w0 id)); [| exact IH].
    apply guardedSend_pending.
Qed.

(** One turn of the send loop adds rows to the timeline, at most: the rows
    that are there stay as they are, when the transport id the turn ends
    with has no row yet. *)
Lemma processMessage_extends message mediaPayload instanceId filePath scheduleTime
    w res w' :
  fresh w ->
  processMessage transport jitter message mediaPayload instanceId filePath
    scheduleTime w = (res, w') ->
  (forall id, res = Ok (Some id) -> timeline_of id w = None) ->
  timeline_extended w w'.
Proof.
  intros Hfresh Hrun Hnew.
  destruct (processMessage_sendAll transport jitter message mediaPayload instanceId
              filePath scheduleTime w)
    as (w3 & _ & Hr3 & (row & Hm3 & Hid & Hwa) & Heq).
  rewrite Heq in Hrun. clear Heq.
  assert (pendingSend w (next_insert_id w) w3) as Hpending.
  { split; [exact Hr3 |]. exists row, []. split; [| exact Hwa].
    rewrite Hm3, filter_app, filter_none, filter_cons_True; [reflexivity | exact Hid |].
    intros r Hr E. unfold fresh in Hfresh. rewrite Forall_forall in Hfresh.
    specialize (Hfresh r Hr). lia. }
  match type of Hrun with
  | ?m w3 = _ =>
      assert (triple (pendingSend w (next_insert_id w)) m
                (fun wa w5 => (forall id, wa = Some id -> timeline_of id w = None) ->
                              timeline_extended w w5)
                (fun _ w5 => report_time w5 = report_time w)) as Htriple
  end.
  { apply (triple_bind _ _ (fun _ => pendingSend w (next_insert_id w)));
      [apply sendAll_pending |].
    intros wa w5 [Hr5 _]. unfold bind, lift, liftv, ret.
    pose proof (updateMessageWithWhatsAppId_extends (next_insert_id w) wa
                  (sleep (getRandomDelay jitter w5) w5)) as Hext.
    destruct (updateMessageWithWhatsAppId _ _ _) as [b w6]. cbn [snd] in Hext.
    intros Hfree. apply (timeline_extended_trans _ (sleep (getRandomDelay jitter w5) w5)).
    - apply timeline_extended_refl. exact Hr5.
    - apply Hext. intros i Hi. unfold timeline_of. simpl. rewrite Hr5.
      exact (Hfree i Hi). }
  specialize (Htriple w3 Hpending). rewrite Hrun in Htriple.
  destruct res as [wa | e].
  - apply Htriple. intros id ->. now apply Hnew.
  - now apply timeline_extended_refl.
Qed.

(** C2: the timeline is written once by every update the program applies
    to it.  Status updates reach the timeline through the status tracker
    of updateStatus.js, whose upsert guards each column: a timestamp that
    is set is still there, unchanged, after any further status update, for
    every transport id and every column; and the same event applied again,
    any time later, leaves the whole timeline as it is (the ledger row
    having its creation time).  The functions of messages.js are called
    from the send loop only: [updateMessageStatusInDB] with 'failed', for
    the row the turn has just inserted, which has no transport id, and
    [updateMessageWithWhatsAppId] with the id the transport has just handed
    out.  When the ledger ids are below the insert counter and that id has
    no timeline row yet, a turn of the loop only adds rows at the end of
    the timeline, so that every timestamp that is set stays as it is. *)
Theorem timeline_written_once_by_every_update :
  (forall id st w r w' wa f t,
     Timeline.updateMessageStatusInDB id st w = (r, w') ->
     stamp_of wa f w = Some (Some t) ->
     stamp_of wa f w' = Some (Some t))
  /\ (forall id st w d,
        dated id w ->
        report_time
          (snd (Timeline.updateMessageStatusInDB id st
                  (sleep d (snd (Timeline.updateMessageStatusInDB id st w)))))
        = report_time (snd (Timeline.updateMessageStatusInDB id st w)))
  /\ (forall message mediaPayload instanceId filePath scheduleTime w res w',
        fresh w ->
        processMessage transport jitter message mediaPayload instanceId filePath
          scheduleTime w = (res, w') ->
        (forall id, res = Ok (Some id) -> timeline_of id w = None) ->
        timeline_extended w w'
        /\ forall wa f t,
             stamp_of wa f w = Some (Some t) -> stamp_of wa f w' = Some (Some t)).
Proof.
  split; [| split].
  - intros id st w r w' wa f t Hrun H.
    unfold Timeline.updateMessageStatusInDB in Hrun.
    unfold stamp_of, timeline_of in *.
    destruct (Js.includes st UpdateStatus.MESSAGE_STATUS_values); simpl in Hrun;
      (destruct (filter _ _) as [| row rows];
       [ injection Hrun as _ <-; exact H |];
       destruct (mm_whatsapp_message_id row) as [wa0 |];
       [| injection Hrun as _ <-; exact H];
       destruct (_ && _)%bool; [| injection Hrun as _ <-; exact H];
       destruct (mm_instance_id row); injection Hrun as _ <-; simpl;
       [ now apply guarded_upsert_keeps | exact H ]).
  - intros id st w d Hdated. now apply tracker_replay.
  - intros message mediaPayload instanceId filePath scheduleTime w res w'
      Hfresh Hrun Hnew.
    pose proof (processMessage_extends _ _ _ _ _ _ _ _ Hfresh Hrun Hnew) as Hext.
    split; [exact Hext |].
    intros wa f t. now apply timeline_extended_stamp.
Qed.

End Pipeline.

Lemma timeline_written_once_by_every_update_witness :
  stamp_of "WA1" sent_time
    (snd (Timeline.updateMessageStatusInDB 1 SENT replay_world)) = Some (Some 1000)
  /\ report_time
       (snd (Timeline.updateMessageStatusInDB 1 READ
               (sleep 60000 (snd (Timeline.updateMessageStatusInDB 1 READ replay_world)))))
     = report_time (snd (Timeline.updateMessageStatusInDB 1 READ replay_world))
  /\ stamp_of "WA1" delivered_time
       (snd (processMessage flaky no_jitter (mkMessage "911" (Some "hi") None) None
               (Some "t1") None NoDate replay_world)) = Some (Some 2000).
Proof.
  destruct (timeline_written_once_by_every_update flaky no_jitter)
    as (Hkeep & Hreplay & Hloop).
  split; [| split].
  2: { apply (Hreplay 1 READ replay_world 60000).
       intros row Hin _. apply list_elem_of_singleton in Hin. subst row.
       eexists. reflexivity. }
  - apply (Hkeep 1 SENT replay_world
             (fst (Timeline.updateMessageStatusInDB 1 SENT replay_world))
             (snd (Timeline.updateMessageStatusInDB 1 SENT replay_world))
             "WA1"%string sent_time 1000); reflexivity.
  - destruct (Hloop (mkMessage "911" (Some "hi") None) None (Some "t1"%string) None
                NoDate replay_world (Ok (Some "WA7"%string))
                (snd (processMessage flaky no_jitter (mkMessage "911" (Some "hi") None)
                        None (Some "t1"%string) None NoDate replay_world)))
      as (_ & Hstamp).
    + repeat constructor.
    + vm_compute. reflexivity.
    + intros id [= <-]. reflexivity.
    + apply Hstamp. reflexivity.
Defined.

End TimelineProps.

(* ===================================================================== *)
(** ** What an admitted batch costs *)
(* ===================================================================== *)

Module ChargeProps.
Import Store Err Messages MessagesSpec LedgerSpec MessagesProps PipelineLedgerProps.
Local Open Scope list_scope.

(** *** The clock never goes back *)

Lemma bind_later_val {A B} (P : A -> Prop) (m : M A) (k : A -> M B) :
  (forall w, clock w <= clock (snd (m w))) ->
  (forall w a, fst (m w) = Ok a -> P a) ->
  (forall a, P a -> forall w, clock w <= clock (snd (k a w))) ->
  forall w, clock w <= clock (snd (bind m k w)).
Proof.
  intros Hm HP Hk w. unfold bind. specialize (Hm w). specialize (HP w).
  destruct (m w) as [[a | e] w1]; simpl in *; [| exact Hm].
  specialize (Hk a (HP a eq_refl) w1). lia.
Qed.

Lemma bind_later {A B} (m : M A) (k : A -> M B) :
  (forall w, clock w <= clock (snd (m w))) ->
  (forall a w, clock w <= clock (snd (k a w))) ->
  forall w, clock w <= clock (snd (bind m k w)).
Proof.
  intros Hm Hk. apply (bind_later_val (fun _ => True)); auto.
Qed.

Lemma catch_later {A} (m : M A) (h : string -> M A) :
  (forall w, clock w <= clock (snd (m w))) ->
  (forall e w, clock w <= clock (snd (h e w))) ->
  forall w, clock w <= clock (snd (catch m h w)).
Proof.
  intros Hm Hh w. unfold catch. specialize (Hm w).
  destruct (m w) as [[a | e] w1]; simpl in *; [exact Hm |].
  specialize (Hh e w1). lia.
Qed.

Lemma only_logs_clock w w' : only_logs w w' -> clock w' = clock w.
Proof. intros H. now destruct (only_logs_tables _ _ H) as (_ & _ & _ & Hc & _). Qed.

Lemma migrate_clock inst recipient wa st created w :
  clock (migrateMessageToReportTime inst recipient wa st created w) = clock w.
Proof.
  unfold migrateMessageToReportTime.
  destruct inst, wa; try reflexivity.
  destruct (_ && _)%bool; [| reflexivity].
  destruct (filter _ _); [reflexivity |].
  now destruct (decide _).
Qed.

Lemma updateMessageStatusInDB_clock id st w :
  clock (snd (updateMessageStatusInDB id st w)) = clock w.
Proof.
  unfold updateMessageStatusInDB.
  destruct (negb _); [reflexivity |].
  destruct (filter _ _) as [| row rest]; [reflexivity |].
  destruct (Nat.ltb _ _); [| reflexivity].
  destruct (mm_whatsapp_message_id row) as [wa |]; [| reflexivity].
  destruct (statusField st); [| reflexivity].
  destruct (Js.truthy _); [| reflexivity].
  destruct (existsb _ _); [reflexivity |].
  cbn [snd]. now rewrite migrate_clock.
Qed.

Lemma updateMessageWithWhatsAppId_clock id wa w :
  clock (snd (updateMessageWithWhatsAppId id wa w)) = clock w.
Proof.
  unfold updateMessageWithWhatsAppId.
  destruct (_ || _)%bool; [reflexivity |].
  destruct (filter _ _) as [| row rest]; [reflexivity |].
  destruct (Nat.ltb _ _); [| reflexivity].
  cbn [snd]. now rewrite migrate_clock.
Qed.

Section Charge.

Variable transport : nat -> string -> Content -> SendOutcome.
Variable jitter : nat -> Z.
Variable readMedia : string -> option string -> MediaOutcome.

Hypothesis jitter_nonneg : forall n, 0 <= jitter n.

Lemma sendWithRetry_left_later left jid c :
  forall w, clock w <= clock (snd (sendWithRetry_left transport left jid c w)).
Proof.
  induction left as [| left IH]; simpl; apply catch_later.
  - intros w. unfold sock_sendMessage. now destruct (transport _ _ _).
  - intros e w. reflexivity.
  - intros w. unfold sock_sendMessage. now destruct (transport _ _ _).
  - intros e. destruct (String.eqb e "Timed Out"); [| intros w; reflexivity].
    apply bind_later; [| intros _; exact IH].
    intros w. unfold lift, RETRY_DELAY. simpl. lia.
Qed.

Lemma guardedSend_later jid c dbId what :
  forall w, clock w <= clock (snd (guardedSend transport jid c dbId what w)).
Proof.
  unfold guardedSend. apply catch_later.
  - apply bind_later; [apply sendWithRetry_left_later |].
    intros [id |] w; reflexivity.
  - intros e. apply bind_later; [intros w; reflexivity |]. intros _.
    apply bind_later; [| intros _ w; reflexivity].
    intros w. now rewrite updateMessageStatusInDB_clock.
Qed.

Lemma liftv_replacePlaceholders_later text phone inst :
  forall w, clock w <= clock (snd (liftv (replacePlaceholders text phone inst) w)).
Proof.
  intros w. unfold liftv.
  pose proof (only_logs_clock _ _ (replacePlaceholders_only_logs text phone inst w)) as H.
  destruct (replacePlaceholders text phone inst w). simpl in *. lia.
Qed.

Lemma processMessage_later message mediaPayload instanceId filePath scheduleTime :
  forall w,
    clock w <= clock (snd (processMessage transport jitter message mediaPayload
                             instanceId filePath scheduleTime w)).
Proof.
  unfold processMessage.
  apply bind_later; [apply liftv_replacePlaceholders_later | intros pt].
  apply bind_later; [apply liftv_replacePlaceholders_later | intros pc].
  apply bind_later.
  { intros w.
    match goal with
    | |- context [logMediaMessageToDB ?a (Many [?n]) ?m ?md ?cp ?sc _ _ w] =>
        destruct (logMediaMessageToDB_single_row a n m md cp sc w)
          as (w3 & row0 & -> & _ & _ & _ & _ & _ & _ & _ & Hc & _)
    end.
    simpl. lia. }
  intros inserted.
  apply bind_later.
  { destruct mediaPayload; [apply guardedSend_later | intros w; reflexivity]. }
  intros afterMedia.
  apply bind_later.
  { destruct (Js.truthy pt); [apply guardedSend_later | intros w; reflexivity]. }
  intros wa.
  apply (bind_later_val (fun d => 0 <= d)); [intros w; reflexivity | |].
  { intros w d [= <-]. unfold getRandomDelay. specialize (jitter_nonneg (length (trace w))).
    lia. }
  intros randomDelay Hd.
  apply bind_later.
  { intros w. unfold lift. simpl. lia. }
  intros _.
  apply bind_later; [| intros _ w; reflexivity].
  intros w. unfold liftv.
  pose proof (updateMessageWithWhatsAppId_clock (insertedId inserted) wa w) as H.
  destruct (updateMessageWithWhatsAppId _ _ w). simpl in *. lia.
Qed.

(** One turn of the loop adds a row of the tenant, created at the time the
    turn began. *)
Lemma sendOne_charge mediaPayload instanceId filePath scheduleTime n0 w message :
  fresh w ->
  exists n w' row,
    sendOne transport jitter mediaPayload instanceId filePath scheduleTime (n0, w) message
    = (n, w')
    /\ media_messages w' = media_messages w ++ [row]
    /\ next_insert_id w' = next_insert_id w + 1
    /\ mm_instance_id row = Js.orNull instanceId
    /\ mm_created_at row = Some (clock w)
    /\ clock w <= clock w'.
Proof.
  intros Hfresh. unfold sendOne.
  pose proof (processMessage_later message mediaPayload instanceId filePath
                scheduleTime w) as Hlater.
  destruct (processMessage transport jitter message mediaPayload instanceId filePath
              scheduleTime w) as [res w1] eqn:Erun.
  destruct (processMessage_net _ _ _ _ _ _ _ _ _ _ Erun)
    as (w3 & row0 & st & Hm3 & Hid & _ & _ & Hi0 & Hc0 & Hn3 & Hnet & _).
  destruct (net_on_fresh_row _ _ _ _ _ _ Hm3 Hfresh Hid Hnet)
    as (row & Hm1 & _ & _ & _ & Hi1 & Hc1).
  destruct Hnet as [Hn1 _]. simpl in Hlater.
  destruct res as [wa | e]; do 2 eexists; exists row;
    (split; [reflexivity |]); simpl; repeat split; congruence || lia.
Qed.

Lemma sendOne_fold_charge mediaPayload instanceId filePath scheduleTime messages :
  forall n0 w,
    fresh w ->
    exists n w' added,
      fold_left (sendOne transport jitter mediaPayload instanceId filePath scheduleTime)
        messages (n0, w) = (n, w')
      /\ media_messages w' = media_messages w ++ added
      /\ length added = length messages
      /\ clock w <= clock w'
      /\ Forall (fun row => mm_instance_id row = Js.orNull instanceId
                            /\ exists c, mm_created_at row = Some c
                                         /\ clock w <= c <= clock w') added.
Proof.
  induction messages as [| message rest IH]; intros n0 w Hfresh.
  - exists n0, w, []. simpl. rewrite app_nil_r. repeat split; auto; lia.
  - destruct (sendOne_charge mediaPayload instanceId filePath scheduleTime n0 w message
                Hfresh) as (n1 & w1 & row & Hstep & Hm1 & Hn1 & Hi & Hc & Hl1).
    assert (fresh w1) as Hfresh1.
    { unfold fresh. rewrite Hm1, Hn1. apply Forall_app. split.
      - eapply Forall_impl; [exact Hfresh |]. simpl. intros r Hr. lia.
      - constructor; [| constructor].
        destruct (sendOne_ledger transport jitter mediaPayload instanceId filePath
                    scheduleTime n0 w message Hfresh)
          as (n1' & w1' & row' & Hstep' & Hm1' & Hid' & _).
        rewrite Hstep in Hstep'. injection Hstep' as _ <-.
        rewrite Hm1 in Hm1'. apply app_inv_head in Hm1'. injection Hm1' as <-. lia. }
    destruct (IH n1 w1 Hfresh1) as (n & w' & added & Hfold & Hm & Hlen & Hl & Hall).
    exists n, w', (row :: added). cbn [fold_left]. rewrite Hstep, Hfold.
    split; [reflexivity |]. split; [rewrite Hm, Hm1, <- app_assoc; reflexivity |].
    split; [simpl; now rewrite Hlen |]. split; [lia |].
    constructor.
    + split; [exact Hi |]. exists (clock w). split; [exact Hc | lia].
    + eapply Forall_impl; [exact Hall |]. simpl.
      intros r (Hri & c & Hrc & Hb). split; [exact Hri |]. exists c. split; [exact Hrc | lia].
Qed.

(** Rows of the tenant created inside the window of the subscription are
    counted, each once. *)
Lemma messagesInWindow_app instanceId sub e w w' added :
  sub_date_expiry sub = Some e ->
  media_messages w' = media_messages w ++ added ->
  Forall (fun row => mm_instance_id row = Some instanceId
                     /\ exists c, mm_created_at row = Some c
                                  /\ sub_date_purchased sub <= c <= e
                                  /\ sub_created_at sub <= c) added ->
  messagesInWindow instanceId sub w'
  = messagesInWindow instanceId sub w + Z.of_nat (length added).
Proof.
  intros He Hm Hall. unfold messagesInWindow. rewrite Hm, He. clear Hm. cbn [default from_option id].
  rewrite List.filter_app, length_app, Nat2Z.inj_add. do 2 f_equal.
  induction Hall as [| row added (Hi & c & Hc & Hb & Hs) _ IH]; [reflexivity |].
  simpl. rewrite Hc, bool_decide_eq_true_2 by exact Hi.
  assert (Z.leb (sub_date_purchased sub) c = true) as -> by (apply Z.leb_le; lia).
  assert (Z.leb c e = true) as -> by (apply Z.leb_le; lia).
  assert (Z.leb (sub_created_at sub) c = true) as -> by (apply Z.leb_le; lia).
  simpl. now rewrite IH.
Qed.

(** X26: a batch answered with 200 is charged in full.  When the ledger
    ids are below the insert counter, the tenant id is not empty, the
    subscription the gate picks was bought and recorded by now and the loop
    ends before it expires, the messages left on the subscription go down
    by the size of the batch, whatever the transport did with each
    message: a message that failed costs as much as one that was sent. *)
Theorem admitted_batch_is_charged_in_full
    (instanceId : string) (sock : option Sock) (batch : list Message)
    (filePath : option string) (scheduleTime : DateArg) (sub : Subscription)
    (e : Z) (w w' : World) (r : Response) :
  fresh w ->
  instanceId <> ""%string ->
  activeSubscription instanceId w = Some sub ->
  sub_date_expiry sub = Some e ->
  sub_date_purchased sub <= clock w ->
  sub_created_at sub <= clock w ->
  sendMedia transport jitter readMedia instanceId sock (Some batch) filePath
    scheduleTime w = (r, w') ->
  http_status r = 200 ->
  clock w' <= e ->
  messagesRemaining instanceId sub w'
  = messagesRemaining instanceId sub w - Z.of_nat (length batch).
Proof.
  intros Hfresh Hinst Hsub He Hp Hs Hrun H200 Hend.
  unfold sendMedia in Hrun. destruct batch as [| first rest]; [now inversion Hrun; subst |].
  rewrite Hsub in Hrun.
  destruct (Z.leb _ 0); [now inversion Hrun; subst |].
  destruct (Z.ltb _ _); [now inversion Hrun; subst |].
  destruct sock as [sk |]; [| now inversion Hrun; subst].
  match type of Hrun with
  | context [match ?m with inl _ => _ | inr _ => _ end] =>
      destruct m as [why | mediaPayload]
  end; [now inversion Hrun; subst |].
  unfold sendMessagesOneAtATime in Hrun.
  destruct (connected (Some sk)).
  2: { destruct (Js.truthy (Some instanceId)); inversion Hrun; subst; discriminate. }
  destruct (sendOne_fold_charge mediaPayload (Some instanceId) filePath scheduleTime
              (first :: rest) 0 w Hfresh)
    as (n & w1 & added & Hfold & Hm & Hlen & Hl & Hall).
  rewrite Hfold in Hrun. injection Hrun as _ <-.
  unfold messagesRemaining.
  rewrite (messagesInWindow_app instanceId sub e w w1 added He Hm), Hlen; [lia |].
  eapply Forall_impl; [exact Hall |]. simpl.
  intros row (Hri & c & Hrc & Hb). split.
  - rewrite Hri. unfold Js.orNull. destruct instanceId; [contradiction | reflexivity].
  - exists c. split; [exact Hrc | lia].
Qed.

End Charge.

Lemma admitted_batch_is_charged_in_full_witness :
  messagesRemaining "t1" (mkSubscription 1 "t1" 5 1000 (Some 864000000) 1000)
    (snd (sendMedia flaky no_jitter (fun _ _ => MediaRefused "unused") "t1" me
            (Some [mkMessage "911" (Some "hi") None; mkMessage "912" None None])
            None NoDate subscribed))
  = 5 - 2.
Proof.
  apply (admitted_batch_is_charged_in_full flaky no_jitter
           (fun _ _ => MediaRefused "unused")
           (fun _ => Z.le_refl 0) "t1" me
           [mkMessage "911" (Some "hi") None; mkMessage "912" None None]
           None NoDate (mkSubscription 1 "t1" 5 1000 (Some 864000000) 1000)
           864000000 subscribed _
           (fst (sendMedia flaky no_jitter (fun _ _ => MediaRefused "unused") "t1" me
                   (Some [mkMessage "911" (Some "hi") None; mkMessage "912" None None])
                   None NoDate subscribed))).
  - constructor.
  - discriminate.
  - reflexivity.
  - reflexivity.
  - vm_compute. discriminate.
  - vm_compute. discriminate.
  - now destruct (sendMedia _ _ _ _ _ _ _ _ _).
  - vm_compute. reflexivity.
  - vm_compute. discriminate.
Defined.

End ChargeProps.

(* ===================================================================== *)
(** ** From the send loop to the receipt handler *)
(* ===================================================================== *)

Module TrackingProps.
Import Store Err Messages MessagesSpec LedgerSpec MessagesProps PipelineLedgerProps.
Local Open Scope list_scope.

Lemma stamped_fresh id wa old row0 :
  Forall (fun r => mm_id r < id) old ->
  mm_id row0 = id ->
  stamped id wa (old ++ [row0]) = old ++ [with_status_and_wa SENT wa row0].
Proof.
  intros Hold Hid. unfold stamped. rewrite map_app. simpl.
  rewrite Hid, Z.eqb_refl. f_equal. apply map_id_absent, filter_none.
  intros r Hr. rewrite Forall_forall in Hold. specialize (Hold r Hr). lia.
Qed.

Lemma update_status_fresh id st old row :
  Forall (fun r => mm_id r < id) old ->
  mm_id row = id ->
  update_status id st (old ++ [row]) = old ++ [with_status st row].
Proof.
  intros Hold Hid. unfold update_status. rewrite map_app. simpl.
  rewrite Hid, Z.eqb_refl. f_equal. apply map_id_absent, filter_none.
  intros r Hr. rewrite Forall_forall in Hold. specialize (Hold r Hr). lia.
Qed.

Section Tracking.

Variable transport : nat -> string -> Content -> SendOutcome.
Variable jitter : nat -> Z.

(** X25: a message the [try] block of the send loop gets through, with the
    transport id [wa], can be followed by its receipts.  When the ledger
    ids are below the insert counter, the counter is positive, the tenant
    and the transport id are not empty and no row of the tenant carries
    the transport id yet, the block leaves one new row, 'sent' and stamped
    with [wa]; the lookup of the status tracker then resolves [wa] to that
    row, and a receipt for [wa] rewrites the status of that row and of no
    other: 'read' for a read receipt, 'delivered' for any other. *)
Theorem sent_message_is_tracked
    (message : Message) (mediaPayload : option MediaPayload) (inst : string)
    (filePath : option string) (scheduleTime : DateArg) (wa : string) (w w' : World) :
  fresh w ->
  0 < next_insert_id w ->
  inst <> ""%string ->
  wa <> ""%string ->
  (forall r, r ∈ media_messages w -> mm_instance_id r = Some inst ->
             mm_whatsapp_message_id r <> Some wa) ->
  processMessage transport jitter message mediaPayload (Some inst) filePath
    scheduleTime w = (Ok (Some wa), w') ->
  exists row,
    media_messages w' = media_messages w ++ [row]
    /\ mm_id row = next_insert_id w
    /\ mm_recipient row = number message
    /\ mm_message_status row = SENT
    /\ mm_whatsapp_message_id row = Some wa
    /\ UpdateStatus.getDatabaseId inst (Some wa) w' = (true, Some (next_insert_id w))
    /\ forall type remoteJid,
         media_messages
           (UpdateStatus.onReceipt inst
              (UpdateStatus.mkReceiptUpdate
                 (Some (UpdateStatus.mkKey (Some wa) remoteJid)) (Some type)) w')
         = media_messages w
           ++ [with_status (if bool_decide (type = Some "read"%string)
                            then READ else DELIVERED) row].
Proof.
  intros Hfresh Hpos Hinst Hwa Hnew Hrun.
  destruct (processMessage_net _ _ _ _ _ _ _ _ _ _ Hrun)
    as (w3 & row0 & st & Hm3 & Hid & Hrcp & _ & Hi0 & _ & _ & _ & Hout).
  destruct Hout as [_ Hrows].
  assert (Js.truthy (Some wa) = true) as Htr.
  { destruct wa; [contradiction | reflexivity]. }
  rewrite Hrows by (auto; lia). rewrite Hm3, (stamped_fresh _ _ _ _ Hfresh Hid).
  set (row := with_status_and_wa SENT (Some wa) row0).
  assert (mm_instance_id row = Some inst) as Hi.
  { simpl. rewrite Hi0. unfold Js.orNull.
    destruct inst; [contradiction | reflexivity]. }
  assert (UpdateStatus.getDatabaseId inst (Some wa) w' = (true, Some (next_insert_id w)))
    as Hfind.
  { unfold UpdateStatus.getDatabaseId. rewrite Hrows by (auto; lia).
    rewrite Hm3, (stamped_fresh _ _ _ _ Hfresh Hid). fold row.
    rewrite filter_app, filter_none, filter_cons_True.
    - simpl. now rewrite Hid.
    - split; [exact Hi |]. split; [now exists wa | reflexivity].
    - intros r Hr (Hri & _ & Hrw). exact (Hnew r Hr Hri Hrw). }
  exists row. repeat split; auto.
  intros type remoteJid. unfold UpdateStatus.onReceipt. cbn [UpdateStatus.rcp_key
    UpdateStatus.key_id UpdateStatus.rcp_receipt]. rewrite Hfind.
  unfold UpdateStatus.updateMessageStatusInDB.
  assert (Js.includes (if bool_decide (type = Some "read"%string) then READ else DELIVERED)
            UpdateStatus.MESSAGE_STATUS_values = true) as ->
    by (destruct (bool_decide _); reflexivity).
  rewrite Hrows by (auto; lia). rewrite Hm3, (stamped_fresh _ _ _ _ Hfresh Hid).
  fold row.
  destruct (Nat.ltb _ _); simpl; now apply update_status_fresh.
Qed.

End Tracking.

Lemma sent_message_is_tracked_witness :
  exists row,
    media_messages
      (snd (processMessage flaky no_jitter (mkMessage "911" (Some "hi") None) None
              (Some "t1") None NoDate empty_world))
    = media_messages empty_world ++ [row]
    /\ mm_message_status row = SENT
    /\ mm_whatsapp_message_id row = Some "WA7"%string
    /\ UpdateStatus.getDatabaseId "t1" (Some "WA7"%string)
         (snd (processMessage flaky no_jitter (mkMessage "911" (Some "hi") None) None
                 (Some "t1") None NoDate empty_world))
       = (true, Some 1).
Proof.
  destruct (sent_message_is_tracked flaky no_jitter (mkMessage "911" (Some "hi") None)
              None "t1" None NoDate "WA7" empty_world
              (snd (processMessage flaky no_jitter (mkMessage "911" (Some "hi") None)
                      None (Some "t1") None NoDate empty_world)))
    as (row & Hm & _ & _ & Hst & Hw & Hfind & _).
  - constructor.
  - reflexivity.
  - discriminate.
  - discriminate.
  - intros r Hr. inversion Hr.
  - vm_compute. reflexivity.
  - exists row. repeat split; assumption.
Defined.

End TrackingProps.

(* ===================================================================== *)
(** ** The send loop of the earlier messages.js *)
(* ===================================================================== *)

Module LegacyPipelineProps.
Import Store Err Messages MessagesSpec LedgerSpec MessagesProps PipelineLedgerProps.
Local Open Scope list_scope.

Lemma legacy_updateMessageStatusInDB_net id st w :
  Js.includes st validMessageStatus = true ->
  fst (LegacyPipeline.updateMessageStatusInDB id st w) = Ok tt
  /\ net id (Some st) w (snd (LegacyPipeline.updateMessageStatusInDB id st w)).
Proof.
  intros Hv. unfold LegacyPipeline.updateMessageStatusInDB. rewrite Hv. simpl.
  assert (net id (Some st) w
            (set_media_messages (update_status id st (media_messages w)) w)) as Hup
    by (apply (net_rewrite id st (with_status st));
        [apply with_status_as_wa | reflexivity | reflexivity]).
  destruct (Nat.ltb 0 (matched id (media_messages w))); simpl.
  - split; [reflexivity | exact Hup].
  - split; [reflexivity |].
    apply (net_trans id (Some st) None _ _ _ Hup).
    apply net_only_logs, only_logs_logw.
Qed.

Lemma legacy_updateMessageWithWhatsAppId_net id wa w :
  net id (Some SENT) w (LegacyPipeline.updateMessageWithWhatsAppId id wa w).
Proof.
  apply (net_rewrite id SENT (with_status_and_wa SENT wa));
    [intros r; now exists wa | reflexivity | reflexivity].
Qed.

(** The pending row of one recipient. *)
Lemma legacy_logMediaMessageToDB_single inst n msg media cap sched w :
  exists w' row,
    MessagesLegacy.logMediaMessageToDB inst (Many [n]) msg media cap sched
      (Some PENDING) None w = (Ok (next_insert_id w), w')
    /\ media_messages w' = media_messages w ++ [row]
    /\ mm_id row = next_insert_id w
    /\ mm_recipient row = n
    /\ mm_message_status row = PENDING
    /\ next_insert_id w' = next_insert_id w + 1.
Proof.
  unfold MessagesLegacy.logMediaMessageToDB.
  destruct (formatScheduledAt sched w) as [s w1] eqn:E1.
  assert (only_logs w w1) as H1
    by (pose proof (formatScheduledAt_only_logs sched w) as H; now rewrite E1 in H).
  apply only_logs_tables in H1 as (Hm & Hn & _).
  unfold insert_message. simpl. rewrite Hm, Hn.
  do 2 eexists. split; [reflexivity |]. simpl. repeat split.
Qed.

Section LegacyProps.

Variable transport : nat -> string -> Content -> SendOutcome.
Variable jitter : nat -> Z.

Lemma legacy_guardedSend_net jid c dbId what w res w' :
  LegacyPipeline.guardedSend transport jid c dbId what w = (res, w') ->
  net dbId (match res with Ok _ => None | Throw _ => Some FAILED end) w w'.
Proof.
  intros Hrun. unfold LegacyPipeline.guardedSend, catch, bind in Hrun.
  pose proof (sendWithRetry_same_store transport jid c 0 w) as Hsame.
  destruct (sendWithRetry transport jid c 0 w) as [r1 w1]. simpl in Hsame.
  apply (net_same_store dbId) in Hsame.
  assert (forall e,
            (lift (logw Error what) ;;;
             LegacyPipeline.updateMessageStatusInDB dbId FAILED ;;; throw e)%js w1
            = (res, w') ->
            net dbId (match res with Ok _ => None | Throw _ => Some FAILED end) w w')
    as Hhandler.
  { intros e He. unfold bind, lift, throw in He.
    destruct (legacy_updateMessageStatusInDB_net dbId FAILED (logw Error what w1) eq_refl)
      as [Hok Hnet].
    destruct (LegacyPipeline.updateMessageStatusInDB dbId FAILED (logw Error what w1))
      as [r2 w2].
    simpl in Hok, Hnet. subst r2. injection He as <- <-.
    apply (net_trans dbId None (Some FAILED) _ _ _ Hsame).
    apply (net_trans dbId None (Some FAILED) _ (logw Error what w1)); [| exact Hnet].
    apply net_only_logs, only_logs_logw. }
  destruct r1 as [[id |] | e]; simpl in Hrun.
  - unfold ret in Hrun. injection Hrun as <- <-. exact Hsame.
  - now apply Hhandler in Hrun.
  - now apply Hhandler in Hrun.
Qed.

(** The [try] block inserts one pending row and then rewrites its status:
    failed when it throws, sent when it runs to its end. *)
Lemma legacy_processMessage_net message mediaPayload instanceId filePath scheduleTime
    w res w' :
  LegacyPipeline.processMessage transport jitter message mediaPayload instanceId
    filePath scheduleTime w = (res, w') ->
  exists w3 row0,
    media_messages w3 = media_messages w ++ [row0]
    /\ mm_id row0 = next_insert_id w
    /\ next_insert_id w3 = next_insert_id w + 1
    /\ net (next_insert_id w)
         (Some (match res with Ok _ => SENT | Throw _ => FAILED end)) w3 w'.
Proof.
  intros Hrun. unfold LegacyPipeline.processMessage in Hrun.
  unfold bind at 1 in Hrun.
  match type of Hrun with
  | context [MessagesLegacy.logMediaMessageToDB ?a (Many [?n]) ?m ?md ?cp ?sc _ _ w] =>
      destruct (legacy_logMediaMessageToDB_single a n m md cp sc w)
        as (w3 & row0 & Hlog & Hm3 & Hid & _ & _ & Hn3)
  end.
  rewrite Hlog in Hrun.
  set (dbId := next_insert_id w) in *.
  exists w3, row0. split; [exact Hm3 |]. split; [exact Hid |]. split; [exact Hn3 |].
  (* the steps after the two sends *)
  assert (forall wa w5, net dbId None w3 w5 ->
            (res, w') = (Ok wa, LegacyPipeline.updateMessageWithWhatsAppId dbId wa
                                  (sleep (getRandomDelay jitter w5) w5)) ->
            net dbId (Some (match res with Ok _ => SENT | Throw _ => FAILED end)) w3 w')
    as Hfinal.
  { intros wa w5 Hnet5 [= -> ->].
    assert (net dbId None w3 (sleep (getRandomDelay jitter w5) w5)) as Hsl
      by (destruct Hnet5 as [Hn Hm]; split; simpl; assumption).
    apply (net_trans dbId None (Some SENT) _ _ _ Hsl).
    apply legacy_updateMessageWithWhatsAppId_net. }
  (* the text send *)
  assert (forall afterMedia w4, net dbId None w3 w4 ->
            (res, w') =
              (let k := fun whatsappMessageId w5 =>
                 (Ok whatsappMessageId,
                  LegacyPipeline.updateMessageWithWhatsAppId dbId whatsappMessageId
                    (sleep (getRandomDelay jitter w5) w5)) in
               if Js.truthy (text message)
               then match LegacyPipeline.guardedSend transport
                            (number message ++ "@s.whatsapp.net")%string
                            (CText (text message)) dbId "Failed to send text" w4 with
                    | (Ok wa, w5) => k wa w5
                    | (Throw e, w5) => (Throw e, w5)
                    end
               else k afterMedia w4) ->
            net dbId (Some (match res with Ok _ => SENT | Throw _ => FAILED end)) w3 w')
    as Htext.
  { intros afterMedia w4 Hnet4 Hrun4. cbv zeta in Hrun4.
    destruct (Js.truthy (text message)); [| now apply (Hfinal afterMedia w4)].
    destruct (LegacyPipeline.guardedSend transport _ _ dbId _ w4) as [[wa2 | e] w5] eqn:Eg;
      pose proof (legacy_guardedSend_net _ _ _ _ _ _ _ Eg) as Hg; simpl in Hg.
    - apply (Hfinal wa2 w5); [| exact Hrun4].
      apply (net_trans dbId None None _ _ _ Hnet4 Hg).
    - injection Hrun4 as -> ->.
      apply (net_trans dbId None (Some FAILED) _ _ _ Hnet4 Hg). }
  unfold bind at 1 in Hrun.
  destruct mediaPayload as [payload |].
  - match type of Hrun with
    | context [LegacyPipeline.guardedSend transport ?j ?c dbId ?wh w3] =>
        destruct (LegacyPipeline.guardedSend transport j c dbId wh w3)
          as [[wa1 | e] w4] eqn:Eg;
        pose proof (legacy_guardedSend_net j c dbId wh w3 _ _ Eg) as Hg; simpl in Hg
    end.
    + apply (Htext wa1 w4 Hg).
      rewrite <- Hrun. unfold bind, lift, ret.
      destruct (Js.truthy (text message)); [| reflexivity].
      now destruct (LegacyPipeline.guardedSend _ _ _ _ _ w4) as [[wa2 | e2] w5].
    + injection Hrun as <- <-. exact Hg.
  - apply (Htext None w3 (net_refl dbId w3)).
    rewrite <- Hrun. unfold ret at 1. unfold bind, lift, ret.
    destruct (Js.truthy (text message)); [| reflexivity].
    now destruct (LegacyPipeline.guardedSend _ _ _ _ _ w3) as [[wa2 | e2] w5].
Qed.

Lemma legacy_sendOne_fold messages mediaPayload instanceId filePath scheduleTime :
  forall n0 w,
    fresh w ->
    exists n w' added,
      fold_left (LegacyPipeline.sendOne transport jitter mediaPayload instanceId filePath
                   scheduleTime) messages (n0, w) = (n, w')
      /\ media_messages w' = media_messages w ++ added
      /\ length added = length messages
      /\ Forall settled added
      /\ n = n0 + Z.of_nat (sentRows added).
Proof.
  induction messages as [| message rest IH]; intros n0 w Hfresh.
  - exists n0, w, []. unfold sentRows. simpl. rewrite app_nil_r.
    repeat split; [constructor | lia].
  - cbn [fold_left]. unfold LegacyPipeline.sendOne at 2.
    destruct (LegacyPipeline.processMessage transport jitter message mediaPayload
                instanceId filePath scheduleTime w) as [res w1] eqn:Erun.
    destruct (legacy_processMessage_net _ _ _ _ _ _ _ _ Erun)
      as (w3 & row0 & Hm3 & Hid & Hn3 & Hnet).
    destruct (net_on_fresh_row _ _ _ _ _ _ Hm3 Hfresh Hid Hnet)
      as (row & Hm1 & Hid1 & _ & Hst1 & _).
    destruct Hnet as [Hn1 _]. simpl in Hst1.
    assert (forall w2, media_messages w2 = media_messages w1 ->
                       next_insert_id w2 = next_insert_id w1 -> fresh w2) as Hfresh1.
    { intros w2 Hm2 Hn2. unfold fresh. rewrite Hm2, Hn2, Hm1, Hn1, Hn3.
      apply Forall_app. split.
      - eapply Forall_impl; [exact Hfresh |]. simpl. intros r Hr. lia.
      - constructor; [lia | constructor]. }
    destruct res as [wa | e].
    + destruct (IH (n0 + 1) w1 (Hfresh1 w1 eq_refl eq_refl))
        as (n & w' & added & Hfold & Hm & Hlen & Hall & Hn).
      exists n, w', (row :: added). rewrite Hfold.
      split; [reflexivity |]. split; [rewrite Hm, Hm1, <- app_assoc; reflexivity |].
      split; [simpl; now rewrite Hlen |].
      split; [constructor; [now left | exact Hall] |].
      rewrite sentRows_cons, Hst1. simpl. lia.
    + destruct (IH n0 (logw Error "Failed to send message" w1)
                  (Hfresh1 _ eq_refl eq_refl))
        as (n & w' & added & Hfold & Hm & Hlen & Hall & Hn).
      exists n, w', (row :: added). rewrite Hfold.
      split; [reflexivity |].
      split; [rewrite Hm; simpl; rewrite Hm1, <- app_assoc; reflexivity |].
      split; [simpl; now rewrite Hlen |].
      split; [constructor; [now right | exact Hall] |].
      rewrite sentRows_cons, Hst1. simpl. lia.
Qed.

(** X7: in the earlier messages.js the count the loop returns is the
    number of messages of the batch whose ledger row ended 'sent': with an
    authenticated socket and ledger ids below the insert counter, the loop
    appends one row per message, every one of them ends sent or failed
    (none stays pending), and the count is the number of sent ones. *)
Theorem legacy_count_is_rows_sent
    (messages : list Message) (mediaPayload : option MediaPayload) (sock : option Sock)
    (instanceId filePath : option string) (scheduleTime : DateArg) (w : World) :
  connected sock = true ->
  fresh w ->
  exists n w' added,
    LegacyPipeline.sendMessagesOneAtATime transport jitter messages mediaPayload sock
      instanceId filePath scheduleTime w = (Ok n, w')
    /\ media_messages w' = media_messages w ++ added
    /\ length added = length messages
    /\ Forall settled added
    /\ n = Z.of_nat (sentRows added).
Proof.
  intros Hc Hfresh. unfold LegacyPipeline.sendMessagesOneAtATime. rewrite Hc.
  destruct (legacy_sendOne_fold messages mediaPayload instanceId filePath scheduleTime
              0 w Hfresh) as (n & w' & added & Hfold & Hm & Hl & Hall & Hn).
  exists n, w', added. rewrite Hfold. repeat split; auto.
Qed.

End LegacyProps.

Lemma legacy_count_is_rows_sent_witness :
  exists n w' added,
    LegacyPipeline.sendMessagesOneAtATime flaky no_jitter
      [mkMessage "911" (Some "hi") None; mkMessage "912" None None] None me
      (Some "t1") None NoDate empty_world = (Ok n, w')
    /\ media_messages w' = media_messages empty_world ++ added
    /\ length added = 2%nat
    /\ Forall settled added
    /\ n = Z.of_nat (sentRows added).
Proof.
  apply (legacy_count_is_rows_sent flaky no_jitter
           [mkMessage "911" (Some "hi") None; mkMessage "912" None None] None me
           (Some "t1") None NoDate empty_world).
  - reflexivity.
  - constructor.
Defined.

End LegacyPipelineProps.

(* ===================================================================== *)
(** ** The sweep and the ledger *)
(* ===================================================================== *)

Module SweepLedgerProps.
Import Store Err Schedule ScheduleSpec LedgerSpec SweepSpec ScheduleProps.
Local Open Scope list_scope.

Lemma swept_nothing r : swept [] r r.
Proof.
  split; [| split].
  - exists (mm_message_status r), (mm_whatsapp_message_id r). now destruct r.
  - intros H. inversion H.
  - reflexivity.
Qed.

Lemma swept_id D r r' : swept D r r' -> mm_id r' = mm_id r.
Proof. intros ((st & wa & ->) & _). reflexivity. Qed.

(** One more dispatch. *)
Lemma swept_step D id r0 r1 r2 :
  swept D r0 r1 ->
  (exists st wa, r2 = with_status_and_wa st wa r1) ->
  (mm_id r1 = id ->
     settled r2
     /\ (mm_message_status r2 = SENT -> Js.truthy (mm_whatsapp_message_id r2) = true)) ->
  (mm_id r1 <> id -> r2 = r1) ->
  swept (D ++ [id]) r0 r2.
Proof.
  intros Hs (st2 & wa2 & E2) Hhit Hmiss.
  pose proof (swept_id _ _ _ Hs) as Hid.
  destruct Hs as ((st1 & wa1 & E1) & Hin & Hout).
  split; [| split].
  - exists st2, wa2. rewrite E2, E1. reflexivity.
  - intros HD. destruct (decide (mm_id r1 = id)) as [E | E]; [auto |].
    rewrite (Hmiss E). apply Hin.
    apply elem_of_app in HD as [HD | HD]; [exact HD |].
    apply list_elem_of_singleton in HD. congruence.
  - intros HD. rewrite Hmiss.
    + apply Hout. intros H. apply HD. apply elem_of_app. now left.
    + intros E. apply HD. apply elem_of_app. right.
      apply list_elem_of_singleton. congruence.
Qed.

Section SweepLedger.

Variable transport : nat -> string -> Content -> Messages.SendOutcome.
Variable connect : string -> gmap string Instance -> Res unit * gmap string Instance.

Lemma attempt_frame sock jid message w :
  let w' := snd (attempt transport sock jid message w) in
  media_messages w' = media_messages w /\ instances w' = instances w
  /\ clock w' = clock w
  /\ sends w' = (if Messages.connected (Some sock) then S (sends w) else sends w).
Proof.
  unfold attempt, Messages.sock_sendMessage.
  destruct (Messages.connected (Some sock)); [| simpl; auto].
  destruct (transport (sends w) jid (CText message)) as [[id |] | e]; simpl; auto.
  destruct (negb (String.eqb id "")); simpl; auto.
Qed.

Lemma attempt_result sock jid message w id :
  fst (attempt transport sock jid message w) = Ok id ->
  id <> ""%string /\ Messages.connected (Some sock) = true
  /\ transport (sends w) jid (CText message) = Messages.Resolved (Some id).
Proof.
  unfold attempt, Messages.sock_sendMessage.
  destruct (Messages.connected (Some sock)); [| discriminate].
  destruct (transport (sends w) jid (CText message)) as [[id' |] | e]; simpl;
    try discriminate.
  destruct (String.eqb id' "") eqn:E; simpl; [discriminate |].
  intros [= ->]. apply String.eqb_neq in E. auto.
Qed.

(** The retry loop of the scheduler's [sendMessage], from attempt [i]. *)
Lemma sendMessage_from_spec remaining : forall i sock jid message w,
  let r := sendMessage_from transport remaining i sock jid message w in
  media_messages (snd r) = media_messages w
  /\ instances (snd r) = instances w
  /\ (sends w <= sends (snd r) <= sends w + remaining)%nat
  /\ clock w <= clock (snd r) <= clock w + 5000 * Z.of_nat (remaining - 1)
  /\ (fst (fst r) = true ->
        exists wa n, snd (fst r) = Some wa /\ wa <> ""%string /\ (n < remaining)%nat
                     /\ transport (sends w + n)%nat jid (CText message)
                        = Messages.Resolved (Some wa))
  /\ (fst (fst r) = false ->
        snd (fst r) = None
        /\ (Messages.connected (Some sock) = true ->
              sends (snd r) = (sends w + remaining)%nat))
  /\ (Messages.connected (Some sock) = false ->
        fst (fst r) = false /\ sends (snd r) = sends w).
Proof.
  induction remaining as [| remaining IH]; intros i sock jid message w; cbv zeta.
  - simpl. repeat split; try lia; try discriminate.
  - cbn [sendMessage_from].
    pose proof (attempt_frame sock jid message w) as Hf. cbv zeta in Hf.
    pose proof (attempt_result sock jid message w) as Hr.
    destruct (attempt transport sock jid message w) as [[id | e] w1]; cbn [fst snd] in Hf, Hr.
    + destruct (Hr id eq_refl) as (Hid & Hc & Ht). destruct Hf as (Hm & Hi & Hck & Hs).
      rewrite Hc in Hs. cbn [fst snd].
      split; [exact Hm |]. split; [exact Hi |]. split; [lia |]. split; [lia |].
      split; [| split; [discriminate | intros Hoff; rewrite Hoff in Hc; discriminate]].
      intros _. exists id, 0%nat. rewrite Nat.add_0_r. repeat split; auto. lia.
    + clear Hr. destruct Hf as (Hm & Hi & Hck & Hs).
      set (w2 := logw Warn "Send attempt failed:" w1).
      assert (forall w3, media_messages w3 = media_messages w1 ->
                instances w3 = instances w1 -> sends w3 = sends w1 ->
                clock w1 <= clock w3 <=
                  clock w1 + match remaining with O => 0 | S _ => 5000 end ->
                let r := sendMessage_from transport remaining (S i) sock jid message w3 in
                media_messages (snd r) = media_messages w
                /\ instances (snd r) = instances w
                /\ (sends w <= sends (snd r) <= sends w + S remaining)%nat
                /\ clock w <= clock (snd r) <= clock w + 5000 * Z.of_nat (S remaining - 1)
                /\ (fst (fst r) = true ->
                      exists wa n, snd (fst r) = Some wa /\ wa <> ""%string
                                   /\ (n < S remaining)%nat
                                   /\ transport (sends w + n)%nat jid (CText message)
                                      = Messages.Resolved (Some wa))
                /\ (fst (fst r) = false ->
                      snd (fst r) = None
                      /\ (Messages.connected (Some sock) = true ->
                            sends (snd r) = (sends w + S remaining)%nat))
                /\ (Messages.connected (Some sock) = false ->
                      fst (fst r) = false /\ sends (snd r) = sends w)) as Hgo.
      { intros w3 Hm3 Hi3 Hs3 Hc3.
        destruct (IH (S i) sock jid message w3)
          as (Hm' & Hi' & Hs' & Hc' & Hok & Hko & Hoff).
        cbv zeta.
        assert (sends w1 = sends w \/ sends w1 = S (sends w)) as Hs01
          by (rewrite Hs; destruct (Messages.connected (Some sock)); [right | left]; reflexivity).
        split; [congruence |]. split; [congruence |].
        split; [destruct Hs01; lia |].
        split.
        { replace (S remaining - 1)%nat with remaining by lia.
          destruct remaining as [| r']; [simpl in Hc3, Hc' |- *; lia |].
          replace (S r' - 1)%nat with r' in Hc' by lia. lia. }
        split; [| split].
        - intros Hsucc. destruct (Hok Hsucc) as (wa & n & Hwa & Hne & Hn & Ht).
          destruct (Messages.connected (Some sock)) eqn:Ec.
          + exists wa, (S n). repeat split; auto; [lia |].
            rewrite <- Ht. f_equal. lia.
          + destruct (Hoff eq_refl) as [Hfalse _]. congruence.
        - intros Hfail. destruct (Hko Hfail) as [Hnone Hall].
          split; [exact Hnone |]. intros Hc. rewrite Hc in Hs.
          rewrite (Hall Hc). lia.
        - intros Hc. rewrite Hc in Hs. destruct (Hoff Hc) as [Hfalse Hsame].
          split; [exact Hfalse | lia]. }
      destruct remaining as [| remaining'].
      * apply Hgo; try reflexivity. simpl. lia.
      * apply Hgo; try reflexivity. simpl.
        assert (0 < 2 ^ Z.of_nat i) by (apply Z.pow_pos_nonneg; lia). lia.
Qed.

(** X8: the scheduler's [sendMessage] makes at most [retries] calls of the
    transport and pauses at most 5000 ms between two of them; it touches
    neither ledger nor registry. It reports success exactly with the
    transport id (never empty) that one of those calls returned; after a
    failure on an authenticated socket all [retries] calls were made. On a
    socket that is not authenticated it fails without calling the
    transport at all. *)
Theorem sendMessage_bounded_attempts
    (sock : Sock) (jid : string) (message : option string) (retries : nat) (w : World) :
  let r := sendMessage transport sock jid message retries w in
  media_messages (snd r) = media_messages w
  /\ instances (snd r) = instances w
  /\ (sends w <= sends (snd r) <= sends w + retries)%nat
  /\ clock w <= clock (snd r) <= clock w + 5000 * Z.of_nat (retries - 1)
  /\ (fst (fst r) = true ->
        exists wa n, snd (fst r) = Some wa /\ wa <> ""%string /\ (n < retries)%nat
                     /\ transport (sends w + n)%nat jid (CText message)
                        = Messages.Resolved (Some wa))
  /\ (fst (fst r) = false ->
        snd (fst r) = None
        /\ (Messages.connected (Some sock) = true ->
              sends (snd r) = (sends w + retries)%nat))
  /\ (Messages.connected (Some sock) = false ->
        fst (fst r) = false /\ sends (snd r) = sends w).
Proof. apply sendMessage_from_spec. Qed.

(** *** What a sweep does to the ledger *)

Lemma Forall2_map_self {A} (P : A -> A -> Prop) (f : A -> A) l :
  (forall x, P x (f x)) -> Forall2 P l (map f l).
Proof. intros H. induction l; simpl; constructor; auto. Qed.

Lemma Forall2_compose {A} (P Q R : A -> A -> Prop) l1 l2 l3 :
  (forall x y z, P x y -> Q y z -> R x z) ->
  Forall2 P l1 l2 -> Forall2 Q l2 l3 -> Forall2 R l1 l3.
Proof.
  intros H H12. revert l3. induction H12; intros l3 H23; inversion H23; subst;
    constructor; eauto.
Qed.

Lemma updateScheduledMessageStatus_rows id st wa w :
  let w' := updateScheduledMessageStatus id st wa w in
  trace w' = trace w /\ instances w' = instances w
  /\ Forall2 (fun r r' =>
                (exists st' wa', r' = with_status_and_wa st' wa' r)
                /\ (mm_id r = id ->
                    mm_message_status r' = st
                    /\ (Js.truthy wa = true -> mm_whatsapp_message_id r' = wa))
                /\ (mm_id r <> id -> r' = r))
       (media_messages w) (media_messages w').
Proof.
  unfold updateScheduledMessageStatus.
  destruct (Js.truthy wa); simpl; (split; [reflexivity |]; split; [reflexivity |]);
    apply Forall2_map_self; intros r; destruct (Z.eqb_spec (mm_id r) id) as [E | E].
  - split; [now exists st, wa |]. split; [split; reflexivity | contradiction].
  - split; [| split; [contradiction | reflexivity]].
    exists (mm_message_status r), (mm_whatsapp_message_id r). now destruct r.
  - split; [now exists st, (mm_whatsapp_message_id r) |].
    split; [split; [reflexivity | discriminate] | contradiction].
  - split; [| split; [contradiction | reflexivity]].
    exists (mm_message_status r), (mm_whatsapp_message_id r). now destruct r.
Qed.

(** The invariant of the sweep: the ids dispatched since [w0], and the
    ledger of [w0] swept by them. *)
Lemma processDue_swept w0 sock wc m D :
  dispatch_order (trace wc) = dispatch_order (trace w0) ++ D ->
  Forall2 (swept D) (media_messages w0) (media_messages wc) ->
  dispatch_order (trace (processDue transport sock wc m))
  = dispatch_order (trace w0) ++ (D ++ [mm_id m])
  /\ Forall2 (swept (D ++ [mm_id m])) (media_messages w0)
       (media_messages (processDue transport sock wc m)).
Proof.
  intros Hd Hrows. split.
  { rewrite processDue_dispatch, Hd, <- app_assoc. reflexivity. }
  unfold processDue, sendMessage.
  match goal with
  | |- context [sendMessage_from transport ?r ?i sock ?j ?msg ?w1] =>
      pose proof (sendMessage_from_spec r i sock j msg w1) as Hsend;
      destruct (sendMessage_from transport r i sock j msg w1) as [[success wa] w2]
  end.
  cbv zeta in Hsend. cbn [fst snd] in Hsend.
  destruct Hsend as (Hm & _ & _ & _ & Hok & _).
  simpl in Hm.
  pose proof (updateScheduledMessageStatus_rows (mm_id m)
                (if success then SENT else FAILED) wa w2) as (_ & _ & Hup).
  rewrite Hm in Hup. simpl.
  eapply Forall2_compose; [| exact Hrows | exact Hup].
  intros r0 r1 r2 Hs (Hex & Hhit & Hmiss).
  apply (swept_step D (mm_id m) r0 r1 r2 Hs Hex); [| exact Hmiss].
  intros E. destruct (Hhit E) as [Hst Hwa]. unfold settled. rewrite Hst.
  destruct success; [| split; [now right | discriminate]].
  split; [now left |]. intros _.
  destruct (Hok eq_refl) as (x & n & -> & Hx & _).
  assert (Js.truthy (Some x) = true) as Ht.
  { simpl. destruct (String.eqb x "") eqn:Ex; [| reflexivity].
    apply String.eqb_eq in Ex. contradiction. }
  rewrite (Hwa Ht). exact Ht.
Qed.

Lemma processDue_fold_swept w0 sock messages :
  forall wc D,
    dispatch_order (trace wc) = dispatch_order (trace w0) ++ D ->
    Forall2 (swept D) (media_messages w0) (media_messages wc) ->
    let w' := fold_left (processDue transport sock) messages wc in
    exists D',
      dispatch_order (trace w') = dispatch_order (trace w0) ++ D'
      /\ Forall2 (swept D') (media_messages w0) (media_messages w').
Proof.
  induction messages as [| m ms IH]; intros wc D Hd Hrows; simpl.
  - eauto.
  - destruct (processDue_swept w0 sock wc m D Hd Hrows) as [Hd1 Hrows1].
    apply (IH _ _ Hd1 Hrows1).
Qed.

Lemma processGroup_swept w0 wc entry D :
  dispatch_order (trace wc) = dispatch_order (trace w0) ++ D ->
  Forall2 (swept D) (media_messages w0) (media_messages wc) ->
  exists D',
    dispatch_order (trace (processGroup transport connect wc entry))
    = dispatch_order (trace w0) ++ D'
    /\ Forall2 (swept D') (media_messages w0)
         (media_messages (processGroup transport connect wc entry)).
Proof.
  intros Hd Hrows. destruct entry as [instanceId messages]. unfold processGroup.
  destruct (String.eqb instanceId ""); [eauto |].
  destruct (usable (instances wc !! instanceId)) as [sock |].
  { apply (processDue_fold_swept w0 sock messages wc D Hd Hrows). }
  unfold initializeSock.
  destruct (connect instanceId (instances wc)) as [[[] | e] registry].
  - set (w1 := emit _ _).
    assert (dispatch_order (trace w1) = dispatch_order (trace w0) ++ D) as Hd1.
    { unfold w1. simpl. rewrite dispatch_order_app. simpl. now rewrite app_nil_r. }
    destruct (usable (instances w1 !! instanceId)) as [sock |].
    + apply (processDue_fold_swept w0 sock messages w1 D Hd1 Hrows).
    + exists D. split; [exact Hd1 | exact Hrows].
  - exists D. split; [| exact Hrows]. simpl.
    rewrite dispatch_order_app. simpl. now rewrite app_nil_r.
Qed.

Lemma sweep_swept w :
  exists D,
    dispatch_order (trace (sweep transport connect w)) = dispatch_order (trace w) ++ D
    /\ Forall2 (swept D) (media_messages w) (media_messages (sweep transport connect w)).
Proof.
  assert (forall entries wc D,
            dispatch_order (trace wc) = dispatch_order (trace w) ++ D ->
            Forall2 (swept D) (media_messages w) (media_messages wc) ->
            let w' := fold_left (processGroup transport connect) entries wc in
            exists D',
              dispatch_order (trace w') = dispatch_order (trace w) ++ D'
              /\ Forall2 (swept D') (media_messages w) (media_messages w')) as Hfold.
  { induction entries as [| entry entries IH]; intros wc D Hd Hrows; simpl; [eauto |].
    destruct (processGroup_swept w wc entry D Hd Hrows) as (D1 & Hd1 & Hrows1).
    apply (IH _ _ Hd1 Hrows1). }
  assert (dispatch_order (trace w) = dispatch_order (trace w) ++ []) as Hd0
    by now rewrite app_nil_r.
  assert (Forall2 (swept []) (media_messages w) (media_messages w)) as Hrows0.
  { assert (forall l, Forall2 (swept []) l l) as Hall
      by (induction l; constructor; auto using swept_nothing).
    apply Hall. }
  unfold sweep. destruct (getPendingScheduledMessages w) as [| m page]; [eauto |].
  destruct (groupPage (m :: page)) as [groups | e]; [| exists []; auto].
  apply (Hfold _ w [] Hd0 Hrows0).
Qed.

(** X9: a sweep inserts and deletes no ledger row and changes only the
    status and the transport id of rows; every row whose id it dispatched
    is sent or failed afterwards, never pending, and carries a transport
    id (not empty) when it is sent; every other row is as it was. *)
Theorem sweep_settles_what_it_dispatches (w : World) :
  Forall2 (swept (dispatched_by w (sweep transport connect w)))
    (media_messages w) (media_messages (sweep transport connect w)).
Proof.
  destruct (sweep_swept w) as (D & Hd & Hrows).
  unfold dispatched_by. rewrite Hd, drop_app_length. exact Hrows.
Qed.

(** What a sweep dispatches is in the page it read. *)
Lemma dispatched_in_page w id :
  id ∈ dispatched_by w (sweep transport connect w) ->
  exists m, m ∈ getPendingScheduledMessages w /\ mm_id m = id.
Proof.
  intros Hin.
  assert (exists idss,
            Forall2 (fun entry ids => ids = (mm_id <$> snd entry) \/ ids = [])
              (match getPendingScheduledMessages w with
               | [] => []
               | page => Object_entries (groupByInstance page)
               end) idss
            /\ dispatch_order (trace (sweep transport connect w))
               = dispatch_order (trace w) ++ concat idss) as (idss & Hall & Hd).
  { unfold sweep. destruct (getPendingScheduledMessages w) as [| m page] eqn:Epage.
    - exists []. split; [constructor | now rewrite app_nil_r].
    - unfold groupPage. destruct (forallb _ (m :: page)).
      + apply processGroup_fold_dispatch.
      + exists ((fun _ => []) <$> Object_entries (groupByInstance (m :: page))).
        split.
        * apply Forall2_fmap_r, Forall_Forall2_diag, Forall_forall.
          intros entry _. now right.
        * rewrite concat_fmap_nil. simpl. now rewrite app_nil_r. }
  unfold dispatched_by in Hin. rewrite Hd, drop_app_length in Hin.
  destruct (getPendingScheduledMessages w) as [| m0 page0] eqn:Epage.
  { apply Forall2_nil_inv_l in Hall. subst idss. inversion Hin. }
  rewrite <- Epage in *. clear m0 page0 Epage.
  apply list_elem_of_In, in_concat in Hin as (ids & Hids & Hid).
  apply list_elem_of_In in Hids, Hid.
  destruct (list_elem_of_split _ _ Hids) as (I1 & I2 & ->).
  apply Forall2_app_inv_r in Hall as (E1 & E2' & _ & Hrest & Hentries).
  apply Forall2_cons_inv_r in Hrest as (entry & E2 & Hentry & _ & ->).
  destruct Hentry as [-> | ->]; [| inversion Hid].
  apply list_elem_of_fmap in Hid as (m & Hidm & Hm).
  assert (entry ∈ groupByInstance (getPendingScheduledMessages w)) as Hgroup.
  { apply Object_entries_subset. rewrite Hentries. apply elem_of_app. right. left. }
  destruct (groupByInstance_grouped (getPendingScheduledMessages w)) as (_ & _ & Hg).
  destruct entry as [k ms]. simpl in *.
  rewrite (Hg k ms Hgroup) in Hm. apply list_elem_of_filter in Hm as [_ Hm].
  exists m. split; [exact Hm | now symmetry].
Qed.

(** X10: no message is dispatched twice by two sweeps that follow each
    other: whatever the clock, the registry and the transport are by then,
    a sweep that starts from the ledger the previous one left dispatches
    none of the ids the previous one dispatched. *)
Theorem sweep_never_dispatches_again (w w2 : World) (id : Z) :
  media_messages w2 = media_messages (sweep transport connect w) ->
  id ∈ dispatched_by w (sweep transport connect w) ->
  id ∉ dispatched_by w2 (sweep transport connect w2).
Proof.
  intros Hledger Hfirst Hsecond.
  destruct (dispatched_in_page w2 id Hsecond) as (m & Hpage & Hid).
  apply (selectDue_subset 50 w2 m) in Hpage as [Hin Hdue].
  apply due_spec in Hdue as [Hpending _].
  rewrite Hledger in Hin.
  pose proof (sweep_swept w) as (D & Hd & Hrows).
  assert (dispatched_by w (sweep transport connect w) = D) as HD
    by (unfold dispatched_by; now rewrite Hd, drop_app_length).
  rewrite HD in Hfirst.
  apply list_elem_of_lookup in Hin as [i Hi].
  destruct (Forall2_lookup_r _ _ _ _ _ Hrows Hi) as (r0 & _ & Hs).
  pose proof (swept_id _ _ _ Hs) as Hsame.
  destruct Hs as (_ & Hsettled & _).
  assert (settled m) as [Hst | Hst]
    by (apply Hsettled; rewrite <- Hsame, Hid; exact Hfirst);
    rewrite Hpending in Hst; discriminate.
Qed.

End SweepLedger.

Lemma sweep_never_dispatches_again_witness :
  1 ∉ dispatched_by (sweep delivers never_connects two_due)
        (sweep delivers never_connects (sweep delivers never_connects two_due)).
Proof.
  apply (sweep_never_dispatches_again delivers never_connects two_due
           (sweep delivers never_connects two_due) 1).
  - reflexivity.
  - vm_compute. right. left.
Defined.

End SweepLedgerProps.

(* ===================================================================== *)
(** ** The sweep of the earlier schedule.js *)
(* ===================================================================== *)

Module LegacySweepProps.
Import Store Err Schedule ScheduleSpec LedgerSpec SweepSpec ScheduleProps SweepLedgerProps.
Local Open Scope list_scope.

Lemma legacy_swept_nothing r : legacy_swept [] r r.
Proof.
  split; [| split].
  - exists (mm_message_status r). now destruct r.
  - intros H. inversion H.
  - reflexivity.
Qed.

Lemma legacy_swept_step D id r0 r1 r2 :
  legacy_swept D r0 r1 ->
  (exists st, r2 = with_status st r1) ->
  (mm_id r1 = id -> settled r2) ->
  (mm_id r1 <> id -> r2 = r1) ->
  legacy_swept (D ++ [id]) r0 r2.
Proof.
  intros ((st1 & E1) & Hin & Hout) (st2 & E2) Hhit Hmiss.
  assert (mm_id r1 = mm_id r0) as Hid by (rewrite E1; reflexivity).
  split; [| split].
  - exists st2. rewrite E2, E1. reflexivity.
  - intros HD. destruct (decide (mm_id r1 = id)) as [E | E]; [auto |].
    rewrite (Hmiss E). apply Hin.
    apply elem_of_app in HD as [HD | HD]; [exact HD |].
    apply list_elem_of_singleton in HD. congruence.
  - intros HD. rewrite Hmiss.
    + apply Hout. intros H. apply HD. apply elem_of_app. now left.
    + intros E. apply HD. apply elem_of_app. right.
      apply list_elem_of_singleton. congruence.
Qed.

(** Rows that differ in their status only resolve the same events. *)
Lemma getDatabaseId_status_only inst mid w w' :
  Forall2 (fun r r' => exists st, r' = with_status st r)
    (media_messages w) (media_messages w') ->
  UpdateStatus.getDatabaseId inst mid w' = UpdateStatus.getDatabaseId inst mid w.
Proof.
  unfold UpdateStatus.getDatabaseId.
  generalize (media_messages w) (media_messages w').
  intros rows rows' H.
  assert (mm_id <$> filter (fun r => mm_instance_id r = Some inst /\ is_Some mid
                                     /\ mm_whatsapp_message_id r = mid) rows'
          = (mm_id <$> filter (fun r => mm_instance_id r = Some inst /\ is_Some mid
                                        /\ mm_whatsapp_message_id r = mid) rows)) as Hids.
  { induction H as [| r r' rows rows' [st ->] _ IH]; [reflexivity |].
    rewrite !filter_cons. simpl.
    destruct (decide _) as [Hd | Hd]; [rewrite !fmap_cons, IH | exact IH];
      reflexivity. }
  destruct (filter _ rows') as [| a l]; destruct (filter _ rows) as [| b l'];
    try discriminate; [reflexivity |].
  rewrite !fmap_cons in Hids. injection Hids as -> _. reflexivity.
Qed.

Section LegacySweep.

Variable transport : nat -> string -> Content -> Messages.SendOutcome.
Variable connect : string -> gmap string Instance -> Res unit * gmap string Instance.

Lemma legacy_processDue_swept w0 sock wc m D :
  dispatch_order (trace wc) = dispatch_order (trace w0) ++ D ->
  Forall2 (legacy_swept D) (media_messages w0) (media_messages wc) ->
  dispatch_order (trace (LegacySchedule.processDue transport sock wc m))
  = dispatch_order (trace w0) ++ (D ++ [mm_id m])
  /\ Forall2 (legacy_swept (D ++ [mm_id m])) (media_messages w0)
       (media_messages (LegacySchedule.processDue transport sock wc m)).
Proof.
  intros Hd Hrows.
  unfold LegacySchedule.processDue, LegacySchedule.sendMessage,
    Messages.sock_sendMessage.
  set (jid := (Js.stripPhonePunctuation (mm_recipient m) ++ "@s.whatsapp.net")%string).
  set (w1 := emit (EvDue (mm_id m)) wc).
  assert (forall (success : bool) w2,
            media_messages w2 = media_messages wc ->
            dispatch_order (trace w2) = dispatch_order (trace w0) ++ (D ++ [mm_id m]) ->
            let w3 := LegacySchedule.updateScheduledMessageStatus (mm_id m)
                        (if success then SENT else FAILED) w2 in
            let w4 := if success then w3
                      else logw Error "Failed to send scheduled message" w3 in
            dispatch_order (trace w4) = dispatch_order (trace w0) ++ (D ++ [mm_id m])
            /\ Forall2 (legacy_swept (D ++ [mm_id m])) (media_messages w0)
                 (media_messages w4)) as Hgo.
  { intros success w2 Hm2 Hd2. cbv zeta.
    assert (Forall2 (legacy_swept (D ++ [mm_id m])) (media_messages w0)
              (update_status (mm_id m) (if success then SENT else FAILED)
                 (media_messages w2))) as Hrows2.
    { rewrite Hm2. unfold update_status.
      eapply (Forall2_compose (legacy_swept D)
                (fun r r' => r' = if Z.eqb (mm_id r) (mm_id m)
                                  then with_status (if success then SENT else FAILED) r
                                  else r));
        [| exact Hrows | apply Forall2_map_self; reflexivity].
      intros r0 r1 r2 Hs ->.
      apply (legacy_swept_step D (mm_id m) r0 r1 _ Hs).
      - destruct (Z.eqb (mm_id r1) (mm_id m)); [eauto |].
        exists (mm_message_status r1). now destruct r1.
      - intros E. apply Z.eqb_eq in E. rewrite E. unfold settled. simpl.
        destruct success; auto.
      - intros E. apply Z.eqb_neq in E. now rewrite E. }
    destruct success; simpl; auto. }
  assert (dispatch_order (trace (Messages.count_send (emit (EvSend jid (CText (mm_message m))) w1)))
          = dispatch_order (trace w0) ++ (D ++ [mm_id m])) as Hd1.
  { simpl. rewrite !dispatch_order_app, Hd. simpl. now rewrite app_nil_r, <- app_assoc. }
  destruct (transport (sends w1) jid (CText (mm_message m))) as [keyId | e].
  - apply (Hgo true); [reflexivity | exact Hd1].
  - apply (Hgo false); [reflexivity | exact Hd1].
Qed.

Lemma legacy_processDue_fold_swept w0 sock messages :
  forall wc D,
    dispatch_order (trace wc) = dispatch_order (trace w0) ++ D ->
    Forall2 (legacy_swept D) (media_messages w0) (media_messages wc) ->
    let w' := fold_left (LegacySchedule.processDue transport sock) messages wc in
    exists D',
      dispatch_order (trace w') = dispatch_order (trace w0) ++ D'
      /\ Forall2 (legacy_swept D') (media_messages w0) (media_messages w').
Proof.
  induction messages as [| m ms IH]; intros wc D Hd Hrows; simpl.
  - eauto.
  - destruct (legacy_processDue_swept w0 sock wc m D Hd Hrows) as [Hd1 Hrows1].
    apply (IH _ _ Hd1 Hrows1).
Qed.

Lemma legacy_processGroup_swept w0 wc entry D :
  dispatch_order (trace wc) = dispatch_order (trace w0) ++ D ->
  Forall2 (legacy_swept D) (media_messages w0) (media_messages wc) ->
  exists D',
    dispatch_order (trace (LegacySchedule.processGroup transport connect wc entry))
    = dispatch_order (trace w0) ++ D'
    /\ Forall2 (legacy_swept D') (media_messages w0)
         (media_messages (LegacySchedule.processGroup transport connect wc entry)).
Proof.
  intros Hd Hrows. destruct entry as [instanceId messages].
  unfold LegacySchedule.processGroup.
  destruct (usable (instances wc !! instanceId)) as [sock |].
  { apply (legacy_processDue_fold_swept w0 sock messages wc D Hd Hrows). }
  unfold initializeSock.
  destruct (connect instanceId (instances wc)) as [[[] | e] registry].
  - set (w1 := emit _ _).
    assert (dispatch_order (trace w1) = dispatch_order (trace w0) ++ D) as Hd1.
    { unfold w1. simpl. rewrite dispatch_order_app. simpl. now rewrite app_nil_r. }
    destruct (usable (instances w1 !! instanceId)) as [sock |].
    + apply (legacy_processDue_fold_swept w0 sock messages w1 D Hd1 Hrows).
    + exists D. split; [exact Hd1 | exact Hrows].
  - exists D. split; [| exact Hrows]. simpl.
    rewrite dispatch_order_app. simpl. now rewrite app_nil_r.
Qed.

Lemma legacy_sweep_swept w :
  exists D,
    dispatch_order (trace (LegacySchedule.sweep transport connect w))
    = dispatch_order (trace w) ++ D
    /\ Forall2 (legacy_swept D) (media_messages w)
         (media_messages (LegacySchedule.sweep transport connect w)).
Proof.
  assert (forall entries wc D,
            dispatch_order (trace wc) = dispatch_order (trace w) ++ D ->
            Forall2 (legacy_swept D) (media_messages w) (media_messages wc) ->
            let w' := fold_left (LegacySchedule.processGroup transport connect)
                        entries wc in
            exists D',
              dispatch_order (trace w') = dispatch_order (trace w) ++ D'
              /\ Forall2 (legacy_swept D') (media_messages w) (media_messages w'))
    as Hfold.
  { induction entries as [| entry entries IH]; intros wc D Hd Hrows; simpl; [eauto |].
    destruct (legacy_processGroup_swept w wc entry D Hd Hrows) as (D1 & Hd1 & Hrows1).
    apply (IH _ _ Hd1 Hrows1). }
  assert (dispatch_order (trace w) = dispatch_order (trace w) ++ []) as Hd0
    by now rewrite app_nil_r.
  assert (Forall2 (legacy_swept []) (media_messages w) (media_messages w)) as Hrows0.
  { assert (forall l, Forall2 (legacy_swept []) l l) as Hall
      by (induction l; constructor; auto using legacy_swept_nothing).
    apply Hall. }
  unfold LegacySchedule.sweep.
  destruct (groupPage (getPendingScheduledMessages_legacy w)) as [groups | e];
    [| exists []; auto].
  apply (Hfold _ w [] Hd0 Hrows0).
Qed.

(** X11: the sweep of the earlier schedule.js settles what it dispatches,
    like the current one, but records no transport id: it changes nothing
    but the status of rows. So the receipt handler resolves an event to
    the same row, or to none, after the sweep as before it: a message that
    had no transport id when the sweep marked it sent is never matched by
    a receipt. *)
Theorem legacy_sweep_records_no_transport_id (w : World) :
  Forall2 (legacy_swept (dispatched_by w (LegacySchedule.sweep transport connect w)))
    (media_messages w) (media_messages (LegacySchedule.sweep transport connect w))
  /\ forall inst mid,
       UpdateStatus.getDatabaseId inst mid (LegacySchedule.sweep transport connect w)
       = UpdateStatus.getDatabaseId inst mid w.
Proof.
  destruct (legacy_sweep_swept w) as (D & Hd & Hrows).
  split.
  - unfold dispatched_by. rewrite Hd, drop_app_length. exact Hrows.
  - intros inst mid. apply getDatabaseId_status_only.
    eapply Forall2_impl; [exact Hrows |]. intros r r' (Hex & _). exact Hex.
Qed.

End LegacySweep.

End LegacySweepProps.

(* ===================================================================== *)
(** ** Storing a message for later *)
(* ===================================================================== *)

Module ScheduleEntryProps.
Import Store Err Schedule ScheduleEntry ScheduleEntrySpec MessagesSpec RegistryProps.
Local Open Scope list_scope.

Lemma truthy_nonempty id : Js.truthy (Some id) = true <-> id <> ""%string.
Proof.
  simpl. destruct (String.eqb id "") eqn:E.
  - apply String.eqb_eq in E. split; [discriminate | contradiction].
  - apply String.eqb_neq in E. tauto.
Qed.

(** The second a date is cut to. *)
Lemma formatSeconds_bounds ms : ms - 1000 < formatSeconds ms <= ms.
Proof.
  unfold formatSeconds.
  pose proof (Z.div_mod ms 1000 ltac:(discriminate)) as Hdm.
  pose proof (Z.mod_pos_bound ms 1000 eq_refl) as Hb. lia.
Qed.

Section EntryProps.

Variable registered : string -> bool.

(** The loop over the recipients. *)
Lemma saveOne_fold instanceId message media caption s recipients :
  forall ids w,
    exists w' added,
      fold_left (saveOne instanceId message media caption s) recipients (ids, w)
      = (ids ++ seqZ (next_insert_id w) (Z.of_nat (length recipients)), w')
      /\ media_messages w' = media_messages w ++ added
      /\ (mm_id <$> added) = seqZ (next_insert_id w) (Z.of_nat (length recipients))
      /\ (mm_recipient <$> added) = (Js.trim <$> recipients)
      /\ Forall (fun r => mm_message_status r = PENDING
                          /\ mm_instance_id r = Js.orNull instanceId
                          /\ mm_message r = Js.orNull message
                          /\ mm_whatsapp_message_id r = None
                          /\ mm_schedule_time r = Some s
                          /\ mm_created_at r = Some (clock w)) added
      /\ instances w' = instances w /\ clock w' = clock w /\ trace w' = trace w
      /\ log w' = log w /\ sends w' = sends w.
Proof.
  induction recipients as [| recipient rest IH]; intros ids w.
  - exists w, []. simpl. rewrite !app_nil_r. repeat split. constructor.
  - cbn [fold_left]. unfold saveOne at 2. unfold Messages.insert_message.
    match goal with
    | |- context [fold_left _ rest (?i, ?w1)] =>
        destruct (IH i w1)
          as (w' & added & Hfold & Hm & Hids & Hrcp & Hall & Hi & Hc & Ht & Hl & Hs)
    end.
    simpl in Hfold, Hm, Hids, Hall, Hi, Hc, Ht, Hl, Hs.
    eexists w', (_ :: added). rewrite Hfold.
    rewrite (seqZ_cons (next_insert_id w)) by (simpl length; lia).
    replace (Z.succ (next_insert_id w)) with (next_insert_id w + 1) by lia.
    replace (Z.pred (Z.of_nat (length (recipient :: rest))))
      with (Z.of_nat (length rest)) by (simpl length; lia).
    split; [now rewrite <- app_assoc |].
    split; [rewrite Hm, <- app_assoc; reflexivity |].
    split; [rewrite fmap_cons, Hids; reflexivity |].
    split; [rewrite !fmap_cons, Hrcp; reflexivity |].
    split; [constructor; [simpl; auto 10 | exact Hall] |].
    auto 10.
Qed.

Lemma saveScheduledMessage_try_ok instanceId phoneNumbers message media caption
    scheduleTime delayInMS w :
  ready registered instanceId scheduleTime w ->
  saveScheduledMessage_try registered instanceId phoneNumbers message media caption
    scheduleTime delayInMS w
  = (let '(savedIds, w') :=
       fold_left (saveOne instanceId message media caption
                    (formatSeconds (scheduledFor scheduleTime delayInMS w)))
         (recipientsOf phoneNumbers) ([], w) in
     (Ok savedIds, w')).
Proof.
  intros (id & entry & -> & Hid & Hentry & Hstatus & Hreg & Hfuture).
  unfold saveScheduledMessage_try.
  apply truthy_nonempty in Hid.
  rewrite Hid, (registryLookup_own _ _ _ Hentry), Hstatus, Hreg. simpl.
  unfold scheduledFor, recipientsOf.
  destruct scheduleTime as [t |]; [| now destruct delayInMS].
  specialize (Hfuture t eq_refl).
  destruct (Z.leb t (clock w)) eqn:E; [apply Z.leb_le in E; lia | reflexivity].
Qed.

Lemma saveScheduledMessage_try_throws instanceId phoneNumbers message media caption
    scheduleTime delayInMS w :
  ~ ready registered instanceId scheduleTime w ->
  exists e,
    saveScheduledMessage_try registered instanceId phoneNumbers message media caption
      scheduleTime delayInMS w = (Throw e, w).
Proof.
  intros Hno. unfold saveScheduledMessage_try.
  destruct instanceId as [id |]; [| eauto].
  destruct (Js.truthy (Some id)) eqn:Et; [| simpl; eauto].
  cbn [negb]. pose proof (registryLookup_cases id (instances w)) as Hl.
  destruct (registryLookup id (instances w)) as [entry |]; [| eauto].
  case_bool_decide as Hstatus; cbn [negb].
  2: { repeat case_bool_decide; eauto. }
  destruct Hl as [Hentry | (_ & _ & ->)]; [| discriminate Hstatus].
  destruct (registered id) eqn:Hreg; cbn [negb]; [| eauto].
  destruct scheduleTime as [t |].
  - destruct (Z.leb t (clock w)) eqn:E; [eauto |].
    exfalso. apply Hno. exists id, entry. apply truthy_nonempty in Et.
    apply Z.leb_gt in E. repeat split; auto. intros t' [= <-]. lia.
  - exfalso. apply Hno. exists id, entry. apply truthy_nonempty in Et.
    repeat split; auto. discriminate.
Qed.

Lemma ready_or_not (instanceId : option string) (scheduleTime : option Z) (w : World) :
  ready registered instanceId scheduleTime w
  \/ ~ ready registered instanceId scheduleTime w.
Proof.
  unfold ready. destruct instanceId as [id |];
    [| right; intros (? & ? & [=] & _)].
  destruct (decide (id = ""%string)) as [-> | Hid];
    [right; intros (? & ? & [= <-] & H & _); contradiction |].
  destruct (instances w !! id) as [entry |] eqn:He;
    [| right; intros (? & ? & [= <-] & _ & H & _); congruence].
  destruct (decide (inst_status entry = Some "connected"%string)) as [Hs | Hs];
    [| right; intros (? & ? & [= <-] & _ & H & H' & _); congruence].
  destruct (registered id) eqn:Hr;
    [| right; intros (? & ? & [= <-] & _ & _ & _ & H & _); congruence].
  destruct scheduleTime as [t |].
  - destruct (decide (clock w < t)) as [Ht | Ht].
    + left. exists id, entry. repeat split; auto. now intros t' [= <-].
    + right. intros (? & ? & _ & _ & _ & _ & _ & H). apply Ht. now apply H.
  - left. exists id, entry. repeat split; auto. discriminate.
Qed.

(** X12: [saveScheduledMessage] stores nothing unless the tenant is ready:
    a call that throws leaves the world as it was but for one entry in the
    error log, and a call that returns was made for a tenant whose registry
    entry has the status 'connected' and that is in the instances table,
    with a schedule time, if one was given, after now. *)
Theorem saveScheduledMessage_refuses_unless_ready
    (instanceId : option string) (phoneNumbers : Messages.PhoneArg)
    (message media caption : option string) (scheduleTime delayInMS : option Z)
    (w : World) :
  let r := saveScheduledMessage registered instanceId phoneNumbers message media
             caption scheduleTime delayInMS w in
  (forall e, fst r = Throw e ->
     snd r = logw Error "Error saving scheduled message:" w
     /\ ~ ready registered instanceId scheduleTime w)
  /\ (forall ids, fst r = Ok ids -> ready registered instanceId scheduleTime w).
Proof.
  cbv zeta. unfold saveScheduledMessage, catch.
  destruct (ready_or_not instanceId scheduleTime w) as [Hready | Hno].
  - rewrite (saveScheduledMessage_try_ok _ _ _ _ _ _ _ _ Hready).
    destruct (fold_left _ _ _) as [ids w']. simpl. split; [discriminate | auto].
  - destruct (saveScheduledMessage_try_throws instanceId phoneNumbers message media
                caption scheduleTime delayInMS w Hno) as [e ->].
    simpl. split; [auto | discriminate].
Qed.

(** X13: for a ready tenant [saveScheduledMessage] appends one pending row
    per recipient, in order, under consecutive ids, which it returns; each
    row holds the trimmed recipient, no transport id, and as its schedule
    time the scheduled instant cut to the second; registry, clock and log
    are untouched. *)
Theorem saveScheduledMessage_one_pending_row_per_recipient
    (instanceId : option string) (phoneNumbers : Messages.PhoneArg)
    (message media caption : option string) (scheduleTime delayInMS : option Z)
    (w : World) :
  ready registered instanceId scheduleTime w ->
  exists w' added,
    saveScheduledMessage registered instanceId phoneNumbers message media caption
      scheduleTime delayInMS w
    = (Ok (seqZ (next_insert_id w) (Z.of_nat (length (recipientsOf phoneNumbers)))), w')
    /\ media_messages w' = media_messages w ++ added
    /\ (mm_id <$> added)
       = seqZ (next_insert_id w) (Z.of_nat (length (recipientsOf phoneNumbers)))
    /\ (mm_recipient <$> added) = (Js.trim <$> recipientsOf phoneNumbers)
    /\ Forall (fun r =>
                 mm_message_status r = PENDING
                 /\ mm_instance_id r = instanceId
                 /\ mm_whatsapp_message_id r = None
                 /\ mm_schedule_time r
                    = Some (formatSeconds (scheduledFor scheduleTime delayInMS w)))
         added
    /\ instances w' = instances w /\ clock w' = clock w /\ log w' = log w.
Proof.
  intros Hready. unfold saveScheduledMessage, catch.
  rewrite (saveScheduledMessage_try_ok _ _ _ _ _ _ _ _ Hready).
  destruct (saveOne_fold instanceId message media caption
              (formatSeconds (scheduledFor scheduleTime delayInMS w))
              (recipientsOf phoneNumbers) [] w)
    as (w' & added & -> & Hm & Hids & Hrcp & Hall & Hi & Hc & _ & Hl & _).
  exists w', added. simpl. repeat split; auto.
  eapply Forall_impl; [exact Hall |]. simpl.
  intros r (Hst & Hinst & _ & Hwa & Hsched & _).
  destruct Hready as (id & _ & -> & Hid & _).
  apply truthy_nonempty in Hid. unfold Js.orNull in Hinst. rewrite Hid in Hinst. auto.
Qed.

(** X14: when the scheduler finds such a row due. A row stored by
    [saveScheduledMessage] is due at every instant from the scheduled one
    on, and at no instant a second or more before it; so with the default
    delay it is not due at the instant it is stored. *)
Theorem saved_message_due_from_its_second
    (instanceId : option string) (phoneNumbers : Messages.PhoneArg)
    (message media caption : option string) (scheduleTime delayInMS : option Z)
    (w : World) (ids : list Z) (w' : World) (r : MediaMessage) (now : Z) :
  saveScheduledMessage registered instanceId phoneNumbers message media caption
    scheduleTime delayInMS w = (Ok ids, w') ->
  r ∈ drop (length (media_messages w)) (media_messages w') ->
  (scheduledFor scheduleTime delayInMS w <= now -> due now r = true)
  /\ (now <= scheduledFor scheduleTime delayInMS w - 1000 -> due now r = false)
  /\ (scheduleTime = None -> delayInMS = None -> due (clock w) r = false).
Proof.
  intros Hrun Hin.
  assert (ready registered instanceId scheduleTime w) as Hready.
  { destruct (ready_or_not instanceId scheduleTime w) as [H | H]; [exact H |].
    unfold saveScheduledMessage, catch in Hrun.
    destruct (saveScheduledMessage_try_throws instanceId phoneNumbers message media
                caption scheduleTime delayInMS w H) as [e He].
    rewrite He in Hrun. discriminate. }
  unfold saveScheduledMessage, catch in Hrun.
  rewrite (saveScheduledMessage_try_ok _ _ _ _ _ _ _ _ Hready) in Hrun.
  destruct (saveOne_fold instanceId message media caption
              (formatSeconds (scheduledFor scheduleTime delayInMS w))
              (recipientsOf phoneNumbers) [] w)
    as (w1 & added & Hfold & Hm & _ & _ & Hall & _).
  rewrite Hfold in Hrun. injection Hrun as _ <-.
  rewrite Hm, drop_app_length in Hin.
  rewrite Forall_forall in Hall. destruct (Hall r Hin) as (Hst & _ & _ & _ & Hsched & _).
  pose proof (formatSeconds_bounds (scheduledFor scheduleTime delayInMS w)) as Hb.
  unfold due. rewrite Hst, Hsched. simpl.
  split; [| split].
  - intros Hnow. apply Z.leb_le. lia.
  - intros Hnow. apply Z.leb_gt. lia.
  - intros -> ->. unfold scheduledFor in *. simpl in *. apply Z.leb_gt. lia.
Qed.

(** X15: [saveMediaMessage] writes to the ledger only with the 201 response:
    every other response leaves the world as it was. A 201 response means
    that instance id, recipient and message were all given and not empty,
    the schedule time is a date and the instance is in the instances table;
    the id it carries is the id of the one row appended, which is pending,
    has no transport id and holds the recipient without any [+], white
    space or [-]. *)
Theorem saveMediaMessage_validates_then_stores
    (instance_id recipient : option string) (schedule_time : Messages.DateArg)
    (message : option string) (w : World) :
  let r := saveMediaMessage registered instance_id recipient schedule_time message w in
  match fst r with
  | Created id t =>
      exists tenant to text,
        instance_id = Some tenant /\ tenant <> ""%string
        /\ recipient = Some to /\ to <> ""%string
        /\ message = Some text /\ text <> ""%string
        /\ schedule_time = Messages.DateAt t
        /\ registered tenant = true
        /\ id = next_insert_id w
        /\ media_messages (snd r)
           = media_messages w
             ++ [mkMediaMessage id (Some tenant) (Js.stripPhonePunctuation to)
                   (Some text) None None (Some t) PENDING None (Some (clock w))]
        /\ next_insert_id (snd r) = id + 1
        /\ instances (snd r) = instances w /\ log (snd r) = log w
  | BadRequest _ | NotFound _ => snd r = w
  end.
Proof.
  cbv zeta. unfold saveMediaMessage.
  destruct instance_id as [tenant |]; [| reflexivity].
  destruct recipient as [to |]; [| reflexivity].
  destruct schedule_time as [| | t]; [reflexivity | |].
  - destruct (_ && _ && _)%bool; [| reflexivity].
    now destruct (registered tenant).
  - destruct (Js.truthy (Some tenant)) eqn:E1; [| reflexivity].
    destruct (Js.truthy (Some to)) eqn:E2; [| reflexivity].
    destruct (Js.truthy message) eqn:E3; [| reflexivity].
    cbn [andb]. destruct (registered tenant) eqn:Hreg; [| reflexivity].
    cbn [negb]. unfold Messages.insert_message. cbn [fst snd].
    destruct message as [text |]; [| discriminate].
    apply truthy_nonempty in E1, E2, E3.
    exists tenant, to, text. repeat split; auto.
Qed.

End EntryProps.

(** *** The jid the scheduler derives from a stored recipient *)

Lemma strip_trimStart s :
  Js.stripPhonePunctuation (Js.trimStart s) = Js.stripPhonePunctuation s.
Proof.
  induction s as [| c t IH]; [reflexivity |].
  cbn [Js.trimStart]. destruct (Js.isSpace c) eqn:E; [| reflexivity].
  rewrite IH. cbn [Js.stripPhonePunctuation]. rewrite E, orb_true_r. reflexivity.
Qed.

Lemma strip_trimEnd s :
  Js.stripPhonePunctuation (Js.trimEnd s) = Js.stripPhonePunctuation s.
Proof.
  induction s as [| c t IH]; [reflexivity |].
  cbn [Js.trimEnd]. destruct (Js.trimEnd t) as [| a b].
  - cbn [Js.stripPhonePunctuation] in IH. cbn [Js.stripPhonePunctuation].
    rewrite <- IH.
    destruct (Js.isSpace c) eqn:E; [now rewrite orb_true_r |].
    cbn [Js.stripPhonePunctuation]. now rewrite E.
  - cbn [Js.stripPhonePunctuation] in IH. cbn [Js.stripPhonePunctuation].
    rewrite <- IH. reflexivity.
Qed.

Lemma strip_clean s c :
  In c (list_ascii_of_string (Js.stripPhonePunctuation s)) ->
  c <> "+"%char /\ c <> "-"%char /\ Js.isSpace c = false.
Proof.
  induction s as [| a t IH]; simpl; [tauto |].
  destruct (Ascii.eqb a "+") eqn:E1; [auto |].
  destruct (Js.isSpace a) eqn:E2; [auto |].
  destruct (Ascii.eqb a "-") eqn:E3; [auto |].
  simpl. intros [<- | H]; [| auto].
  apply Ascii.eqb_neq in E1, E3. auto.
Qed.

(** X16: the number the scheduler addresses. The scheduler strips every
    [+], white space and [-] from a row's recipient before it appends
    [@s.whatsapp.net]: what is left holds none of these characters;
    stripping is idempotent, so a recipient stored by [saveMediaMessage]
    (already stripped) is addressed as stored; and it absorbs the trimming
    of [saveScheduledMessage], so both entry points lead to the same jid
    for the same recipient. *)
Theorem scheduler_addresses_the_stripped_number (recipient : string) :
  (forall c, In c (list_ascii_of_string (Js.stripPhonePunctuation recipient)) ->
     c <> "+"%char /\ c <> "-"%char /\ Js.isSpace c = false)
  /\ Js.stripPhonePunctuation (Js.stripPhonePunctuation recipient)
     = Js.stripPhonePunctuation recipient
  /\ Js.stripPhonePunctuation (Js.trim recipient) = Js.stripPhonePunctuation recipient.
Proof.
  split; [intros c; apply strip_clean |]. split.
  - induction recipient as [| c t IH]; [reflexivity |].
    simpl. destruct (_ || _ || _)%bool eqn:E; [exact IH |].
    simpl. rewrite E. now rewrite IH.
  - unfold Js.trim. now rewrite strip_trimEnd, strip_trimStart.
Qed.

Lemma connected_world_ready scheduleTime :
  (forall t, scheduleTime = Some t -> 5000 < t) ->
  ready all_registered (Some "t1"%string) scheduleTime connected_world.
Proof.
  intros Hfuture. eexists "t1"%string, _.
  split; [reflexivity |]. split; [discriminate |]. split; [reflexivity |].
  split; [reflexivity |]. split; [reflexivity | exact Hfuture].
Qed.

Lemma saveScheduledMessage_one_pending_row_per_recipient_witness :
  exists w' added,
    saveScheduledMessage all_registered (Some "t1"%string)
      (Messages.Many [" 911 "; "912"]%string) (Some "hi"%string) None None
      (Some 61500) None connected_world
    = (Ok [1; 2], w')
    /\ media_messages w' = media_messages connected_world ++ added
    /\ (mm_id <$> added) = [1; 2]
    /\ (mm_recipient <$> added) = ["911"; "912"]%string
    /\ Forall (fun r =>
                 mm_message_status r = PENDING
                 /\ mm_instance_id r = Some "t1"%string
                 /\ mm_whatsapp_message_id r = None
                 /\ mm_schedule_time r = Some 61000)
         added
    /\ instances w' = instances connected_world /\ clock w' = 5000 /\ log w' = [].
Proof.
  apply (saveScheduledMessage_one_pending_row_per_recipient all_registered
           (Some "t1"%string) (Messages.Many [" 911 "; "912"]%string) (Some "hi"%string)
           None None (Some 61500) None connected_world).
  apply connected_world_ready. intros t [= <-]. lia.
Defined.

Lemma saved_message_due_from_its_second_witness :
  due 9000 (mkMediaMessage 1 (Some "t1"%string) "911" (Some "hi"%string) None None
              (Some 9000) PENDING None (Some 5000)) = true
  /\ due 5000 (mkMediaMessage 1 (Some "t1"%string) "911" (Some "hi"%string) None None
                 (Some 9000) PENDING None (Some 5000)) = false.
Proof.
  destruct (saved_message_due_from_its_second all_registered (Some "t1"%string)
              (Messages.Many ["911"%string]) (Some "hi"%string) None None None None
              connected_world [1]
              (snd (saveScheduledMessage all_registered (Some "t1"%string)
                      (Messages.Many ["911"%string]) (Some "hi"%string) None None
                      None None connected_world))
              (mkMediaMessage 1 (Some "t1"%string) "911" (Some "hi"%string) None None
                 (Some 9000) PENDING None (Some 5000))
              9000 eq_refl) as (Hdue & _ & Hnot).
  - vm_compute. left.
  - split; [apply Hdue; vm_compute; discriminate | now apply Hnot].
Defined.

End ScheduleEntryProps.

(* ===================================================================== *)
(** ** The QR and reset endpoints *)
(* ===================================================================== *)

Module EndpointsProps.
Import Store Err QrCode QrCodeSpec Endpoints EndpointsSpec RegistryProps QrCodeProps.
Local Open Scope list_scope.

Section HandlersProps.

Variable hangup : nat -> SockCall -> Res unit.
Variable rmSync : string -> Res unit.
Variable start : nat -> string -> gmap string Instance
                 -> Res ConnectResult * gmap string Instance.

(** The retry loop, when the first [k] attempts fail. *)
Lemma connectWithRetry_spec id : forall left retryCount k h,
  (left + retryCount = maxRetries)%nat ->
  (k <= left)%nat ->
  (forall i registry, (i < k)%nat ->
     answer (fst (start (starts h + i)%nat id registry)) = None) ->
  let r := connectWithRetry start left retryCount id h in
  sock_calls (snd r) = sock_calls h
  /\ (k = left ->
        fst r = QrError "result is not defined"
        /\ starts (snd r) = (starts h + k)%nat
        /\ clock (world (snd r))
           = clock (world h) + pauses (retryCount + k) - pauses retryCount)
  /\ (forall response,
        (k < left)%nat ->
        (forall registry,
           answer (fst (start (starts h + k)%nat id registry)) = Some response) ->
        fst r = response
        /\ starts (snd r) = (starts h + k + 1)%nat
        /\ clock (world (snd r))
           = clock (world h) + pauses (retryCount + k) - pauses retryCount).
Proof.
  induction left as [| left IH]; intros retryCount k h Hsum Hk Hfail; cbv zeta.
  - assert (k = 0%nat) as -> by lia. simpl.
    split; [reflexivity |]. split; [| intros response Hlt; lia].
    intros _. rewrite !Nat.add_0_r. repeat split; lia.
  - cbn [connectWithRetry].
    set (h0 := match registryLookup id (instances (world h)) with
               | Some _ => deleteInstance id h
               | None => h
               end).
    assert (starts h0 = starts h /\ sock_calls h0 = sock_calls h
            /\ clock (world h0) = clock (world h)) as (Hs0 & Hc0 & Hk0)
      by (unfold h0; destruct (registryLookup id (instances (world h))); auto).
    unfold initializeSock. rewrite Hs0.
    destruct (start (starts h) id (instances (world h0))) as [result registry] eqn:Es.
    destruct k as [| k].
    + (* this attempt is the one that answers *)
      split.
      { destruct result as [[url |] | e]; cbn [answer];
          try destruct (Js.truthy (Some url)); simpl; auto.
        all: match goal with
             | |- sock_calls (snd (connectWithRetry _ ?l ?c _ ?h1)) = _ =>
                 destruct (IH c 0%nat h1 ltac:(unfold maxRetries in *; lia) ltac:(lia)
                             ltac:(intros; lia)) as (Hc & _); rewrite Hc
             end.
        all: destruct (Nat.ltb _ _); simpl; auto. }
      split; [intros H; lia |].
      intros response _ Hok. specialize (Hok (instances (world h0))).
      rewrite Nat.add_0_r, Es in Hok. cbn [fst] in Hok.
      rewrite !Nat.add_0_r.
      destruct result as [[url |] | e]; cbn [answer] in Hok.
      * destruct (Js.truthy (Some url)); [| discriminate].
        injection Hok as <-. simpl. repeat split; lia.
      * injection Hok as <-. simpl. repeat split; lia.
      * discriminate.
    + (* this attempt fails *)
      pose proof (Hfail 0%nat (instances (world h0)) ltac:(lia)) as H0.
      rewrite Nat.add_0_r, Es in H0. cbn [fst] in H0.
      assert (match result with
              | Ok NowConnected => inr IsAuthenticated
              | Ok (GotQrCode url) =>
                  if Js.truthy (Some url) then inr (QrCode url)
                  else inl "Failed to generate QR code or establish connection"%string
              | Throw e => inl e
              end
              = (inl (match result with
                      | Throw e => e
                      | _ => "Failed to generate QR code or establish connection"%string
                      end) : string + QrResponse)) as ->.
      { destruct result as [[url |] | e]; cbn [answer] in H0; try discriminate;
          try reflexivity.
        now destruct (Js.truthy (Some url)). }
      match goal with
      | |- context [connectWithRetry _ left (S retryCount) id ?h1] =>
          set (h2 := h1)
      end.
      assert (starts h2 = S (starts h) /\ sock_calls h2 = sock_calls h
              /\ clock (world h2)
                 = clock (world h) + pauses (S retryCount) - pauses retryCount)
        as (Hs2 & Hc2 & Hk2).
      { unfold h2. unfold maxRetries in *.
        destruct retryCount as [| [| [| n]]]; simpl; repeat split; try lia;
          try assumption. }
      destruct (IH (S retryCount) k h2 ltac:(lia) ltac:(lia)) as (Hcalls & Hall & Hsome).
      { intros i registry' Hi. rewrite Hs2.
        replace (S (starts h) + i)%nat with (starts h + S i)%nat by lia.
        apply Hfail. lia. }
      split; [congruence |]. split.
      * intros Hkl. destruct Hall as (Hr & Hst & Hck); [lia |].
        rewrite Hr, Hst, Hck, Hs2, Hk2.
        replace (S retryCount + k)%nat with (retryCount + S k)%nat by lia.
        repeat split; lia.
      * intros response Hlt Hok. destruct (Hsome response) as (Hr & Hst & Hck); [lia | |].
        { intros registry'. rewrite Hs2.
          replace (S (starts h) + k)%nat with (starts h + S k)%nat by lia. apply Hok. }
        rewrite Hr, Hst, Hck, Hs2, Hk2.
        replace (S retryCount + k)%nat with (retryCount + S k)%nat by lia.
        repeat split; lia.
Qed.

Lemma cleanup_frame id entry h :
  let h' := cleanup hangup rmSync id entry h in
  starts h' = starts h
  /\ clock (world h') = clock (world h) + 5000
  /\ sock_calls h'
     = sock_calls h ++ match inst_sock entry with
                       | Some sock => [CallLogout sock; CallEnd sock]
                       | None => []
                       end
  /\ instances (world h') = delete id (instances (world h)).
Proof.
  unfold cleanup, call.
  destruct (inst_sock entry) as [sock |].
  - destruct (hangup (length (sock_calls h)) (CallLogout sock));
      cbn [on_world world authFolders sock_calls starts];
      match goal with
      | |- context [hangup ?n (CallEnd sock)] => destruct (hangup n (CallEnd sock))
      end;
      cbn [deleteInstance on_world world authFolders sock_calls starts];
      case_bool_decide; try destruct (rmSync id); simpl;
      rewrite <- ?app_assoc; auto.
  - cbn [deleteInstance on_world world authFolders sock_calls starts].
    case_bool_decide; try destruct (rmSync id); simpl; rewrite ?app_nil_r; auto.
Qed.


(** X18: the QR endpoint leaves a tenant alone only when its entry has the
    status 'connected': it then answers that the tenant is authenticated
    and touches nothing. For any other entry that holds a socket (one that
    is reconnecting, say) it calls [logout] and then [end] on that socket,
    whatever comes of the attempts that follow. *)
Theorem generateQRCode_logs_out_unless_connected
    (id : string) (entry : Instance) (h : Host) :
  instances (world h) !! id = Some entry ->
  (inst_status entry = Some "connected"%string ->
     generateQRCode hangup rmSync start id h = (IsAuthenticated, h))
  /\ (inst_status entry <> Some "connected"%string ->
        forall sock, inst_sock entry = Some sock ->
          sock_calls (snd (generateQRCode hangup rmSync start id h))
          = sock_calls h ++ [CallLogout sock; CallEnd sock]).
Proof.
  intros He. unfold generateQRCode. rewrite (registryLookup_own _ _ _ He). split.
  - intros Hs. now rewrite bool_decide_eq_true_2.
  - intros Hs sock Hsock. rewrite bool_decide_eq_false_2 by exact Hs.
    destruct (cleanup_frame id entry h) as (_ & _ & Hcalls & _). cbv zeta in Hcalls.
    rewrite Hsock in Hcalls.
    destruct (connectWithRetry_spec id maxRetries 0%nat 0%nat
                (cleanup hangup rmSync id entry h) eq_refl ltac:(lia)) as (Hc & _).
    { intros i registry Hi. lia. }
    cbv zeta in Hc. now rewrite Hc.
Qed.

(** *** Reset *)

Lemma resetFolder_spec id h :
  let r := resetFolder rmSync id h in
  instances (world (snd r)) = instances (world h)
  /\ sock_calls (snd r) = sock_calls h
  /\ match fst r with
     | ResetDone => (id ∉ authFolders (snd r)) /\ world (snd r) = world h
     | ResetError e => authFolders (snd r) = authFolders h /\ rmSync id = Throw e
     end.
Proof.
  unfold resetFolder. case_bool_decide as Hin.
  - destruct (rmSync id) as [[] | e]; simpl; repeat split; auto.
    rewrite elem_of_difference, elem_of_singleton. tauto.
  - simpl. auto.
Qed.


(** X20: a reset does not remove an entry that holds no socket (the entry a
    close event leaves when the entry was gone already): no call is made
    on any socket, the world is as it was, and when the reset answers with
    success the status endpoint still answers 200 for the tenant. *)
Theorem resetInstance_keeps_entry_without_socket
    (id : string) (entry : Instance) (h : Host) :
  instances (world h) !! id = Some entry ->
  inst_sock entry = None ->
  let r := resetInstance hangup rmSync id h in
  sock_calls (snd r) = sock_calls h
  /\ instances (world (snd r)) !! id = Some entry
  /\ sr_code (getConnectionStatus id (world (snd r))) = 200
  /\ (fst r = ResetDone -> world (snd r) = world h /\ (id ∉ authFolders (snd r))).
Proof.
  intros He Hsock. cbv zeta. unfold resetInstance.
  rewrite (registryLookup_own _ _ _ He), Hsock.
  pose proof (resetFolder_spec id h) as Hf. cbv zeta in Hf.
  destruct (resetFolder rmSync id h) as [resp h2]. cbn [fst snd] in *.
  destruct Hf as (Hi & Hc & Hresp).
  assert (instances (world h2) !! id = Some entry) as Hkept by (now rewrite Hi).
  split; [exact Hc |]. split; [exact Hkept |]. split.
  - unfold getConnectionStatus. rewrite (registryLookup_own _ _ _ Hkept), Hsock. simpl.
    now case_bool_decide.
  - intros ->. tauto.
Qed.

End HandlersProps.


Lemma generateQRCode_logs_out_unless_connected_witness :
  sock_calls (snd (generateQRCode obliging removable second_time_lucky "t1"
                     reconnecting_host))
  = [CallLogout (mkSock 7 None); CallEnd (mkSock 7 None)].
Proof.
  destruct (generateQRCode_logs_out_unless_connected obliging removable
              second_time_lucky "t1"
              (mkInstance (Some (mkSock 7 None)) None (Some "reconnecting"%string)
                 (Some 0))
              reconnecting_host eq_refl) as (_ & Hout).
  apply (Hout ltac:(discriminate) (mkSock 7 None) eq_refl).
Defined.


Lemma resetInstance_keeps_entry_without_socket_witness :
  fst (resetInstance obliging removable "t1" orphan_host) = ResetDone
  /\ instances (world (snd (resetInstance obliging removable "t1" orphan_host)))
     !! "t1"%string
     = Some (mkInstance None None (Some "reconnecting"%string) (Some 0))
  /\ sr_code (getConnectionStatus "t1"
                (world (snd (resetInstance obliging removable "t1" orphan_host))))
     = 200.
Proof.
  destruct (resetInstance_keeps_entry_without_socket obliging removable "t1"
              (mkInstance None None (Some "reconnecting"%string) (Some 0))
              orphan_host eq_refl eq_refl) as (_ & Hkept & Hstatus & _).
  split; [reflexivity |]. split; [exact Hkept | exact Hstatus].
Defined.

End EndpointsProps.

(* ===================================================================== *)
(** ** The reconnect timer *)
(* ===================================================================== *)

Module SupervisorProps.
Import Store Err QrCode QrCodeSpec QrCodeProps.
Local Open Scope list_scope.




End SupervisorProps.

(* ===================================================================== *)
(** ** Tenant isolation in the receipt handler *)
(* ===================================================================== *)

Module IsolationProps.
Import Store UpdateStatus UpdateStatusSpec IsolationSpec UpdateStatusProps.
Local Open Scope list_scope.

Lemma own_status_only_refl inst r : own_status_only inst r r.
Proof. split; [exists (mm_message_status r); now destruct r | reflexivity]. Qed.

Lemma own_status_only_trans inst r0 r1 r2 :
  own_status_only inst r0 r1 -> own_status_only inst r1 r2 -> own_status_only inst r0 r2.
Proof.
  intros [[st1 E1] H1] [[st2 E2] H2]. split.
  - exists st2. rewrite E2, E1. reflexivity.
  - intros Hne. rewrite H2; [now apply H1 |]. rewrite E1. exact Hne.
Qed.

Lemma Forall2_own_refl inst rows : Forall2 (own_status_only inst) rows rows.
Proof. induction rows; constructor; auto using own_status_only_refl. Qed.

Lemma Forall2_own_ids inst rows rows' :
  Forall2 (own_status_only inst) rows rows' -> (mm_id <$> rows') = (mm_id <$> rows).
Proof.
  induction 1 as [| r r' rows rows' [[st ->] _] _ IH]; [reflexivity |].
  rewrite !fmap_cons, IH. reflexivity.
Qed.

Lemma Forall2_own_trans inst l1 l2 l3 :
  Forall2 (own_status_only inst) l1 l2 -> Forall2 (own_status_only inst) l2 l3 ->
  Forall2 (own_status_only inst) l1 l3.
Proof.
  intros H12. revert l3. induction H12; intros l3 H23; inversion H23; subst;
    constructor; eauto using own_status_only_trans.
Qed.

(** The row an event is resolved to belongs to the tenant of the socket. *)
Lemma getDatabaseId_own inst mid w dbId :
  getDatabaseId inst mid w = (true, Some dbId) ->
  exists r, r ∈ media_messages w /\ mm_id r = dbId /\ mm_instance_id r = Some inst.
Proof.
  unfold getDatabaseId.
  destruct (filter _ (media_messages w)) as [| r rs] eqn:E; [discriminate |].
  intros [= <-]. exists r.
  assert (r ∈ filter (fun r => mm_instance_id r = Some inst /\ is_Some mid
                               /\ mm_whatsapp_message_id r = mid)
                     (media_messages w)) as Hin by (rewrite E; left).
  apply list_elem_of_filter in Hin as [(Hi & _) Hin]. auto.
Qed.

(** With distinct ids, a status update under the id of one of the tenant's
    rows changes that row only. *)
Lemma updateMessageStatusInDB_own inst dbId st w r0 :
  NoDup (mm_id <$> media_messages w) ->
  r0 ∈ media_messages w -> mm_id r0 = dbId -> mm_instance_id r0 = Some inst ->
  Forall2 (own_status_only inst) (media_messages w)
    (media_messages (updateMessageStatusInDB dbId st w)).
Proof.
  intros Hnd Hin Hid Hinst.
  assert (forall st', Forall2 (own_status_only inst) (media_messages w)
                        (update_status dbId st' (media_messages w))) as Hupd.
  { intros st'. unfold update_status.
    assert (forall rows, (forall r, r ∈ rows -> r ∈ media_messages w) ->
              Forall2 (own_status_only inst) rows
                (map (fun r => if Z.eqb (mm_id r) dbId then with_status st' r else r) rows))
      as Hgen.
    { induction rows as [| r rows IH]; intros Hsub; simpl; constructor.
      - destruct (Z.eqb_spec (mm_id r) dbId) as [E | E];
          [| apply own_status_only_refl].
        split; [now exists st' |]. intros Hne. exfalso. apply Hne.
        assert (r = r0) as ->; [| exact Hinst].
        apply (ScheduleProps.same_id_same_row (media_messages w)); auto.
        + apply Hsub. left.
        + congruence.
      - apply IH. intros r' Hr'. apply Hsub. now right. }
    apply Hgen. auto. }
  unfold updateMessageStatusInDB.
  destruct (Js.includes st MESSAGE_STATUS_values); destruct (Nat.ltb 0 _); simpl;
    apply Hupd.
Qed.

Lemma onMessageUpdate_own inst u w :
  NoDup (mm_id <$> media_messages w) ->
  Forall2 (own_status_only inst) (media_messages w)
    (media_messages (onMessageUpdate inst u w)).
Proof.
  intros Hnd. unfold onMessageUpdate.
  destruct (upd_key u) as [key |]; [| apply Forall2_own_refl].
  destruct (upd_update u) as [[code |] |]; try apply Forall2_own_refl.
  destruct (getDatabaseId inst (key_id key) w) as [[] [dbId |]] eqn:Eg;
    try apply Forall2_own_refl.
  destruct (getDatabaseId_own _ _ _ _ Eg) as (r0 & Hin & Hid & Hinst).
  now apply (updateMessageStatusInDB_own inst dbId _ w r0).
Qed.

Lemma onReceipt_own inst u w :
  NoDup (mm_id <$> media_messages w) ->
  Forall2 (own_status_only inst) (media_messages w)
    (media_messages (onReceipt inst u w)).
Proof.
  intros Hnd. unfold onReceipt.
  destruct (rcp_key u) as [key |]; [| apply Forall2_own_refl].
  destruct (getDatabaseId inst (key_id key) w) as [[] [dbId |]] eqn:Eg;
    try apply Forall2_own_refl.
  destruct (rcp_receipt u) as [type |]; [| apply Forall2_own_refl].
  destruct (getDatabaseId_own _ _ _ _ Eg) as (r0 & Hin & Hid & Hinst).
  now apply (updateMessageStatusInDB_own inst dbId _ w r0).
Qed.

Lemma fold_own {U} inst (f : World -> U -> World) :
  (forall w u, NoDup (mm_id <$> media_messages w) ->
     Forall2 (own_status_only inst) (media_messages w) (media_messages (f w u))) ->
  forall us w,
    NoDup (mm_id <$> media_messages w) ->
    Forall2 (own_status_only inst) (media_messages w)
      (media_messages (fold_left f us w)).
Proof.
  intros Hstep. induction us as [| u us IH]; intros w Hnd; simpl.
  - apply Forall2_own_refl.
  - pose proof (Hstep w u Hnd) as H1.
    apply (Forall2_own_trans inst _ _ _ H1). apply IH.
    now rewrite (Forall2_own_ids inst _ _ H1).
Qed.

(** X22: the events a tenant's socket delivers never touch another
    tenant's messages. When the ledger ids are distinct, a batch of
    messages.update or receipt.update events received for tenant [inst]
    inserts and deletes no row, changes nothing but the status of rows,
    and leaves every row that is not [inst]'s exactly as it was, even when
    it carries the same transport message id. *)
Theorem receipts_touch_only_own_tenant
    (inst : string) (updates : list Update) (receipts : list ReceiptUpdate) (w : World) :
  NoDup (mm_id <$> media_messages w) ->
  Forall2 (own_status_only inst) (media_messages w)
    (media_messages (onMessagesUpdate inst updates w))
  /\ Forall2 (own_status_only inst) (media_messages w)
       (media_messages (onReceiptUpdate inst receipts w)).
Proof.
  intros Hnd. split.
  - apply (fold_own inst (fun w u => onMessageUpdate inst u w)); [| exact Hnd].
    intros w0 u. apply onMessageUpdate_own.
  - apply (fold_own inst (fun w u => onReceipt inst u w)); [| exact Hnd].
    intros w0 u. apply onReceipt_own.
Qed.

Lemma receipts_touch_only_own_tenant_witness :
  Forall2 (own_status_only "t1") (media_messages two_tenants)
    (media_messages (onMessagesUpdate "t1" [event "WA1" (RNum 4)] two_tenants))
  /\ Forall2 (own_status_only "t1") (media_messages two_tenants)
       (media_messages
          (onReceiptUpdate "t1"
             [mkReceiptUpdate (Some (mkKey (Some "WA1"%string) None))
                (Some (Some "read"%string))] two_tenants)).
Proof.
  apply (receipts_touch_only_own_tenant "t1" [event "WA1" (RNum 4)]
           [mkReceiptUpdate (Some (mkKey (Some "WA1"%string) None))
              (Some (Some "read"%string))] two_tenants).
  apply NoDup_cons. split; [| apply NoDup_singleton].
  intros H. apply list_elem_of_singleton in H. discriminate H.
Defined.

End IsolationProps.

(* ===================================================================== *)
(** ** The subscription the quota gate picks, and placeholders *)
(* ===================================================================== *)

Module QuotaProps.
Import Store Err Messages MessagesSpec QuotaSpec MessagesProps.
Local Open Scope list_scope.

Lemma newer_spec a b :
  newer a b = true <->
  sub_created_at b < sub_created_at a
  \/ (sub_created_at a = sub_created_at b /\ sub_id b < sub_id a).
Proof.
  unfold newer. rewrite orb_true_iff, andb_true_iff, !Z.ltb_lt, Z.eqb_eq. tauto.
Qed.

(** The fold of [ORDER BY ... LIMIT 1]: the best row so far. *)
Lemma pick_newest (l : list Subscription) : forall best,
  let pick := fold_left
                (fun best s =>
                   match best with
                   | Some b => if newer s b then Some s else best
                   | None => Some s
                   end) l best in
  match pick with
  | Some p =>
      (Some p = best \/ In p l)
      /\ (forall s, In s l -> notAfter p s)
      /\ (forall b, best = Some b -> notAfter p b)
  | None => best = None /\ l = []
  end.
Proof.
  induction l as [| s l IH]; intros best; cbv zeta.
  - simpl. destruct best as [b |]; [| auto].
    split; [now left |]. split; [intros s []|].
    intros b' [= <-]. right. split; [reflexivity | lia].
  - cbn [fold_left].
    set (best' := match best with
                  | Some b => if newer s b then Some s else best
                  | None => Some s
                  end).
    specialize (IH best'). cbv zeta in IH.
    destruct (fold_left _ l best') as [p |].
    + destruct IH as (Hin & Hall & Hbest).
      assert (exists b', best' = Some b'
                         /\ notAfter b' s
                         /\ (forall b, best = Some b -> notAfter b' b)
                         /\ (Some b' = best \/ b' = s)) as (b' & Eb & Hs & Hb & Hor).
      { unfold best'. destruct best as [b |].
        - destruct (newer s b) eqn:E.
          + apply newer_spec in E. exists s. split; [reflexivity |].
            split; [right; split; [reflexivity | lia] |].
            split; [| now right].
            intros b0 [= <-]. unfold notAfter. lia.
          + exists b. split; [reflexivity |].
            assert (~ (sub_created_at b < sub_created_at s
                       \/ (sub_created_at s = sub_created_at b /\ sub_id b < sub_id s)))
              as Hn by (rewrite <- newer_spec, E; discriminate).
            split; [unfold notAfter; lia |].
            split; [| now left].
            intros b0 [= <-]. right. split; [reflexivity | lia].
        - exists s. split; [reflexivity |].
          split; [right; split; [reflexivity | lia] |].
          split; [discriminate | now right]. }
      pose proof (Hbest b' Eb) as Hpb.
      assert (forall x, notAfter b' x -> notAfter p x) as Htrans
        by (intros x Hx; unfold notAfter in *; lia).
      split; [| split].
      * destruct Hin as [Hin | Hin]; [| right; now right].
        rewrite Eb in Hin. injection Hin as ->.
        destruct Hor as [Hor | ->]; [now left | right; now left].
      * intros x [<- | Hx]; [now apply Htrans | now apply Hall].
      * intros b Hb0. apply Htrans. now apply Hb.
    + destruct IH as [Hnone _]. unfold best' in Hnone.
      destruct best as [b |]; [destruct (newer s b) |]; discriminate.
Qed.

(** X23: the subscription the quota gate works with is one of the tenant's
    own, not expired today, and the first of those in the order newest
    [created_at], then largest [id]; there is none exactly when the tenant
    has no subscription that has not expired (one without an expiry date
    counts as expired). *)
Theorem activeSubscription_is_newest_unexpired (instanceId : string) (w : World) :
  match activeSubscription instanceId w with
  | Some s =>
      In s (subscription w) /\ eligible instanceId w s
      /\ forall s', In s' (subscription w) -> eligible instanceId w s' -> notAfter s s'
  | None => forall s, In s (subscription w) -> ~ eligible instanceId w s
  end.
Proof.
  unfold activeSubscription.
  set (unexpired := fun s : Subscription =>
         (String.eqb (sub_instance_id s) instanceId
          && match sub_date_expiry s with
             | Some e => Z.leb (curdate w) e
             | None => false
             end)%bool).
  assert (forall s, unexpired s = true <-> eligible instanceId w s) as Hel.
  { intros s. unfold unexpired, eligible.
    rewrite andb_true_iff, String.eqb_eq.
    destruct (sub_date_expiry s) as [e |].
    - rewrite Z.leb_le. split; [intros [H1 H2]; eauto |].
      intros [H1 (e' & [= <-] & H2)]. auto.
    - split; [intros [_ H]; discriminate | intros [_ (e' & H & _)]; discriminate]. }
  pose proof (pick_newest (List.filter unexpired (subscription w)) None) as Hpick.
  cbv zeta in Hpick.
  destruct (fold_left _ (List.filter unexpired (subscription w)) None) as [p |].
  - destruct Hpick as ([Hin | Hin] & Hall & _); [discriminate |].
    apply filter_In in Hin as [Hin Hp]. split; [exact Hin |].
    split; [now apply Hel |].
    intros s' Hs' He'. apply Hall. apply filter_In. split; [exact Hs' | now apply Hel].
  - destruct Hpick as [_ Hnil]. intros s Hs He.
    assert (In s (List.filter unexpired (subscription w))) as Hin
      by (apply filter_In; split; [exact Hs | now apply Hel]).
    rewrite Hnil in Hin. exact Hin.
Qed.

(** *** Placeholders *)

Lemma matchPlaceholder_brace c t :
  c <> "{"%char -> matchPlaceholder (String c t) = None.
Proof.
  intros Hc. unfold matchPlaceholder.
  destruct c as [[] [] [] [] [] [] [] []]; try reflexivity. contradiction.
Qed.

Lemma replaceAll_no_brace f s :
  ~ In "{"%char (list_ascii_of_string s) -> replaceAll f 0 s = s.
Proof.
  induction s as [| c t IH]; [reflexivity |].
  simpl list_ascii_of_string. intros Hno. cbn [replaceAll].
  rewrite matchPlaceholder_brace by (intros ->; apply Hno; now left).
  rewrite IH; [reflexivity |]. intros H. apply Hno. now right.
Qed.

(** X24: [replacePlaceholders] hands the text back as it is when the text
    holds no opening brace, when the tenant or the number is missing, and
    when the tenant's [phoneList] has no row for the number (without its
    leading [+] and surrounding white space); in every case it writes to
    the log at most. *)
Theorem replacePlaceholders_verbatim
    (text : option string) (phoneNumber : string) (instanceId : option string)
    (w : World) :
  only_logs w (snd (replacePlaceholders text phoneNumber instanceId w))
  /\ ((forall txt, text = Some txt -> ~ In "{"%char (list_ascii_of_string txt)) ->
      fst (replacePlaceholders text phoneNumber instanceId w) = text)
  /\ (instanceId = None \/ instanceId = Some ""%string \/ phoneNumber = ""%string ->
      replacePlaceholders text phoneNumber instanceId w = (text, w))
  /\ (forall inst,
        instanceId = Some inst ->
        (forall row, In row (phoneList w) ->
           ~ (pl_phone_numbers row = Js.trim (Js.stripLeadingPlus phoneNumber)
              /\ pl_instance_id row = inst)) ->
        fst (replacePlaceholders text phoneNumber instanceId w) = text).
Proof.
  split; [apply replacePlaceholders_only_logs |]. split; [| split].
  - intros Hno. unfold replacePlaceholders.
    destruct text as [txt |]; [| reflexivity].
    destruct instanceId as [inst |]; [| reflexivity].
    destruct (_ && _ && _)%bool; [| reflexivity].
    destruct (filter _ (phoneList w)); [reflexivity |].
    simpl. f_equal. apply replaceAll_no_brace. now apply Hno.
  - intros Hmissing. unfold replacePlaceholders.
    destruct text as [txt |]; [| reflexivity].
    destruct instanceId as [inst |]; [| reflexivity].
    destruct Hmissing as [H | [H | H]]; [discriminate | |].
    + injection H as ->. simpl. now rewrite andb_false_r.
    + subst phoneNumber. simpl. now rewrite andb_false_r.
  - intros inst -> Hnone. unfold replacePlaceholders.
    destruct text as [txt |]; [| reflexivity].
    destruct (_ && _ && _)%bool; [| reflexivity].
    destruct (filter _ (phoneList w)) as [| row rows] eqn:E; [reflexivity |].
    exfalso.
    assert (row ∈ filter (fun r => pl_phone_numbers r
                                   = Js.trim (Js.stripLeadingPlus phoneNumber)
                                   /\ pl_instance_id r = inst) (phoneList w)) as Hin
      by (rewrite E; left).
    apply list_elem_of_filter in Hin as [Hrow Hin]. apply list_elem_of_In in Hin.
    exact (Hnone row Hin Hrow).
Qed.

End QuotaProps.
